(** * Dual-Node Blender pipeline: a shallow embedding of
      [pipelines/blend_images_pipeline.py] and the properties of its helpers
      and of its stage runner.

    Python values are embedded as a small inductive type, text as lists of
    Unicode code points, exceptions as an explicit result type, and the
    generator [Pipeline.pipe] as a computation over the trace of what it has
    yielded and which collaborators it has called so far. *)

From Stdlib Require Import List NArith ZArith Bool String Ascii Lia.
Import ListNotations.

Set Warnings "-register-all,-abstract-large-number".
Local Open Scope N_scope.

(** ** Text *)

(** A Python [str] is a sequence of code points. *)
Definition char := N.
Definition str := list char.

(** Literals of the source, written as Rocq strings of ASCII characters. *)
Definition lit (s : string) : str := map N_of_ascii (list_ascii_of_string s).
Arguments lit s%_string.

Fixpoint str_eqb (a b : str) : bool :=
  match a, b with
  | [], [] => true
  | x :: a', y :: b' => N.eqb x y && str_eqb a' b'
  | _, _ => false
  end.

(** [a.startswith(p)], also the test behind [s[i:i+len(p)] == p]. *)
Fixpoint starts_with (p s : str) : bool :=
  match p, s with
  | [], _ => true
  | x :: p', y :: s' => N.eqb x y && starts_with p' s'
  | _ :: _, [] => false
  end.

(** [sub in s] on strings: some suffix of [s] starts with [sub]. *)
Fixpoint str_in (sub s : str) : bool :=
  starts_with sub s ||
  match s with
  | [] => false
  | _ :: s' => str_in sub s'
  end.

(** [c in s] for a one-character needle. *)
Definition char_in (c : char) (s : str) : bool := existsb (N.eqb c) s.

(** [s.split(sep, 1)[-1]] for a one-character separator: what follows the
    first separator, or the whole string when there is none. *)
Fixpoint split1_last (sep : char) (s : str) : str :=
  match s with
  | [] => []
  | c :: s' => if N.eqb c sep then s' else split1_last sep s'
  end.

Definition split_once_last (sep : char) (s : str) : str :=
  if char_in sep s then split1_last sep s else s.

(** [str.isspace] on one code point, which is also the class [\s] of [re]
    on [str] patterns. *)
Definition is_space (c : char) : bool :=
  ((9 <=? c) && (c <=? 13)) || ((28 <=? c) && (c <=? 32)) ||
  (c =? 133) || (c =? 160) || (c =? 5760) ||
  ((8192 <=? c) && (c <=? 8202)) || (c =? 8232) || (c =? 8233) ||
  (c =? 8239) || (c =? 8287) || (c =? 12288).

Fixpoint lstrip (s : str) : str :=
  match s with
  | [] => []
  | c :: s' => if is_space c then lstrip s' else s
  end.

Definition rstrip (s : str) : str := rev (lstrip (rev s)).

(** [s.strip()] *)
Definition strip (s : str) : str := rstrip (lstrip s).

(** [s.lower()] as far as a test for an ASCII keyword can observe it: the
    ASCII capitals, the Kelvin sign (which lowers to k) and the dotted
    capital I (which lowers to i followed by a combining dot) are the only
    code points whose lowering contains an ASCII letter; every other code
    point lowers to code points outside ASCII and is left in place here. *)
Definition lower_char (c : char) : str :=
  if (65 <=? c) && (c <=? 90) then [c + 32]
  else if c =? 8490 then [107]
  else if c =? 304 then [105; 775]
  else [c].

Definition lower (s : str) : str := flat_map lower_char s.

(** [sep.join(parts)] *)
Fixpoint join (sep : str) (parts : list str) : str :=
  match parts with
  | [] => []
  | [p] => p
  | p :: ps => p ++ sep ++ join sep ps
  end.

(** [s.replace(a, b)] for single characters. *)
Definition replace_char (a b : char) (s : str) : str :=
  map (fun c => if N.eqb c a then b else c) s.

(** Decimal rendering of integers, as [str(int)] and [json.dumps] give it. *)
Fixpoint digits_of_pos (fuel : nat) (n : N) (acc : str) : str :=
  match fuel with
  | O => acc
  | S f =>
      let acc' := (48 + N.modulo n 10) :: acc in
      if n <? 10 then acc' else digits_of_pos f (N.div n 10) acc'
  end.

Definition dec_of_N (n : N) : str := digits_of_pos (S (N.to_nat (N.log2 n))) n [].

Definition dec_of_Z (z : Z) : str :=
  match z with
  | Z0 => [48]
  | Zpos p => dec_of_N (Npos p)
  | Zneg p => 45 :: dec_of_N (Npos p)
  end.

(** Lower-case hexadecimal with four digits, [format(n, '04x')]. *)
Definition hex_digit (n : N) : char := if n <? 10 then 48 + n else 87 + n.

Definition hex4 (n : N) : str :=
  [hex_digit (N.modulo (N.div n 4096) 16); hex_digit (N.modulo (N.div n 256) 16);
   hex_digit (N.modulo (N.div n 16) 16); hex_digit (N.modulo n 16)].

(** ** The regular expressions of the source

    The four patterns of [_safe_json_from_text] and the one of the storing
    stage are sequences of anchors, single characters or classes, and greedy
    stars over a class.  [match_here] is the backtracking matcher of [re] on
    such sequences: it gives the length of the match that [re] finds at the
    current position. *)

Inductive atom :=
| Bol                          (* ^ without MULTILINE: position 0 only *)
| Eol                          (* $ : the end, or just before a final newline *)
| One (p : char -> bool)       (* a character or a class *)
| Many (p : char -> bool).     (* a greedy star over a class *)

Definition regex := list atom.

Fixpoint match_here (r : regex) (at0 : bool) (s : str) {struct r} : option nat :=
  match r with
  | [] => Some 0%nat
  | Bol :: r' => if at0 then match_here r' at0 s else None
  | Eol :: r' =>
      match s with
      | [] => match_here r' at0 s
      | [10] => match_here r' at0 s
      | _ => None
      end
  | One p :: r' =>
      match s with
      | c :: s' => if p c then option_map S (match_here r' false s') else None
      | [] => None
      end
  | Many p :: r' =>
      (fix many (at0 : bool) (s : str) {struct s} : option nat :=
         match s with
         | c :: s' =>
             if p c then
               match many false s' with
               | Some n => Some (S n)
               | None => match_here r' at0 s
               end
             else match_here r' at0 s
         | [] => match_here r' at0 s
         end) at0 s
  end.

(** [re.search(r, s)]: the leftmost position with a match, as offset and
    length. *)
Fixpoint search_from (r : regex) (at0 : bool) (s : str) : option (nat * nat) :=
  match match_here r at0 s with
  | Some n => Some (0%nat, n)
  | None =>
      match s with
      | [] => None
      | _ :: s' =>
          match search_from r false s' with
          | Some (i, n) => Some (S i, n)
          | None => None
          end
      end
  end.

Definition re_search (r : regex) (s : str) : option str :=
  match search_from r true s with
  | Some (i, n) => Some (firstn n (skipn i s))
  | None => None
  end.

(** [re.sub(r, "", s)]: every leftmost non-overlapping match is deleted.
    [skip] counts the characters of the current match still to delete; an
    empty match deletes nothing. *)
Fixpoint sub_from (r : regex) (at0 : bool) (skip : nat) (s : str) {struct s} : str :=
  match s with
  | [] => []
  | c :: s' =>
      match skip with
      | S k => sub_from r false k s'
      | O =>
          match match_here r at0 s with
          | Some (S n) => sub_from r false n s'
          | _ => c :: sub_from r false 0 s'
          end
      end
  end.

Definition re_sub_empty (r : regex) (s : str) : str := sub_from r true 0 s.

Definition is_chr (a : char) : char -> bool := N.eqb a.
Definition backtick : char := 96.

(** A letter under [re.IGNORECASE]: both cases, and for s also the long s
    (U+017F), which [re] folds to it. *)
Definition ci (lower upper : char) (extra : list char) : char -> bool :=
  fun c => N.eqb c lower || N.eqb c upper || existsb (N.eqb c) extra.

(** [r"^```json\s*"] with [re.IGNORECASE] *)
Definition re_fence_json : regex :=
  [Bol; One (is_chr backtick); One (is_chr backtick); One (is_chr backtick);
   One (ci 106 74 []); One (ci 115 83 [383]); One (ci 111 79 []); One (ci 110 78 []);
   Many is_space].

(** [r"^```\s*"] *)
Definition re_fence_open : regex :=
  [Bol; One (is_chr backtick); One (is_chr backtick); One (is_chr backtick);
   Many is_space].

(** [r"\s*```$"] *)
Definition re_fence_close : regex :=
  [Many is_space; One (is_chr backtick); One (is_chr backtick); One (is_chr backtick);
   Eol].

(** [r"\{.*\}"] with [re.DOTALL] *)
Definition re_braces : regex :=
  [One (is_chr 123); Many (fun _ => true); One (is_chr 125)].

(** [r"[\n\s]"] *)
Definition re_blank : regex := [One (fun c => N.eqb c 10 || is_space c)].

(** ** Python values and exceptions *)

(** The values that [json.loads] and [requests]' [.json()] produce, which
    are also the values of the inbound [body].  A float is kept as the
    lexeme it was read from. *)
Inductive pyval :=
| PNone
| PBool (b : bool)
| PInt (z : Z)
| PFloat (lexeme : str)
| PStr (s : str)
| PList (l : list pyval)
| PDict (d : list (str * pyval)).

Definition pydict := list (str * pyval).

Inductive exn_class :=
| AttributeError | KeyError | IndexError | TypeError | ValueError | JSONDecodeError
| BinasciiError | RuntimeError | ImportError | OSError | HTTPError
| ConnectionError | OtherException.

(** An exception: its class and the text [str(e)] gives. *)
Record exn := mk_exn { exn_cls : exn_class; exn_text : str }.

Inductive result (A : Type) :=
| Ok (a : A)
| Raise (e : exn).
Arguments Ok {A} a.
Arguments Raise {A} e.

Definition rbind {A B} (r : result A) (k : A -> result B) : result B :=
  match r with
  | Ok a => k a
  | Raise e => Raise e
  end.

Notation "'let?' x ':=' r 'in' k" := (rbind r (fun x => k))
  (at level 10, x pattern, r at level 100, k at level 200).

(** [try: r  except Exception: h] *)
Definition try_except {A} (r : result A) (h : exn -> result A) : result A :=
  match r with
  | Ok a => Ok a
  | Raise e => h e
  end.

Definition type_name (v : pyval) : str :=
  match v with
  | PNone => lit "NoneType"
  | PBool _ => lit "bool"
  | PInt _ => lit "int"
  | PFloat _ => lit "float"
  | PStr _ => lit "str"
  | PList _ => lit "list"
  | PDict _ => lit "dict"
  end.

Definition no_attribute (v : pyval) (attr : string) : exn :=
  mk_exn AttributeError
    (lit "'" ++ type_name v ++ lit "' object has no attribute '" ++ lit attr ++ lit "'").

(** *** Dictionaries: association lists in insertion order, one entry per key *)

Fixpoint dict_get (k : str) (d : pydict) : option pyval :=
  match d with
  | [] => None
  | (k', v) :: d' => if str_eqb k k' then Some v else dict_get k d'
  end.

(** [d[k] = v]: an existing key keeps its place. *)
Fixpoint dict_set (k : str) (v : pyval) (d : pydict) : pydict :=
  match d with
  | [] => [(k, v)]
  | (k', v') :: d' =>
      if str_eqb k k' then (k', v) :: d' else (k', v') :: dict_set k v d'
  end.

(** [dict(pairs)] *)
Definition dict_of_pairs (ps : list (str * pyval)) : pydict :=
  fold_left (fun d kv => dict_set (fst kv) (snd kv) d) ps [].

(** [k in d] *)
Definition dict_mem (k : str) (d : pydict) : bool :=
  match dict_get k d with Some _ => true | None => false end.

(** *** Truth values *)

Definition is_digit (c : char) : bool := (48 <=? c) && (c <=? 57).

(** The leading decimal digits of [s]: their value, their number, the rest. *)
Fixpoint read_digits (s : str) (acc : N) (cnt : nat) : N * nat * str :=
  match s with
  | c :: s' => if is_digit c then read_digits s' (10 * acc + (c - 48)) (S cnt)
               else (acc, cnt, s)
  | [] => (acc, cnt, s)
  end.

(** Whether a float lexeme denotes zero once rounded to binary64: its digits
    are all zero, or its value is at most [2^-1075], half the least
    subnormal, which rounds to even. *)
Definition float_is_zero (lexeme : str) : bool :=
  let s := match lexeme with 45 :: s' => s' | _ => lexeme end in
  match s with
  | c :: _ =>
      if is_digit c then
        let '(m1, _, r1) := read_digits s 0 0 in
        let '(m, nfrac, r2) :=
          match r1 with
          | 46 :: r => read_digits r m1 0
          | _ => (m1, 0%nat, r1)
          end in
        let e :=
          match r2 with
          | x :: r =>
              if (x =? 101) || (x =? 69) then
                match r with
                | 45 :: r' => let '(v, _, _) := read_digits r' 0 0 in Z.opp (Z.of_N v)
                | 43 :: r' => let '(v, _, _) := read_digits r' 0 0 in Z.of_N v
                | _ => let '(v, _, _) := read_digits r 0 0 in Z.of_N v
                end
              else 0%Z
          | [] => 0%Z
          end in
        let e10 := (e - Z.of_nat nfrac)%Z in
        (m =? 0) ||
        ((e10 <? 0)%Z && (Z.of_N m * 2 ^ 1075 <=? 10 ^ (Z.opp e10))%Z)
      else false
  | [] => false
  end.

(** [bool(v)], the test behind [if v], [not v] and [v or d]. *)
Definition truthy (v : pyval) : bool :=
  match v with
  | PNone => false
  | PBool b => b
  | PInt z => negb (Z.eqb z 0)
  | PFloat lx => negb (float_is_zero lx)
  | PStr s => match s with [] => false | _ => true end
  | PList l => match l with [] => false | _ => true end
  | PDict d => match d with [] => false | _ => true end
  end.

(** [a or b] *)
Definition py_or (a b : pyval) : pyval := if truthy a then a else b.

(** ** [json.loads]

    The decoder of the standard library, as a machine that reads one code
    point at a time: a lexical mode and a stack of the containers that are
    open.  It accepts what [json.loads] accepts with its defaults (the JSON
    grammar, the constants [NaN], [Infinity] and [-Infinity], strict
    strings) and builds the same value.  The interpreter's resource limits
    (recursion depth, digits of an integer) are not part of the model. *)

Inductive num_state :=
| NMinus | NZero | NInt | NDot | NFrac | NExp | NExpSign | NExpDigits.

Inductive str_state :=
| SPlain
| SEsc
| SHex (k : nat) (acc : N).

Inductive mode :=
| MValue                 (* a value is expected *)
| MArrFirst              (* after [ : a value or ] *)
| MArrNext               (* after an element: , or ] *)
| MObjFirst              (* after { : a key or } *)
| MObjKey                (* after , in an object: a key *)
| MColon                 (* after a key: the colon *)
| MObjNext               (* after a member: , or } *)
| MStr (is_key : bool) (acc : str) (pend : option N) (ss : str_state)
| MNum (lex : str) (ns : num_state)
| MLit (rest : str) (v : pyval)
| MDone (v : pyval)
| MFail.

Inductive frame :=
| FArr (items : list pyval)
| FObj (pairs : list (str * pyval)) (key : option str).

Definition jstate := (mode * list frame)%type.

(** The whitespace of JSON: space, tab, line feed, carriage return. *)
Definition is_jws (c : char) : bool :=
  (c =? 32) || (c =? 9) || (c =? 10) || (c =? 13).

Definition is_hex (c : char) : bool :=
  is_digit c || ((65 <=? c) && (c <=? 70)) || ((97 <=? c) && (c <=? 102)).

Definition hex_val (c : char) : N :=
  if is_digit c then c - 48 else if c <=? 70 then c - 55 else c - 87.

(** A completed value goes to the innermost open container, or ends the
    document. *)
Definition deliver (v : pyval) (stack : list frame) : jstate :=
  match stack with
  | [] => (MDone v, [])
  | FArr items :: st => (MArrNext, FArr (v :: items) :: st)
  | FObj pairs (Some k) :: st => (MObjNext, FObj ((k, v) :: pairs) None :: st)
  | FObj _ None :: _ => (MFail, stack)
  end.

Definition close_arr (stack : list frame) : jstate :=
  match stack with
  | FArr items :: st => deliver (PList (rev items)) st
  | _ => (MFail, stack)
  end.

Definition close_obj (stack : list frame) : jstate :=
  match stack with
  | FObj pairs None :: st => deliver (PDict (dict_of_pairs (rev pairs))) st
  | _ => (MFail, stack)
  end.

Definition step_value (c : char) (stack : list frame) : jstate :=
  if is_jws c then (MValue, stack)
  else if c =? 34 then (MStr false [] None SPlain, stack)
  else if c =? 123 then (MObjFirst, FObj [] None :: stack)
  else if c =? 91 then (MArrFirst, FArr [] :: stack)
  else if c =? 110 then (MLit (lit "ull") PNone, stack)
  else if c =? 116 then (MLit (lit "rue") (PBool true), stack)
  else if c =? 102 then (MLit (lit "alse") (PBool false), stack)
  else if c =? 45 then (MNum [c] NMinus, stack)
  else if c =? 48 then (MNum [c] NZero, stack)
  else if is_digit c then (MNum [c] NInt, stack)
  else if c =? 78 then (MLit (lit "aN") (PFloat (lit "NaN")), stack)
  else if c =? 73 then (MLit (lit "nfinity") (PFloat (lit "Infinity")), stack)
  else (MFail, stack).

(** What may follow a completed value. *)
Definition step_after (st : jstate) (c : char) : jstate :=
  let '(m, stack) := st in
  match m with
  | MArrNext =>
      if is_jws c then st
      else if c =? 44 then (MValue, stack)
      else if c =? 93 then close_arr stack
      else (MFail, stack)
  | MObjNext =>
      if is_jws c then st
      else if c =? 44 then (MObjKey, stack)
      else if c =? 125 then close_obj stack
      else (MFail, stack)
  | MDone _ => if is_jws c then st else (MFail, stack)
  | _ => (MFail, stack)
  end.

Definition int_of_lexeme (lx : str) : Z :=
  match lx with
  | 45 :: ds => let '(v, _, _) := read_digits ds 0 0 in Z.opp (Z.of_N v)
  | _ => let '(v, _, _) := read_digits lx 0 0 in Z.of_N v
  end.

(** [int(lexeme)] without fraction and exponent, [float(lexeme)] with. *)
Definition number_value (lex : str) (ns : num_state) : option pyval :=
  match ns with
  | NZero | NInt => Some (PInt (int_of_lexeme (rev lex)))
  | NFrac | NExpDigits => Some (PFloat (rev lex))
  | _ => None
  end.

Definition step_num (lex : str) (ns : num_state) (c : char) (stack : list frame) : jstate :=
  let more ns' := (MNum (c :: lex) ns', stack) in
  let finish :=
    match number_value lex ns with
    | Some v => step_after (deliver v stack) c
    | None => (MFail, stack)
    end in
  let is_e := (c =? 101) || (c =? 69) in
  match ns with
  | NMinus =>
      if c =? 48 then more NZero
      else if is_digit c then more NInt
      else if c =? 73 then (MLit (lit "nfinity") (PFloat (lit "-Infinity")), stack)
      else (MFail, stack)
  | NZero =>
      if c =? 46 then more NDot else if is_e then more NExp else finish
  | NInt =>
      if is_digit c then more NInt
      else if c =? 46 then more NDot else if is_e then more NExp else finish
  | NDot => if is_digit c then more NFrac else (MFail, stack)
  | NFrac =>
      if is_digit c then more NFrac else if is_e then more NExp else finish
  | NExp =>
      if is_digit c then more NExpDigits
      else if (c =? 43) || (c =? 45) then more NExpSign
      else (MFail, stack)
  | NExpSign => if is_digit c then more NExpDigits else (MFail, stack)
  | NExpDigits => if is_digit c then more NExpDigits else finish
  end.

(** The one-character escapes of a JSON string. *)
Definition unescape (c : char) : option char :=
  if c =? 34 then Some 34
  else if c =? 92 then Some 92
  else if c =? 47 then Some 47
  else if c =? 98 then Some 8
  else if c =? 102 then Some 12
  else if c =? 110 then Some 10
  else if c =? 114 then Some 13
  else if c =? 116 then Some 9
  else None.

Definition is_high (u : N) : bool := (55296 <=? u) && (u <=? 56319).
Definition is_low (u : N) : bool := (56320 <=? u) && (u <=? 57343).

Definition flush (pend : option N) (acc : str) : str :=
  match pend with
  | Some h => h :: acc
  | None => acc
  end.

Definition end_string (is_key : bool) (s : str) (stack : list frame) : jstate :=
  if is_key then
    match stack with
    | FObj pairs _ :: st => (MColon, FObj pairs (Some s) :: st)
    | _ => (MFail, stack)
    end
  else deliver (PStr s) stack.

(** Inside a string.  A high surrogate written as an escape waits in [pend]
    for a low surrogate escape to pair with; anything else releases it as it
    is. *)
Definition step_str (is_key : bool) (acc : str) (pend : option N) (ss : str_state)
    (c : char) (stack : list frame) : jstate :=
  let fresh u acc' :=
    if is_high u then (MStr is_key acc' (Some u) SPlain, stack)
    else (MStr is_key (u :: acc') None SPlain, stack) in
  match ss with
  | SPlain =>
      if c =? 34 then end_string is_key (rev (flush pend acc)) stack
      else if c =? 92 then (MStr is_key acc pend SEsc, stack)
      else if c <? 32 then (MFail, stack)
      else (MStr is_key (c :: flush pend acc) None SPlain, stack)
  | SEsc =>
      if c =? 117 then (MStr is_key acc pend (SHex 0 0), stack)
      else
        match unescape c with
        | Some ch => (MStr is_key (ch :: flush pend acc) None SPlain, stack)
        | None => (MFail, stack)
        end
  | SHex k v =>
      if is_hex c then
        let u := 16 * v + hex_val c in
        match k with
        | 3%nat =>
            match pend with
            | Some h =>
                if is_low u then
                  (MStr is_key ((65536 + ((h - 55296) * 1024 + (u - 56320))) :: acc)
                        None SPlain, stack)
                else fresh u (h :: acc)
            | None => fresh u acc
            end
        | _ => (MStr is_key acc pend (SHex (S k) u), stack)
        end
      else (MFail, stack)
  end.

Definition step (st : jstate) (c : char) : jstate :=
  let '(m, stack) := st in
  match m with
  | MValue => step_value c stack
  | MArrFirst =>
      if is_jws c then st
      else if c =? 93 then close_arr stack
      else step_value c stack
  | MObjFirst =>
      if is_jws c then st
      else if c =? 34 then (MStr true [] None SPlain, stack)
      else if c =? 125 then close_obj stack
      else (MFail, stack)
  | MObjKey =>
      if is_jws c then st
      else if c =? 34 then (MStr true [] None SPlain, stack)
      else (MFail, stack)
  | MColon =>
      if is_jws c then st
      else if c =? 58 then (MValue, stack)
      else (MFail, stack)
  | MArrNext | MObjNext | MDone _ => step_after st c
  | MStr is_key acc pend ss => step_str is_key acc pend ss c stack
  | MNum lex ns => step_num lex ns c stack
  | MLit rest v =>
      match rest with
      | x :: rest' =>
          if c =? x then
            match rest' with
            | [] => deliver v stack
            | _ => (MLit rest' v, stack)
            end
          else (MFail, stack)
      | [] => (MFail, stack)
      end
  | MFail => st
  end.

Definition json_error : exn := mk_exn JSONDecodeError (lit "Expecting value").

(** The end of the text: a complete document, or a number that the end
    completes. *)
Definition finish (st : jstate) : result pyval :=
  match st with
  | (MDone v, []) => Ok v
  | (MNum lex ns, []) =>
      match number_value lex ns with
      | Some v => Ok v
      | None => Raise json_error
      end
  | _ => Raise json_error
  end.

Definition json_run (s : str) : jstate := fold_left step s (MValue, []).

Definition json_loads (s : str) : result pyval := finish (json_run s).

(** ** The world around the pipeline

    What a run does that its caller or its collaborators can see, in the
    order in which it happens. *)

Definition bytes := list Byte.byte.

Inductive event :=
| Yield (msg : str)
| HttpPost (url : str) (payload : pyval) (timeout : N)
| S3Client (endpoint : str)
| S3PutObject (bucket key : str) (body : bytes)
| S3Presign (bucket key : str)
| Makedirs (path : str)
| WriteFile (path : str) (data : bytes).

Definition trace := list event.

(** What [requests.post] returns: the outcome of [raise_for_status()] and
    of [json()]. *)
Record response := mk_response {
  raise_for_status : result unit;
  resp_json : result pyval
}.

(** The libraries and collaborators the source calls, as functions of the
    run so far. *)
Record World := mk_world {
  float_repr : str -> str;              (* repr(float(lexeme)) *)
  str_repr : str -> str;                (* repr(s) *)
  b64decode : str -> result bytes;      (* base64.b64decode *)
  strftime_now : trace -> str;          (* datetime.now().strftime(...) *)
  environ_get : str -> option str;      (* os.environ.get *)
  http_post : trace -> result response; (* requests.post *)
  import_boto3 : result unit;           (* the imports of the S3 branch *)
  s3_client : trace -> result unit;     (* boto3.client *)
  s3_put_object : trace -> result unit;
  s3_presigned_url : trace -> result str;
  os_makedirs : trace -> result unit;
  write_file : trace -> result unit     (* open(path, "wb") and write *)
}.

(** [Pipeline.Valves] *)
Record Valves := mk_valves {
  vision_url : str;
  vision_model : str;
  gen_url : str;
  gen_model : str;
  gen_n : Z;
  gen_size : str;
  gen_response_format : str;
  use_s3 : bool;
  s3_endpoint : str;
  s3_bucket : str;
  s3_access_key : str;
  s3_secret_key : str;
  s3_public_url : str
}.

Definition default_valves : Valves :=
  {| vision_url := lit "http://localhost:11434";
     vision_model := lit "llama3.2-vision:latest";
     gen_url := lit "http://localhost:11434";
     gen_model := lit "x/flux2-klein:latest";
     gen_n := 6;
     gen_size := lit "1024x1024";
     gen_response_format := lit "b64_json";
     use_s3 := false;
     s3_endpoint := [];
     s3_bucket := lit "morphs";
     s3_access_key := [];
     s3_secret_key := [];
     s3_public_url := [] |}.

(** A generator body: it extends the trace and returns or raises. *)
Definition M (A : Type) := trace -> trace * result A.

Definition ret {A} (a : A) : M A := fun tr => (tr, Ok a).

Definition bind {A B} (m : M A) (k : A -> M B) : M B :=
  fun tr =>
    match m tr with
    | (tr', Ok a) => k a tr'
    | (tr', Raise e) => (tr', Raise e)
    end.

Definition lift {A} (r : result A) : M A := fun tr => (tr, r).

Definition emit (e : event) : M unit := fun tr => (tr ++ [e], Ok tt).

Definition yield (msg : str) : M unit := emit (Yield msg).

(** A call: it is recorded, then the world answers. *)
Definition call {A} (e : event) (oracle : trace -> result A) : M A :=
  fun tr => (tr ++ [e], oracle (tr ++ [e])).

(** [try: m  except Exception as e: h e] *)
Definition try_catch {A} (m : M A) (h : exn -> M A) : M A :=
  fun tr =>
    match m tr with
    | (tr', Ok a) => (tr', Ok a)
    | (tr', Raise e) => h e tr'
    end.

Notation "'do' x '<-' m ';' k" := (bind m (fun x => k))
  (at level 10, x pattern, m at level 100, k at level 200).
Notation "m ';;' k" := (bind m (fun _ => k))
  (at level 100, right associativity).

(** ** Rendering values as text *)

Definition quote : str := [34].
Definition nl : str := [10].

(** The escape of one code point inside a JSON string. *)
Definition json_escape (ensure_ascii : bool) (c : char) : str :=
  if c =? 34 then [92; 34]
  else if c =? 92 then [92; 92]
  else if c =? 10 then [92; 110]
  else if c =? 13 then [92; 114]
  else if c =? 9 then [92; 116]
  else if c =? 8 then [92; 98]
  else if c =? 12 then [92; 102]
  else if c <? 32 then [92; 117] ++ hex4 c
  else if ensure_ascii && (126 <? c) then
    if c <? 65536 then [92; 117] ++ hex4 c
    else
      let n := c - 65536 in
      [92; 117] ++ hex4 (N.lor 55296 (N.land (N.shiftr n 10) 1023)) ++
      [92; 117] ++ hex4 (N.lor 56320 (N.land n 1023))
  else [c].

Definition json_string (ensure_ascii : bool) (s : str) : str :=
  quote ++ flat_map (json_escape ensure_ascii) s ++ quote.

(** [json.dumps] renders the three floats that are not numbers by name. *)
Definition json_float (w : World) (lx : str) : str :=
  let r := float_repr w lx in
  if str_eqb r (lit "nan") then lit "NaN"
  else if str_eqb r (lit "inf") then lit "Infinity"
  else if str_eqb r (lit "-inf") then lit "-Infinity"
  else r.

(** [json.dumps(v, ensure_ascii=...)] with the default separators; members
    in the order of the dictionary. *)
Fixpoint json_dumps (w : World) (ensure_ascii : bool) (v : pyval) : str :=
  match v with
  | PNone => lit "null"
  | PBool true => lit "true"
  | PBool false => lit "false"
  | PInt z => dec_of_Z z
  | PFloat lx => json_float w lx
  | PStr s => json_string ensure_ascii s
  | PList l => lit "[" ++ join (lit ", ") (map (json_dumps w ensure_ascii) l) ++ lit "]"
  | PDict d =>
      lit "{" ++
      join (lit ", ")
        (map (fun kv => json_string ensure_ascii (fst kv) ++ lit ": " ++
                        json_dumps w ensure_ascii (snd kv)) d) ++
      lit "}"
  end.

(** [repr(v)] *)
Fixpoint py_repr (w : World) (v : pyval) : str :=
  match v with
  | PNone => lit "None"
  | PBool true => lit "True"
  | PBool false => lit "False"
  | PInt z => dec_of_Z z
  | PFloat lx => float_repr w lx
  | PStr s => str_repr w s
  | PList l => lit "[" ++ join (lit ", ") (map (py_repr w) l) ++ lit "]"
  | PDict d =>
      lit "{" ++
      join (lit ", ")
        (map (fun kv => str_repr w (fst kv) ++ lit ": " ++ py_repr w (snd kv)) d) ++
      lit "}"
  end.

(** [str(v)], which is also what an f-string puts for [{v}]. *)
Definition py_str (w : World) (v : pyval) : str :=
  match v with
  | PStr s => s
  | _ => py_repr w v
  end.

(** ** Operations of the interpreter the source relies on *)

Definition not_subscriptable (v : pyval) : exn :=
  mk_exn TypeError (lit "'" ++ type_name v ++ lit "' object is not subscriptable").

Definition key_error (k : string) : exn :=
  mk_exn KeyError (lit "'" ++ lit k ++ lit "'").

(** [v.get(k, default)]: only a dictionary has the method. *)
Definition py_get (v : pyval) (k : string) (default : pyval) : result pyval :=
  match v with
  | PDict d =>
      Ok match dict_get (lit k) d with
         | Some x => x
         | None => default
         end
  | _ => Raise (no_attribute v "get")
  end.

(** [v[k]] with a string key. *)
Definition py_getitem (v : pyval) (k : string) : result pyval :=
  match v with
  | PDict d =>
      match dict_get (lit k) d with
      | Some x => Ok x
      | None => Raise (key_error k)
      end
  | PStr _ => Raise (mk_exn TypeError (lit "string indices must be integers, not 'str'"))
  | PList _ =>
      Raise (mk_exn TypeError (lit "list indices must be integers or slices, not str"))
  | _ => Raise (not_subscriptable v)
  end.

(** [v[-1]] *)
Definition py_last (v : pyval) : result pyval :=
  match v with
  | PList l =>
      match rev l with
      | x :: _ => Ok x
      | [] => Raise (mk_exn IndexError (lit "list index out of range"))
      end
  | PStr s =>
      match rev s with
      | c :: _ => Ok (PStr [c])
      | [] => Raise (mk_exn IndexError (lit "string index out of range"))
      end
  | PDict _ => Raise (mk_exn KeyError (lit "-1"))
  | _ => Raise (not_subscriptable v)
  end.

(** [k in v] with a string [k]. *)
Definition py_contains (k : string) (v : pyval) : result bool :=
  match v with
  | PDict d => Ok (dict_mem (lit k) d)
  | PStr s => Ok (str_in (lit k) s)
  | PList l =>
      Ok (existsb (fun x => match x with PStr s => str_eqb s (lit k) | _ => false end) l)
  | _ => Raise (mk_exn TypeError
                  (lit "argument of type '" ++ type_name v ++ lit "' is not iterable"))
  end.

(** [v == k] with a string [k]. *)
Definition py_eq_str (v : pyval) (k : string) : bool :=
  match v with
  | PStr s => str_eqb s (lit k)
  | _ => false
  end.

(** [v.strip()] *)
Definition py_strip (v : pyval) : result str :=
  match v with
  | PStr s => Ok (strip s)
  | _ => Raise (no_attribute v "strip")
  end.

(** [len(v)] *)
Definition py_len (v : pyval) : result nat :=
  match v with
  | PList l => Ok (List.length l)
  | PStr s => Ok (List.length s)
  | PDict d => Ok (List.length d)
  | _ => Raise (mk_exn TypeError
                  (lit "object of type '" ++ type_name v ++ lit "' has no len()"))
  end.

(** What a [for] loop over [v] visits. *)
Definition py_iter (v : pyval) : result (list pyval) :=
  match v with
  | PList l => Ok l
  | PStr s => Ok (map (fun c => PStr [c]) s)
  | PDict d => Ok (map (fun kv => PStr (fst kv)) d)
  | _ => Raise (mk_exn TypeError
                  (lit "'" ++ type_name v ++ lit "' object is not iterable"))
  end.

(** [v[:2]] *)
Definition py_first_two (v : pyval) : result pyval :=
  match v with
  | PList l => Ok (PList (firstn 2 l))
  | PStr s => Ok (PStr (firstn 2 s))
  | PDict _ => Raise (mk_exn TypeError (lit "unhashable type: 'slice'"))
  | _ => Raise (not_subscriptable v)
  end.

(** ** The helpers of [Pipeline] *)

(** The loop that gathers the text items of a content list. *)
Fixpoint collect_text (items : list pyval) (acc : str) : result str :=
  match items with
  | [] => Ok acc
  | item :: rest =>
      let? ty := py_get item "type" PNone in
      if py_eq_str ty "text" then
        let? t := py_get item "text" (PStr []) in
        match t with
        | PStr s => collect_text rest (acc ++ s)
        | _ => Raise (mk_exn TypeError
                        (lit "can only concatenate str (not " ++ quote ++ type_name t ++
                         quote ++ lit ") to str"))
        end
      else collect_text rest acc
  end.

(** The loop that gathers the [image_url] items of a content list. *)
Fixpoint collect_images (items : list pyval) (acc : list pyval) : result (list pyval) :=
  match items with
  | [] => Ok acc
  | item :: rest =>
      let? ty := py_get item "type" PNone in
      if py_eq_str ty "image_url" then
        let? iu := py_getitem item "image_url" in
        let? u := py_getitem iu "url" in
        collect_images rest (acc ++ [PDict [(lit "url", u)]])
      else collect_images rest acc
  end.

(** The text of the latest message: the [# Text] block of the extractor. *)
Definition instruction_of (content : pyval) : result pyval :=
  match content with
  | PList items => let? s := collect_text items [] in Ok (PStr s)
  | _ => Ok (py_or content (PStr []))
  end.

(** The images of the latest message: the [# Images] block. *)
Definition images_of (last_msg content : pyval) : result pyval :=
  let? has_images := py_contains "images" last_msg in
  if has_images then
    let? x := py_getitem last_msg "images" in Ok (py_or x (PList []))
  else
    match content with
    | PList items => let? l := collect_images items [] in Ok (PList l)
    | _ => Ok (PList [])
    end.

Definition _extract_user_instruction_and_images (body : pyval) : result (str * pyval) :=
  let? messages := py_get body "messages" (PList []) in
  if negb (truthy messages) then Ok ([], PList [])
  else
    let? last_msg := py_last messages in
    let? content := py_get last_msg "content" (PStr []) in
    let? user_instruction := instruction_of content in
    let? images := images_of last_msg content in
    let? u := py_strip user_instruction in
    Ok (u, images).

Definition comma : char := 44.

Definition _to_b64_payload (w : World) (img_url_or_b64 : pyval) : str :=
  let s := py_str w img_url_or_b64 in
  if char_in comma s && str_in (lit "base64") (firstn 60 s)
  then split_once_last comma s
  else s.

(** The three fence removals, each followed by [strip()]. *)
Definition remove_fences (t : str) : str :=
  let t := strip (re_sub_empty re_fence_json t) in
  let t := strip (re_sub_empty re_fence_open t) in
  strip (re_sub_empty re_fence_close t).

Definition raw_key : str := lit "raw".

Definition _safe_json_from_text (text : pyval) : result pyval :=
  let? t := py_strip (py_or text (PStr [])) in
  let t := remove_fences t in
  (* Try direct parse *)
  try_except (json_loads t) (fun _ =>
    (* Try to extract first {...} block *)
    let fallback := Ok (PDict [(raw_key, PStr t)]) in
    match re_search re_braces t with
    | Some m => try_except (json_loads m) (fun _ => fallback)
    | None => fallback
    end).

Definition any_in (words : list string) (s : str) : bool :=
  existsb (fun wd => str_in (lit wd) s) words.

Definition _detect_subject_type (user_instruction : str) : str :=
  let s := lower user_instruction in
  if any_in ["baby"; "infant"; "child"; "kid"; "teen"; "adult"; "person"; "portrait"]%string s
  then lit "a person"
  else if any_in ["dog"; "cat"; "pet"; "animal"; "horse"; "bird"]%string s
  then lit "an animal"
  else if any_in ["landscape"; "scene"; "city"; "interior"; "exterior"]%string s
  then lit "a scene"
  else lit "a subject".

Definition keys_order : list str :=
  [lit "primary_subject"; lit "color_palette"; lit "dominant_textures";
   lit "scene_type"; lit "lighting"; lit "composition"; lit "notable_features";
   lit "style"].

(** One pass of the loop over [keys_order]: the segment of [k], if any. *)
Definition trait_part (w : World) (d : pydict) (k : str) : list str :=
  match dict_get k d with
  | Some v =>
      if truthy v then [replace_char 95 32 k ++ lit ": " ++ py_str w v] else []
  | None => []
  end.

(** The result is the value of [traits["raw"]] in the fallback form, which
    is whatever the mapping holds there, and a string otherwise. *)
Definition _traits_to_compact_line (w : World) (traits : pyval) : pyval :=
  match traits with
  | PDict d =>
      let ordered :=
        match flat_map (trait_part w d) keys_order with
        | [] => PStr (json_dumps w false traits)
        | parts => PStr (join (lit "; ") parts)
        end in
      match dict_get raw_key d with
      | Some r => if Nat.eqb (List.length d) 1 then r else ordered
      | None => ordered
      end
  | _ => PStr (py_str w traits)
  end.

(** [os.path.join(a, b)] on POSIX. *)
Definition path_join (a b : str) : str :=
  if starts_with (lit "/") b then b
  else
    match rev a with
    | [] => b
    | c :: _ => if c =? 47 then a ++ b else a ++ lit "/" ++ b
    end.

(** [os.environ.get(k, default)] *)
Definition env_or (w : World) (k default : string) : str :=
  match environ_get w (lit k) with
  | Some v => v
  | None => lit default
  end.

Definition _store_image_bytes (w : World) (valves : Valves)
    (image_data : bytes) (filename : str) : M str :=
  if use_s3 valves then
    try_catch
      (lift (import_boto3 w) ;;
       let endpoint := s3_endpoint valves in
       let endpoint :=
         if starts_with (lit "http") endpoint then endpoint
         else lit "http://" ++ endpoint in
       call (S3Client endpoint) (s3_client w) ;;
       call (S3PutObject (s3_bucket valves) filename image_data) (s3_put_object w) ;;
       if truthy (PStr (s3_public_url valves))
       then ret (s3_public_url valves ++ lit "/" ++ filename)
       else call (S3Presign (s3_bucket valves) filename) (s3_presigned_url w))
      (fun e =>
         match exn_cls e with
         | ImportError =>
             lift (Raise (mk_exn RuntimeError
                            (lit "boto3 not installed. Install with: pip install boto3")))
         | _ =>
             lift (Raise (mk_exn RuntimeError (lit "S3 upload error: " ++ exn_text e)))
         end)
  else
    (* Local static *)
    let static_dir := env_or w "PIPELINES_STATIC_DIR" "/app/static" in
    let morphs_dir := path_join static_dir (lit "morphs") in
    call (Makedirs morphs_dir) (os_makedirs w) ;;
    let filepath := path_join morphs_dir filename in
    call (WriteFile filepath image_data) (write_file w) ;;
    let static_server_url := env_or w "STATIC_SERVER_URL" "http://localhost:9099" in
    ret (static_server_url ++ lit "/morphs/" ++ filename).

(** ** The main pipeline *)

(** A literal of the source that contains double quotes, written here with
    apostrophes in their place. *)
Definition dq (s : string) : str := replace_char 39 34 (lit s).

Definition vision_prompt : str :=
  lit "Return ONLY valid JSON (no markdown) describing visible traits and attributes in the image." ++ nl ++
  lit "Keys: primary_subject, color_palette, dominant_textures, scene_type, lighting, composition, notable_features, style." ++ nl ++
  lit "Keep each value short (1-8 words). No opinions, avoid stylistic instructions." ++ nl ++ nl ++
  lit "Example response:" ++ nl ++
  dq "{'primary_subject': 'cat', 'color_palette': 'warm browns and creams', 'dominant_textures': 'soft fur', 'scene_type': 'indoor close-up', " ++
  dq "'lighting': 'soft window light', 'composition': 'centered, tight crop', 'notable_features': 'one ear slightly bent', 'style': 'photorealistic'}".

Definition insufficient_input : str := lit "Please upload two images to morph.".

Definition dec_of_nat (n : nat) : str := dec_of_Z (Z.of_nat n).

(** One pass of the loop of phase 1. *)
Definition analyze (w : World) (valves : Valves) (i : nat) (img : pyval) : M pyval :=
  yield (lit "STAGED: Analyzing image " ++ dec_of_nat (i + 1) ++ lit "...") ;;
  do img_url <- lift match img with
                     | PDict _ => py_get img "url" (PStr [])
                     | _ => Ok img
                     end;
  let img_b64 := _to_b64_payload w img_url in
  do r <- call (HttpPost (vision_url valves ++ lit "/api/chat")
                  (PDict [(lit "model", PStr (vision_model valves));
                          (lit "messages",
                           PList [PDict [(lit "role", PStr (lit "user"));
                                         (lit "content", PStr vision_prompt);
                                         (lit "images", PList [PStr img_b64])]]);
                          (lit "stream", PBool false)])
                  300)
             (http_post w);
  do resp <- lift (resp_json r);
  do message <- lift (py_get resp "message" PNone);
  do text <- lift (py_get (py_or message (PDict [])) "content" (PStr []));
  lift (_safe_json_from_text text).

Fixpoint analyze_all (w : World) (valves : Valves) (i : nat) (imgs : list pyval)
    (traits : list pyval) : M (list pyval) :=
  match imgs with
  | [] => ret traits
  | img :: rest =>
      do t <- analyze w valves i img;
      analyze_all w valves (S i) rest (traits ++ [t])
  end.

(** [traits[i]] *)
Definition py_nth (l : list pyval) (i : nat) : result pyval :=
  match nth_error l i with
  | Some v => Ok v
  | None => Raise (mk_exn IndexError (lit "list index out of range"))
  end.

Definition morph_prompt_of (w : World) (p1 p2 : pyval) (user_instruction : str) : str :=
  let morph_prompt :=
    lit "Photorealistic RAW image of the subject. " ++
    lit "Composite of attributes from both input images." ++ nl ++
    lit "Image 1 traits: " ++ py_str w p1 ++ nl ++
    lit "Image 2 traits: " ++ py_str w p2 ++ nl ++
    lit "Combine colors, textures, shapes, and composition elements naturally. " ++
    lit "Preserve realistic materials, proportions, and lighting appropriate to the subject and scene. " ++
    lit "Neutral background unless the scene suggests otherwise, natural lighting, accurate depth of field, and subtle film grain for realism. " ++
    lit "Avoid CGI, 3D renderings, illustrations, or obviously synthetic artifacts." in
  (* Allow user instruction, but keep it clearly separated and short *)
  if truthy (PStr user_instruction) && (2 <? List.length user_instruction)%nat
  then morph_prompt ++ nl ++ lit "User preferences: " ++ user_instruction
  else morph_prompt.

(** [f"{idx:02d}"] *)
Definition pad2 (idx : nat) : str :=
  if (idx <? 10)%nat then lit "0" ++ dec_of_nat idx else dec_of_nat idx.

(** The loop of phase 4 over [enumerate(data_list, start=1)]. *)
Fixpoint store_all (w : World) (valves : Valves) (timestamp : str) (idx : nat)
    (items : list pyval) (out_links : list pyval) : M (list pyval) :=
  match items with
  | [] => ret out_links
  | item :: rest =>
      do b64 <- lift (py_get item "b64_json" PNone);
      if negb (truthy b64) then
        (* Some servers might return {url: ...} instead; handle minimally *)
        do url <- lift (py_get item "url" PNone);
        store_all w valves timestamp (S idx) rest
          (if truthy url then out_links ++ [url] else out_links)
      else
        do cleaned <- lift match b64 with
                           | PStr s => Ok (re_sub_empty re_blank s)
                           | _ => Raise (mk_exn TypeError
                                           (lit "expected string or bytes-like object, got '" ++
                                            type_name b64 ++ lit "'"))
                           end;
        do image_bytes <- lift (b64decode w cleaned);
        let filename := lit "morph_" ++ timestamp ++ lit "_" ++ pad2 idx ++ lit ".png" in
        do url <- _store_image_bytes w valves image_bytes filename;
        store_all w valves timestamp (S idx) rest (out_links ++ [PStr url])
  end.

Fixpoint candidate_lines (w : World) (i : nat) (out_links : list pyval) : list str :=
  match out_links with
  | [] => []
  | url :: rest =>
      (lit "Candidate " ++ dec_of_nat i ++ lit ":" ++ nl ++ nl ++
       lit "![](" ++ py_str w url ++ lit ")" ++ nl)
      :: candidate_lines w (S i) rest
  end.

(** The gallery of the final message. *)
Definition gallery (w : World) (valves : Valves) (morph_prompt : str)
    (out_links : list pyval) : str :=
  join nl
    ([nl ++ nl ++ lit "### Morph Results (multiple candidates)" ++ nl;
      lit "Model: `" ++ gen_model valves ++ lit "`  " ++ nl ++
      lit "Size: `" ++ gen_size valves ++ lit "`  " ++ nl ++
      lit "Count: `" ++ dec_of_nat (List.length out_links) ++ lit "`" ++ nl;
      lit "Prompt used (compact):" ++ nl;
      lit "```text" ++ nl ++ morph_prompt ++ nl ++ lit "```" ++ nl]
     ++ candidate_lines w 1 out_links).

Definition storage_failure : str := lit "Error: Could not decode/store generated images.".

(** Phases 1 to 3 of the [try] of [pipe]: the prompt, the response of the
    generation service and its list of candidates. *)
Definition prepare (w : World) (valves : Valves) (user_instruction : str)
    (images : pyval) : M (str * pyval * pyval) :=
  (* ---- Phase 1: vision -> compact JSON traits ---- *)
  do first_two <- lift (py_first_two images);
  do imgs <- lift (py_iter first_two);
  do traits <- analyze_all w valves 0 imgs [];
  do t0 <- lift (py_nth traits 0);
  let p1 := _traits_to_compact_line w t0 in
  do t1 <- lift (py_nth traits 1);
  let p2 := _traits_to_compact_line w t1 in
  (* ---- Phase 2: short, photo-biased prompt ---- *)
  let subject_type := _detect_subject_type user_instruction in
  let morph_prompt := morph_prompt_of w p1 p2 user_instruction in
  yield (lit "STAGED: Generating candidates...") ;;
  (* ---- Phase 3: OpenAI-compatible images generation ---- *)
  let payload :=
    PDict [(lit "model", PStr (gen_model valves));
           (lit "prompt", PStr morph_prompt);
           (lit "n", PInt (gen_n valves));
           (lit "size", PStr (gen_size valves));
           (lit "response_format", PStr (gen_response_format valves))] in
  do r <- call (HttpPost (gen_url valves ++ lit "/v1/images/generations") payload 600)
             (http_post w);
  lift (raise_for_status r) ;;
  do gen_resp <- lift (resp_json r);
  do data <- lift (py_get gen_resp "data" PNone);
  ret (morph_prompt, gen_resp, py_or data (PList [])).

Definition saving : str := lit "STAGED: Saving results...".

(** [datetime.now().strftime("%Y%m%d_%H%M%S_%f")] *)
Definition now (w : World) : M str := fun tr => (tr, Ok (strftime_now w tr)).

(** Phase 4: store + display all candidates. *)
Definition storing (w : World) (valves : Valves) (morph_prompt : str)
    (data_list : pyval) : M unit :=
  yield saving ;;
  do timestamp <- now w;
  do items <- lift (py_iter data_list);
  do out_links <- store_all w valves timestamp 1 items [];
  match out_links with
  | [] => yield storage_failure
  | _ => yield (gallery w valves morph_prompt out_links)
  end.

(** The body of the [try] of [pipe]. *)
Definition stages (w : World) (valves : Valves) (user_instruction : str)
    (images : pyval) : M unit :=
  do pd <- prepare w valves user_instruction images;
  let '(morph_prompt, gen_resp, data_list) := pd in
  if negb (truthy data_list) then
    yield (lit "Error: No images returned. Raw response: " ++
           firstn 1200 (json_dumps w true gen_resp))
  else storing w valves morph_prompt data_list.

Definition pipeline_error (e : exn) : str := nl ++ lit "Pipeline error: " ++ exn_text e.

Definition pipe (w : World) (valves : Valves) (body : pyval) : M unit :=
  do ui <- lift (_extract_user_instruction_and_images body);
  let '(user_instruction, images) := ui in
  do n <- lift (py_len images);
  if (n <? 2)%nat then yield insufficient_input
  else
    try_catch (stages w valves user_instruction images)
      (fun e => yield (pipeline_error e)).

(** A run from the start: what was yielded and called, and how it ended. *)
Definition run_pipe (w : World) (valves : Valves) (body : pyval) : trace * result unit :=
  pipe w valves body [].

(** ** Reading a trace *)

(** The messages a run yielded, in order. *)
Fixpoint yielded (tr : trace) : list str :=
  match tr with
  | [] => []
  | Yield m :: tr' => m :: yielded tr'
  | _ :: tr' => yielded tr'
  end.

(** The files and objects a run wrote, in order. *)
Fixpoint stored (tr : trace) : list str :=
  match tr with
  | [] => []
  | WriteFile path _ :: tr' => path :: stored tr'
  | S3PutObject _ key _ :: tr' => key :: stored tr'
  | _ :: tr' => stored tr'
  end.

(** A candidate that carries neither an inline payload nor a URL. *)
Definition carries_nothing (item : pyval) : bool :=
  match py_get item "b64_json" PNone, py_get item "url" PNone with
  | Ok b, Ok u => negb (truthy b) && negb (truthy u)
  | _, _ => false
  end.

(** The candidates the storing loop does not skip. *)
Definition usable (items : list pyval) : list pyval :=
  filter (fun item => negb (carries_nothing item)) items.

(** ** The vocabulary of the trait compactor's specification *)

(** A TraitSet seen as a mapping from keys to free-text values. *)
Definition traitset := str -> option str.

(** The dictionary [d] holds the vocabulary keys of [m] with their values,
    whatever the order of its entries and whatever else it holds. *)
Definition represents (d : pydict) (m : traitset) : Prop :=
  forall k, In k keys_order -> dict_get k d = option_map PStr (m k).

(** The fallback form: exactly the single key [raw]. *)
Definition fallback_form (d : pydict) : Prop := exists r, d = [(raw_key, r)].

(** The segment of one key. *)
Definition segment (k v : str) : str := replace_char 95 32 k ++ lit ": " ++ v.

(** The segments of the keys that are present with a non-empty value, in
    the order of the vocabulary. *)
Definition segments_of (m : traitset) (keys : list str) : list str :=
  flat_map (fun k => match m k with
                     | Some (c :: v) => [segment k (c :: v)]
                     | _ => []
                     end) keys.

Definition canonical_line (m : traitset) : str :=
  join (lit "; ") (segments_of m keys_order).

(** No vocabulary key is present with a truthy value. *)
Definition no_traits (d : pydict) : Prop :=
  forall k v, In k keys_order -> dict_get k d = Some v -> truthy v = false.

(** The same keys with the same values, in any order. *)
Definition same_items (d1 d2 : pydict) : Prop :=
  forall k, dict_get k d1 = dict_get k d2.

(** ** The vocabulary of the adapter's and the normalizer's specifications,
       and what their proofs speak of *)

(** [sub] occurs in [s] as a contiguous block. *)
Definition occurs (sub s : str) : Prop := exists pre post, s = pre ++ sub ++ post.

(** The test of the source, as a proposition: [s] has a comma, and
    ["base64"] lies within its first 60 characters. *)
Definition data_url_like (s : str) : Prop :=
  In comma s /\ occurs (lit "base64") (firstn 60 s).

Definition all_space (ws : str) : Prop := Forall (fun c => is_space c = true) ws.

(** A text with no whitespace at either end. *)
Definition trimmed (u : str) : Prop := lstrip u = u /\ lstrip (rev u) = rev u.

(** The greedy star of [match_here], on its own. *)
Fixpoint many_then (p : char -> bool) (k : bool -> str -> option nat)
    (at0 : bool) (s : str) : option nat :=
  match s with
  | c :: s' =>
      if p c then
        match many_then p k false s' with
        | Some n => Some (S n)
        | None => k at0 s
        end
      else k at0 s
  | [] => k at0 s
  end.

(** The leading characters of [s] in the class [p]. *)
Fixpoint span_len (p : char -> bool) (s : str) : nat :=
  match s with
  | c :: s' => if p c then S (span_len p s') else 0
  | [] => 0
  end.

Definition fence : str := lit "```".

(** The tag [json] in any case. *)
Definition json_tag (tag : str) : bool :=
  match tag with
  | [a; b; c; d] => ci 106 74 [] a && ci 115 83 [383] b && ci 111 79 [] c && ci 110 78 [] d
  | _ => false
  end.

Definition re_close_tail : regex :=
  [One (is_chr backtick); One (is_chr backtick); One (is_chr backtick); Eol].

(** No whitespace at the end. *)
Definition ends_clean (body : str) : Prop :=
  forall pre c, body = pre ++ [c] -> is_space c = false.

(** [s.endswith(p)] *)
Definition ends_with (p s : str) : bool := starts_with (rev p) (rev s).

(** A code point that no JSON token contains outside a string: whitespace
    of [str.strip], or a backtick. *)
Definition inert (c : char) : Prop := is_space c = true \/ c = 96.

Definition alpha (c : char) : bool :=
  ((65 <=? c) && (c <=? 90)) || ((97 <=? c) && (c <=? 122)).

(** Every literal being matched is made of letters. *)
Definition mode_ok (m : mode) : Prop :=
  match m with
  | MLit rest _ => forallb alpha rest = true
  | _ => True
  end.

(** The outermost open container is an object. *)
Fixpoint bottom_obj (stack : list frame) : bool :=
  match stack with
  | [] => false
  | f :: st =>
      match st with
      | [] => match f with FObj _ _ => true | FArr _ => false end
      | _ :: _ => bottom_obj st
      end
  end.

Definition in_object (st : jstate) : Prop :=
  fst st = MFail \/ bottom_obj (snd st) = true \/
  (snd st = [] /\ exists d, fst st = MDone (PDict d)).

(** The fallback object of the normalizer. *)
Definition raw_of (t : str) : pyval := PDict [(raw_key, PStr t)].

(** The normalizer's two decoding attempts on [t] both fail. *)
Definition attempts_fail (t : str) : Prop :=
  (forall v, json_loads t <> Ok v) /\
  (forall m v, re_search re_braces t = Some m -> json_loads m <> Ok v).

(** A mapping whose keys all belong to the vocabulary, or the fallback
    form. *)
Definition vocabulary_or_raw (v : pyval) : Prop :=
  exists d, v = PDict d /\
            ((forall k x, In (k, x) d -> In k keys_order) \/ fallback_form d).

(** [t] in a fenced block: the opening fence and its tag, whitespace [a],
    the text, whitespace [b], the closing fence. *)
Definition fenced (tag a t b : str) : str := fence ++ tag ++ a ++ t ++ b ++ fence.

(** [t] opens with a tagged fence: three backticks and [json] in any
    case. *)
Definition opens_tagged (t : str) : bool :=
  starts_with fence t && json_tag (firstn 4 (skipn 3 t)).

(** The text without its fence markers, in plain operations on text: the
    opening marker with its tag is dropped, then an opening marker, then the
    closing marker, and the text is trimmed after each. *)
Definition unfenced (t : str) : str :=
  let t := strip (if opens_tagged t then skipn 7 t else t) in
  let t := strip (if starts_with fence t then skipn 3 t else t) in
  strip (if ends_with fence t then firstn (List.length t - 3) t else t).

(** ** The vocabulary of the further properties *)

(** What [img] gives as its reference in the loop of phase 1:
    [img.get("url", "") if isinstance(img, dict) else img]. *)
Definition image_ref (img : pyval) : pyval :=
  match img with
  | PDict d =>
      match dict_get (lit "url") d with
      | Some x => x
      | None => PStr []
      end
  | _ => img
  end.

(** The request of one vision call. *)
Definition vision_request (w : World) (valves : Valves) (img : pyval) : event :=
  HttpPost (vision_url valves ++ lit "/api/chat")
    (PDict [(lit "model", PStr (vision_model valves));
            (lit "messages",
             PList [PDict [(lit "role", PStr (lit "user"));
                           (lit "content", PStr vision_prompt);
                           (lit "images", PList [PStr (_to_b64_payload w (image_ref img))])]]);
            (lit "stream", PBool false)])
    300.

(** The request of the generation call. *)
Definition generation_request (valves : Valves) (morph_prompt : str) : event :=
  HttpPost (gen_url valves ++ lit "/v1/images/generations")
    (PDict [(lit "model", PStr (gen_model valves));
            (lit "prompt", PStr morph_prompt);
            (lit "n", PInt (gen_n valves));
            (lit "size", PStr (gen_size valves));
            (lit "response_format", PStr (gen_response_format valves))])
    600.

Definition analyzing (i : nat) : str :=
  lit "STAGED: Analyzing image " ++ dec_of_nat i ++ lit "...".

Definition generating : str := lit "STAGED: Generating candidates...".

Definition no_images_returned (w : World) (gen_resp : pyval) : str :=
  lit "Error: No images returned. Raw response: " ++
  firstn 1200 (json_dumps w true gen_resp).

(** A computation that writes nothing. *)
Definition quiet {A} (m : M A) : Prop :=
  forall tr tr' r, m tr = (tr', r) -> stored tr' = stored tr.

(** A candidate without an inline payload. *)
Definition no_payload (item : pyval) : bool :=
  match py_get item "b64_json" PNone with
  | Ok b => negb (truthy b)
  | Raise _ => false
  end.

(** The URLs that candidates carry themselves, in order. *)
Definition direct_links (items : list pyval) : list pyval :=
  flat_map (fun item =>
              match py_get item "url" PNone with
              | Ok u => if truthy u then [u] else []
              | Raise _ => []
              end) items.

(** The events of the two storage backends. *)
Definition backend_event (s3 : bool) (e : event) : bool :=
  match e with
  | S3Client _ | S3PutObject _ _ _ | S3Presign _ _ => s3
  | Makedirs _ | WriteFile _ _ => negb s3
  | _ => false
  end.

(** The directory of the local backend. *)
Definition morphs_dir (w : World) : str :=
  path_join (env_or w "PIPELINES_STATIC_DIR" "/app/static") (lit "morphs").

(** The endpoint handed to [boto3.client]. *)
Definition s3_endpoint_url (valves : Valves) : str :=
  if starts_with (lit "http") (s3_endpoint valves) then s3_endpoint valves
  else lit "http://" ++ s3_endpoint valves.

(** The name under which candidate [idx] is stored. *)
Definition candidate_filename (timestamp : str) (idx : nat) : str :=
  lit "morph_" ++ timestamp ++ lit "_" ++ pad2 idx ++ lit ".png".

(** Where a store puts a file of a given name: the key of the object, or
    the path of the file. *)
Definition store_target (w : World) (valves : Valves) (filename : str) : str :=
  if use_s3 valves then filename else path_join (morphs_dir w) filename.

(** The number that a string of decimal digits denotes, after [a]. *)
Definition digits_value (a : N) (s : str) : N :=
  fold_left (fun a c => 10 * a + (c - 48)) s a.

(** An item of a content list that the image loop takes. *)
Definition is_image_item (item : pyval) : bool :=
  match py_get item "type" PNone with
  | Ok ty => py_eq_str ty "image_url"
  | Raise _ => false
  end.

(** [item["image_url"]["url"]], where it exists. *)
Definition item_url (item : pyval) : pyval :=
  match py_getitem item "image_url" with
  | Ok iu =>
      match py_getitem iu "url" with
      | Ok u => u
      | Raise _ => PNone
      end
  | Raise _ => PNone
  end.

(** The images of a content list: one [{"url": ...}] per image item. *)
Definition content_images (items : list pyval) : list pyval :=
  map (fun item => PDict [(lit "url", item_url item)]) (filter is_image_item items).

(** The closing brace, as a pattern. *)
Definition re_close_brace : regex := [One (is_chr 125)].

(** A candidate whose decode step cannot raise in [w]: a mapping whose
    [b64_json], when truthy, is a string that [b64decode] accepts once its
    whitespace is removed. *)
Definition decodable (w : World) (item : pyval) : bool :=
  match item with
  | PDict d =>
      match dict_get (lit "b64_json") d with
      | Some b =>
          negb (truthy b) ||
          match b with
          | PStr s =>
              match b64decode w (re_sub_empty re_blank s) with
              | Ok _ => true
              | Raise _ => false
              end
          | _ => false
          end
      | None => true
      end
  | _ => false
  end.

(** The link that a candidate gives to the gallery: its own URL when it has
    no payload, the URL of a stored file otherwise. *)
Definition link_of (item link : pyval) : Prop :=
  if no_payload item then py_get item "url" PNone = Ok link
  else exists url, link = PStr url.

(** Where the candidates that carry a payload are stored, the first
    candidate being number [idx]. *)
Fixpoint payload_targets (w : World) (valves : Valves) (ts : str) (idx : nat)
    (items : list pyval) : list str :=
  match items with
  | [] => []
  | item :: rest =>
      (if no_payload item then []
       else [store_target w valves (candidate_filename ts idx)])
      ++ payload_targets w valves ts (S idx) rest
  end.

(** ** Sample worlds and requests *)

(** [repr] of a string of printable ASCII without quotes or backslashes. *)
Definition plain_repr (s : str) : str := lit "'" ++ s ++ lit "'".

Definition connection_refused : exn := mk_exn ConnectionError (lit "Connection refused").

(** A world in which no collaborator can be reached. *)
Definition offline_world : World :=
  {| float_repr := fun lx => lx;
     str_repr := plain_repr;
     b64decode := fun _ => Raise (mk_exn BinasciiError (lit "Incorrect padding"));
     strftime_now := fun _ => lit "20260206_101500_000000";
     environ_get := fun _ => None;
     http_post := fun _ => Raise connection_refused;
     import_boto3 := Raise (mk_exn ImportError (lit "No module named 'boto3'"));
     s3_client := fun _ => Raise connection_refused;
     s3_put_object := fun _ => Raise connection_refused;
     s3_presigned_url := fun _ => Raise connection_refused;
     os_makedirs := fun _ => Raise (mk_exn OSError (lit "Read-only file system"));
     write_file := fun _ => Raise (mk_exn OSError (lit "Read-only file system")) |}.

(** What the vision service answers in the sample world: the traits of a
    cat, in a fenced block. *)
Definition cat_answer : pyval :=
  PDict [(lit "message",
          PDict [(lit "role", PStr (lit "assistant"));
                 (lit "content",
                  PStr (lit "```json" ++ nl ++
                        dq "{'primary_subject': 'cat', 'color_palette': 'brown'}" ++ nl ++
                        lit "```"))])].

(** A world with a working vision service, a generation service that
    answers [gen_answer], and working local storage.  Its [b64decode] is
    that of the library on the two payloads used below: [QUJD] is [ABC], and
    [QUJ] has incorrect padding. *)
Definition studio_world (gen_answer : pyval) : World :=
  {| float_repr := fun lx => lx;
     str_repr := plain_repr;
     b64decode := fun s =>
       if str_eqb s (lit "QUJD") then Ok [Byte.x41; Byte.x42; Byte.x43]
       else Raise (mk_exn BinasciiError (lit "Incorrect padding"));
     strftime_now := fun _ => lit "20260206_101500_000000";
     environ_get := fun _ => None;
     http_post := fun tr =>
       match rev tr with
       | HttpPost url _ _ :: _ =>
           if str_in (lit "/api/chat") url
           then Ok (mk_response (Ok tt) (Ok cat_answer))
           else Ok (mk_response (Ok tt) (Ok gen_answer))
       | _ => Raise connection_refused
       end;
     import_boto3 := Raise (mk_exn ImportError (lit "No module named 'boto3'"));
     s3_client := fun _ => Raise connection_refused;
     s3_put_object := fun _ => Raise connection_refused;
     s3_presigned_url := fun _ => Raise connection_refused;
     os_makedirs := fun _ => Ok tt;
     write_file := fun _ => Ok tt |}.

Definition candidates (l : list pyval) : pyval := PDict [(lit "data", PList l)].
Definition inline (b64 : string) : pyval := PDict [(lit "b64_json", PStr (lit b64))].
Definition remote (url : string) : pyval := PDict [(lit "url", PStr (lit url))].

Definition user_message (fields : pydict) : pyval :=
  PDict [(lit "messages", PList [PDict ((lit "role", PStr (lit "user")) :: fields)])].

Definition image_item (fields : pydict) : pyval :=
  PDict ((lit "type", PStr (lit "image_url")) :: fields).

Definition image_url_item (url : string) : pyval :=
  image_item [(lit "image_url", PDict [(lit "url", PStr (lit url))])].

(** Two attached images and an instruction. *)
Definition body_two_images : pyval :=
  user_message
    [(lit "content", PStr (lit " make it fluffy "));
     (lit "images", PList [PStr (lit "data:image/png;base64,AAAA"); PStr (lit "BBBB")])].

(** One attached image. *)
Definition body_one_image : pyval :=
  user_message
    [(lit "content", PStr (lit "morph"));
     (lit "images", PList [PStr (lit "AAAA")])].

(** Two images in the content list, and an [images] field that is empty. *)
Definition body_empty_images_field : pyval :=
  user_message
    [(lit "content",
      PList [image_url_item "data:image/png;base64,AAAA";
             image_url_item "data:image/png;base64,BBBB"]);
     (lit "images", PList [])].

(** A request with an empty [images] field, two image items, and a text
    item whose text is [None]. *)
Definition body_empty_images_null_text : pyval :=
  user_message
    [(lit "content",
      PList [PDict [(lit "type", PStr (lit "text")); (lit "text", PNone)];
             image_url_item "data:image/png;base64,AAAA";
             image_url_item "data:image/png;base64,BBBB"]);
     (lit "images", PList [])].

(** A content list whose image item lacks its [image_url] entry. *)
Definition body_image_item_without_url : pyval :=
  user_message [(lit "content", PList [image_item []])].

(** Traits in an order that is not that of the vocabulary, one of them
    empty. *)
Definition scrambled_traits : pydict :=
  [(lit "style", PStr (lit "photo"));
   (lit "lighting", PStr []);
   (lit "primary_subject", PStr (lit "cat"))].

Definition scrambled_traitset : traitset :=
  fun k =>
    if str_eqb k (lit "style") then Some (lit "photo")
    else if str_eqb k (lit "lighting") then Some []
    else if str_eqb k (lit "primary_subject") then Some (lit "cat")
    else None.

(** An answer of the vision model under keys of its own, in two orders. *)
Definition foreign_traits : pydict :=
  [(lit "subject", PStr (lit "cat")); (lit "colors", PStr (lit "brown"))].

Definition foreign_traits_swapped : pydict :=
  [(lit "colors", PStr (lit "brown")); (lit "subject", PStr (lit "cat"))].

(** Answers of the vision model. *)
Definition clean_json : str := dq "{'primary_subject': 'cat', 'color_palette': 'brown'}".

Definition foreign_json : str := dq "{'subject': 'cat'}".

Definition fenced_prose : str :=
  lit "```json" ++ nl ++ lit "a cat on a sofa" ++ nl ++ lit "```".

(** *** Further samples *)

(** Three attached images. *)
Definition body_three_images : pyval :=
  user_message
    [(lit "content", PStr (lit " make it fluffy "));
     (lit "images", PList [PStr (lit "data:image/png;base64,AAAA"); PStr (lit "BBBB");
                           PStr (lit "CCCC")])].

(** A content list with a text item between two image items, and no
    [images] entry. *)
Definition body_content_list : pydict :=
  [(lit "messages",
    PList [PDict [(lit "role", PStr (lit "user"));
                  (lit "content",
                   PList [image_url_item "data:image/png;base64,AAAA";
                          PDict [(lit "type", PStr (lit "text"));
                                 (lit "text", PStr (lit " blend them "))];
                          image_url_item "https://cdn.example/b.png"])]])].

(** The valves of an installation that stores on S3 behind a public URL. *)
Definition s3_valves : Valves :=
  {| vision_url := lit "http://localhost:11434";
     vision_model := lit "llama3.2-vision:latest";
     gen_url := lit "http://localhost:11434";
     gen_model := lit "x/flux2-klein:latest";
     gen_n := 6;
     gen_size := lit "1024x1024";
     gen_response_format := lit "b64_json";
     use_s3 := true;
     s3_endpoint := lit "minio:9000";
     s3_bucket := lit "morphs";
     s3_access_key := lit "key";
     s3_secret_key := lit "secret";
     s3_public_url := lit "https://cdn.example/morphs" |}.

(** A world whose S3 service works. *)
Definition s3_world : World :=
  {| float_repr := fun lx => lx;
     str_repr := plain_repr;
     b64decode := fun _ => Ok [Byte.x41];
     strftime_now := fun _ => lit "20260206_101500_000000";
     environ_get := fun _ => None;
     http_post := fun _ => Raise connection_refused;
     import_boto3 := Ok tt;
     s3_client := fun _ => Ok tt;
     s3_put_object := fun _ => Ok tt;
     s3_presigned_url := fun _ => Ok (lit "https://minio.example/signed");
     os_makedirs := fun _ => Ok tt;
     write_file := fun _ => Ok tt |}.

Definition prose_with_object : str :=
  lit "Sure! " ++ dq "{'style': 'photo'}" ++ lit " Hope this helps.".

Definition numbered_traits : pydict :=
  [(lit "style", PInt 7); (lit "lighting", PStr (lit "soft"))].

Definition numbered_traits_swapped : pydict :=
  [(lit "lighting", PStr (lit "soft")); (lit "style", PInt 7)].

(** * Properties *)

(** The cases of membership in a list given by extension. *)
Ltac each_key H :=
  repeat (destruct H as [<- | H]; [try reflexivity; try discriminate |]);
  try destruct H.

(** ** Text *)

Lemma str_eqb_eq (a b : str) : str_eqb a b = true <-> a = b.
Proof.
  revert b; induction a as [|x a IH]; intros [|y b]; simpl; split; intro H;
    try reflexivity; try discriminate.
  - apply andb_true_iff in H as [Hx Ha].
    apply N.eqb_eq in Hx. apply IH in Ha. now subst.
  - inversion H; subst. rewrite N.eqb_refl. simpl. now apply IH.
Qed.

Lemma starts_with_prefix (p s : str) :
  starts_with p s = true <-> exists t, s = p ++ t.
Proof.
  revert s; induction p as [|x p IH]; intros s; simpl.
  - split; [intros _; now exists s | reflexivity].
  - destruct s as [|y s].
    + split; [discriminate | intros [t Ht]; discriminate].
    + rewrite andb_true_iff, N.eqb_eq, IH. split.
      * intros [-> [t ->]]. now exists t.
      * intros [t Ht]. inversion Ht; subst. split; [reflexivity | now exists t].
Qed.

Lemma str_in_occurs (sub s : str) : str_in sub s = true <-> occurs sub s.
Proof.
  induction s as [|c s IH].
  - simpl. rewrite orb_false_r, starts_with_prefix. split.
    + intros [t Ht]. now exists [], t.
    + intros [pre [post H]]. destruct pre; [now exists post | discriminate].
  - cbn [str_in]. rewrite orb_true_iff, starts_with_prefix, IH. split.
    + intros [[t Ht] | [pre [post H]]].
      * now exists [], t.
      * exists (c :: pre), post. now rewrite H.
    + intros [pre [post H]]. destruct pre as [|x pre].
      * left. now exists post.
      * right. inversion H; subst. now exists pre, post.
Qed.

Lemma char_in_In (c : char) (s : str) : char_in c s = true <-> In c s.
Proof.
  unfold char_in. rewrite existsb_exists. split.
  - intros [x [Hin Hx]]. apply N.eqb_eq in Hx. now subst.
  - intros H. exists c. split; [assumption | apply N.eqb_refl].
Qed.

Lemma split1_last_first (sep : char) (s : str) :
  In sep s ->
  exists a b, s = a ++ sep :: b /\ ~ In sep a /\ split1_last sep s = b.
Proof.
  induction s as [|c s IH]; intros Hin; [destruct Hin|].
  simpl. destruct (N.eqb c sep) eqn:E.
  - apply N.eqb_eq in E. subst. exists [], s. now repeat split.
  - apply N.eqb_neq in E. destruct Hin as [Hc | Hin]; [congruence|].
    destruct (IH Hin) as [a [b [Hs [Hn Hb]]]].
    exists (c :: a), b. repeat split.
    + now rewrite Hs.
    + intros [H | H]; [congruence | auto].
    + assumption.
Qed.

(** ** Trimming *)

Lemma lstrip_spaces (ws s : str) : all_space ws -> lstrip (ws ++ s) = lstrip s.
Proof.
  induction 1 as [|c ws Hc _ IH]; [reflexivity|].
  cbn [app lstrip]. now rewrite Hc.
Qed.

Lemma lstrip_head (c : char) (s : str) : is_space c = false -> lstrip (c :: s) = c :: s.
Proof. intros H. cbn [lstrip]. now rewrite H. Qed.

Lemma lstrip_split (s : str) : exists ws, all_space ws /\ s = ws ++ lstrip s.
Proof.
  induction s as [|c s [ws [Hws Hs]]].
  - exists []. split; [constructor | reflexivity].
  - cbn [lstrip]. destruct (is_space c) eqn:E.
    + exists (c :: ws). split; [now constructor|]. cbn [app]. now f_equal.
    + exists []. split; [constructor | reflexivity].
Qed.

Lemma lstrip_nonspace (s : str) (c : char) (s' : str) :
  lstrip s = c :: s' -> is_space c = false.
Proof.
  induction s as [|x s IH]; [discriminate|].
  cbn [lstrip]. destruct (is_space x) eqn:E; [exact IH|].
  intros H. inversion H; subst. exact E.
Qed.

Lemma lstrip_idem (s : str) : lstrip (lstrip s) = lstrip s.
Proof.
  destruct (lstrip s) as [|c s'] eqn:E; [reflexivity|].
  apply lstrip_head. exact (lstrip_nonspace s _ _ E).
Qed.

Lemma lstrip_snoc (a : str) (c : char) :
  is_space c = false -> lstrip (a ++ [c]) = lstrip a ++ [c].
Proof.
  intros Hc. induction a as [|x a IH].
  - cbn. now rewrite Hc.
  - cbn [app lstrip]. destruct (is_space x); [exact IH | reflexivity].
Qed.

Lemma rstrip_spaces (s ws : str) : all_space ws -> rstrip (s ++ ws) = rstrip s.
Proof.
  intros H. unfold rstrip. rewrite rev_app_distr. f_equal.
  apply lstrip_spaces. unfold all_space in *. now apply Forall_rev.
Qed.

Lemma rstrip_split (s : str) : exists ws, all_space ws /\ s = rstrip s ++ ws.
Proof.
  destruct (lstrip_split (rev s)) as [ws [Hws Hs]].
  exists (rev ws). split.
  - unfold all_space in *. now apply Forall_rev.
  - unfold rstrip. rewrite <- rev_app_distr, <- Hs. now rewrite rev_involutive.
Qed.

Lemma rstrip_cons (c : char) (s : str) :
  is_space c = false -> rstrip (c :: s) = c :: rstrip s.
Proof.
  intros Hc. unfold rstrip. cbn [rev]. rewrite lstrip_snoc by assumption.
  now rewrite rev_app_distr.
Qed.

Lemma trimmed_strip (t : str) : trimmed (strip t).
Proof.
  unfold trimmed, strip. split.
  - destruct (lstrip t) as [|c s] eqn:E; [reflexivity|].
    pose proof (lstrip_nonspace t _ _ E) as Hc.
    rewrite rstrip_cons by assumption. now apply lstrip_head.
  - unfold rstrip. rewrite rev_involutive. apply lstrip_idem.
Qed.

Lemma trimmed_rstrip (u : str) : trimmed u -> rstrip u = u.
Proof. intros [_ H]. unfold rstrip. rewrite H. apply rev_involutive. Qed.

Lemma trimmed_strip_id (u : str) : trimmed u -> strip u = u.
Proof. intros H. unfold strip. rewrite (proj1 H). now apply trimmed_rstrip. Qed.

Lemma trimmed_first (u : str) (c : char) (s : str) :
  trimmed u -> u = c :: s -> is_space c = false.
Proof. intros [H _] ->. exact (lstrip_nonspace (c :: s) _ _ H). Qed.

Lemma trimmed_last (u : str) (c : char) (s : str) :
  trimmed u -> u = s ++ [c] -> is_space c = false.
Proof.
  intros [_ H] ->. rewrite rev_app_distr in H. cbn [rev app] in H.
  exact (lstrip_nonspace _ _ _ H).
Qed.

Lemma strip_split (t : str) :
  exists a b, all_space a /\ all_space b /\ t = a ++ strip t ++ b.
Proof.
  destruct (lstrip_split t) as [a [Ha Ht]].
  destruct (rstrip_split (lstrip t)) as [b [Hb Hl]].
  exists a, b. repeat split; try assumption.
  unfold strip. now rewrite <- Hl.
Qed.

(** ** The regular expressions *)

Lemma match_here_many (p : char -> bool) (r : regex) (b : bool) (s : str) :
  match_here (Many p :: r) b s = many_then p (match_here r) b s.
Proof.
  revert b. induction s as [|c s IH]; intros b; [reflexivity|].
  cbn [many_then]. rewrite <- IH. reflexivity.
Qed.

Lemma match_here_many_end (p : char -> bool) (b : bool) (s : str) :
  match_here [Many p] b s = Some (span_len p s).
Proof.
  rewrite match_here_many. revert b.
  induction s as [|c s IH]; intros b; [reflexivity|].
  cbn [many_then span_len]. destruct (p c); [|reflexivity]. now rewrite IH.
Qed.

Lemma skipn_span_space (s : str) : skipn (span_len is_space s) s = lstrip s.
Proof.
  induction s as [|c s IH]; [reflexivity|].
  cbn [span_len lstrip]. destruct (is_space c); [exact IH | reflexivity].
Qed.

(** A pattern anchored at the start matches at position 0 or nowhere. *)
Lemma sub_from_bol_false (r : regex) (s : str) :
  forall k, sub_from (Bol :: r) false k s = skipn k s.
Proof.
  induction s as [|c s IH]; intros [|k]; try reflexivity.
  - cbn. now rewrite IH.
  - cbn. apply IH.
Qed.

Lemma re_sub_bol (r : regex) (s : str) :
  re_sub_empty (Bol :: r) s =
  match match_here r true s with
  | Some n => skipn n s
  | None => s
  end.
Proof.
  unfold re_sub_empty. destruct s as [|c s].
  - cbn. now destruct (match_here r true []) as [[|n]|].
  - cbn [sub_from match_here].
    destruct (match_here r true (c :: s)) as [[|n]|];
      rewrite sub_from_bol_false; reflexivity.
Qed.

Lemma match_here_one (p : char -> bool) (r : regex) (b : bool) (c : char) (s : str) :
  match_here (One p :: r) b (c :: s) =
  if p c then option_map S (match_here r false s) else None.
Proof. reflexivity. Qed.

Lemma match_here_one_nil (p : char -> bool) (r : regex) (b : bool) :
  match_here (One p :: r) b [] = None.
Proof. reflexivity. Qed.

Ltac case_backticks :=
  repeat (rewrite ?match_here_one, ?match_here_one_nil; unfold is_chr, backtick;
          match goal with
          | |- context [96 =? ?c] => destruct (96 =? c); cbn [andb option_map]
          end).

Lemma sub_fence_open (s : str) :
  re_sub_empty re_fence_open s =
  if starts_with fence s then lstrip (skipn 3 s) else s.
Proof.
  unfold re_fence_open. rewrite re_sub_bol. change fence with [96; 96; 96].
  destruct s as [|c1 [|c2 [|c3 s]]]; cbn [starts_with];
    case_backticks; rewrite ?match_here_one_nil; try reflexivity.
  rewrite match_here_many_end. cbn [option_map skipn].
  apply skipn_span_space.
Qed.

Lemma sub_fence_json_tagged (tag s : str) :
  json_tag tag = true ->
  re_sub_empty re_fence_json (fence ++ tag ++ s) = lstrip s.
Proof.
  intros Ht. destruct tag as [|a [|b [|c [|d [|? ?]]]]]; try discriminate.
  cbn [json_tag] in Ht. apply andb_true_iff in Ht as [Ht Hd].
  apply andb_true_iff in Ht as [Ht Hc]. apply andb_true_iff in Ht as [Ha Hb].
  unfold re_fence_json. rewrite re_sub_bol. change fence with [96; 96; 96].
  cbn [app]. rewrite !match_here_one. unfold is_chr, backtick. rewrite !N.eqb_refl.
  rewrite Ha, Hb, Hc, Hd. cbn [option_map].
  rewrite match_here_many_end. cbn [option_map skipn].
  apply skipn_span_space.
Qed.

(** Without the three backticks, or without a j after them, the tagged
    pattern does not match. *)
Lemma sub_fence_json_none (s : str) :
  match s with
  | c1 :: c2 :: c3 :: c4 :: _ =>
      starts_with fence s = false \/ ci 106 74 [] c4 = false
  | _ => True
  end ->
  re_sub_empty re_fence_json s = s.
Proof.
  unfold re_fence_json. rewrite re_sub_bol. change fence with [96; 96; 96].
  destruct s as [|c1 [|c2 [|c3 [|c4 s]]]]; cbn [starts_with];
    intros H; case_backticks; rewrite ?match_here_one_nil; try reflexivity.
  destruct H as [H | H]; [discriminate|]. now rewrite H.
Qed.

(** *** The closing fence *)

Lemma close_tail_shape (b : bool) (u : str) (n : nat) :
  match_here re_close_tail b u = Some n -> u = fence \/ u = fence ++ [10].
Proof.
  unfold re_close_tail, is_chr, backtick. change fence with [96; 96; 96].
  destruct u as [|c1 [|c2 [|c3 u]]];
    repeat first
      [ rewrite match_here_one
      | rewrite match_here_one_nil
      | match goal with
        | |- context [96 =? ?c] => destruct (96 =? c) eqn:?
        end ];
    try discriminate.
  repeat match goal with
         | H : (96 =? _) = true |- _ => apply N.eqb_eq in H; subst
         end.
  destruct u as [|x [|y u]]; cbn; intros H.
  - now left.
  - destruct x as [|p]; try discriminate.
    right. repeat (destruct p as [p|p|]; try discriminate). reflexivity.
  - destruct x as [|p]; try discriminate.
    repeat (destruct p as [p|p|]; try discriminate).
Qed.

Lemma close_shape (u : str) :
  forall (b : bool) (n : nat),
  match_here re_fence_close b u = Some n ->
  exists ws, all_space ws /\ (u = ws ++ fence \/ u = ws ++ fence ++ [10]).
Proof.
  unfold re_fence_close. fold re_close_tail.
  induction u as [|c u IH]; intros b n; rewrite match_here_many; cbn [many_then].
  - intros H. apply close_tail_shape in H. exists []. split; [constructor | exact H].
  - destruct (is_space c) eqn:Ec.
    + destruct (many_then is_space (match_here re_close_tail) false u) as [m|] eqn:Em.
      * intros _. rewrite <- match_here_many in Em.
        destruct (IH false m Em) as [ws [Hws Hu]].
        exists (c :: ws). split; [now constructor|].
        destruct Hu as [-> | ->]; [now left | now right].
      * intros H. apply close_tail_shape in H. exists []. split; [constructor | exact H].
    + intros H. apply close_tail_shape in H. exists []. split; [constructor | exact H].
Qed.

Lemma close_match (ws : str) :
  all_space ws ->
  forall b, match_here re_fence_close b (ws ++ fence) = Some (List.length ws + 3)%nat.
Proof.
  unfold re_fence_close. fold re_close_tail.
  induction 1 as [|c ws Hc _ IH]; intros b.
  - reflexivity.
  - rewrite match_here_many. cbn [app many_then]. rewrite Hc.
    rewrite <- match_here_many, IH. reflexivity.
Qed.

Lemma sub_from_skip_all (r : regex) (s : str) :
  forall (b : bool) (k : nat), (List.length s <= k)%nat -> sub_from r b k s = [].
Proof.
  induction s as [|c s IH]; intros b k Hk; [reflexivity|].
  cbn [List.length] in Hk. destruct k as [|k]; [lia|].
  cbn [sub_from]. apply IH. lia.
Qed.

(** A text that ends with neither the fence nor the fence and a newline
    has no match. *)
Lemma sub_close_none (s : str) :
  (forall pre, s <> pre ++ fence) ->
  (forall pre, s <> pre ++ fence ++ [10]) ->
  forall b, sub_from re_fence_close b 0 s = s.
Proof.
  induction s as [|c s IH]; intros H1 H2 b; [reflexivity|].
  cbn [sub_from].
  destruct (match_here re_fence_close b (c :: s)) as [n|] eqn:E.
  - exfalso. destruct (close_shape _ _ _ E) as [ws [_ [H | H]]].
    + exact (H1 ws H).
    + exact (H2 ws H).
  - f_equal. apply IH.
    + intros pre H. apply (H1 (c :: pre)). now rewrite H.
    + intros pre H. apply (H2 (c :: pre)). now rewrite H.
Qed.

Lemma all_space_app (a b : str) : all_space a -> all_space b -> all_space (a ++ b).
Proof. unfold all_space. intros. now apply Forall_app. Qed.

(** A text that ends with the fence loses it, and the whitespace before
    it. *)
Lemma sub_close_fence (body ws : str) :
  ends_clean body -> all_space ws ->
  forall b, sub_from re_fence_close b 0 (body ++ ws ++ fence) = body.
Proof.
  intros Hb Hws. induction body as [|c body IH]; intros b.
  - cbn [app]. pose proof (close_match ws Hws b) as Hm.
    destruct (ws ++ fence) as [|x s] eqn:Es.
    + destruct ws; discriminate.
    + cbn [sub_from]. rewrite Hm. replace (List.length ws + 3)%nat
        with (S (List.length ws + 2)) by lia.
      apply sub_from_skip_all.
      assert (L : List.length (x :: s) = (List.length ws + 3)%nat)
        by (rewrite <- Es, length_app; reflexivity).
      cbn [List.length] in L. lia.
  - cbn [app sub_from].
    destruct (match_here re_fence_close b (c :: body ++ ws ++ fence)) as [n|] eqn:E.
    + exfalso. destruct (close_shape _ _ _ E) as [ws' [Hws' [H | H]]].
      * change (c :: body ++ ws ++ fence) with ((c :: body) ++ ws ++ fence) in H.
        rewrite app_assoc in H. apply app_inv_tail in H.
        destruct (exists_last (l := c :: body)) as [pre [x Hx]]; [discriminate|].
        pose proof (Hb pre x Hx) as Hsp.
        assert (Hin : In x ws').
        { rewrite <- H, Hx. apply in_or_app. left. apply in_or_app. right. now left. }
        unfold all_space in Hws'. rewrite Forall_forall in Hws'.
        rewrite (Hws' x Hin) in Hsp. discriminate.
      * apply (f_equal (@rev char)) in H.
        change (c :: body ++ ws ++ fence) with ((c :: body) ++ ws ++ fence) in H.
        rewrite !rev_app_distr in H. cbn in H. discriminate.
    + f_equal. apply IH.
      intros pre x Hx. apply (Hb (c :: pre) x). now rewrite Hx.
Qed.

Lemma ends_with_suffix (p s : str) :
  ends_with p s = true <-> exists pre, s = pre ++ p.
Proof.
  unfold ends_with. rewrite starts_with_prefix. split.
  - intros [t Ht]. exists (rev t).
    rewrite <- (rev_involutive s), Ht, rev_app_distr. now rewrite rev_involutive.
  - intros [pre ->]. exists (rev pre). now rewrite rev_app_distr.
Qed.

Lemma trimmed_ends_clean (u : str) : trimmed u -> ends_clean u.
Proof. intros H pre c Hu. exact (trimmed_last u c pre H Hu). Qed.

Ltac flatten_apps := repeat (progress (rewrite <- ?app_assoc; cbn [app])).

Lemma trimmed_wrap (c : char) (s : str) (c' : char) (w : str) :
  is_space c = false -> is_space c' = false -> w = c :: s ++ [c'] -> trimmed w.
Proof.
  intros Hc Hc' ->. split.
  - now apply lstrip_head.
  - change (c :: s ++ [c']) with ((c :: s) ++ [c']).
    rewrite rev_app_distr. cbn [rev app]. now apply lstrip_head.
Qed.

(** *** The three removals together *)

(** A trimmed text without fence markers is left as it is. *)
Lemma remove_fences_plain (u : str) :
  trimmed u ->
  starts_with fence u = false ->
  ends_with fence u = false ->
  remove_fences u = u.
Proof.
  intros Ht Hs He. unfold remove_fences.
  assert (E1 : re_sub_empty re_fence_json u = u).
  { apply sub_fence_json_none. destruct u as [|c1 [|c2 [|c3 [|c4 u]]]]; auto. }
  rewrite E1, (trimmed_strip_id u Ht).
  rewrite sub_fence_open, Hs, (trimmed_strip_id u Ht).
  unfold re_sub_empty. rewrite sub_close_none.
  - exact (trimmed_strip_id u Ht).
  - intros pre H. assert (X : ends_with fence u = true)
      by (apply ends_with_suffix; now exists pre). congruence.
  - intros pre H. rewrite app_assoc in H.
    pose proof (trimmed_last u 10 _ Ht H) as Hsp. discriminate.
Qed.

Lemma is_space_not_j (x : char) : is_space x = true -> ci 106 74 [] x = false.
Proof.
  intros H. unfold ci. cbn [existsb]. rewrite orb_false_r.
  destruct (x =? 106) eqn:E1; [apply N.eqb_eq in E1; subst; discriminate|].
  destruct (x =? 74) eqn:E2; [apply N.eqb_eq in E2; subst; discriminate|].
  reflexivity.
Qed.

(** A fenced block, tagged [json] in any case or not tagged, around a
    trimmed text that starts with neither a backtick nor a j: the removals
    give back the text. *)
Lemma remove_fences_fenced (tag a b : str) (c : char) (u : str) :
  json_tag tag = true \/ tag = [] ->
  all_space a -> all_space b ->
  trimmed (c :: u) ->
  c <> 96 ->
  ci 106 74 [] c = false ->
  remove_fences (fence ++ tag ++ a ++ (c :: u) ++ b ++ fence) = c :: u.
Proof.
  intros Htag Ha Hb Ht Hc Hj.
  pose proof (trimmed_first (c :: u) c u Ht eq_refl) as Hsp.
  assert (Hinner : trimmed ((c :: u) ++ b ++ fence)).
  { apply (trimmed_wrap c (u ++ b ++ [96; 96]) 96); try assumption; try reflexivity.
    change fence with [96; 96; 96]. now flatten_apps. }
  assert (Hopen : starts_with fence ((c :: u) ++ b ++ fence) = false).
  { change fence with [96; 96; 96]. cbn [app starts_with].
    apply N.eqb_neq in Hc. rewrite N.eqb_sym in Hc. now rewrite Hc. }
  assert (Hl : lstrip (a ++ (c :: u) ++ b ++ fence) = (c :: u) ++ b ++ fence).
  { rewrite lstrip_spaces by assumption. cbn [app]. now apply lstrip_head. }
  assert (Hclose : strip (re_sub_empty re_fence_close ((c :: u) ++ b ++ fence)) = c :: u).
  { unfold re_sub_empty. rewrite sub_close_fence; try assumption.
    - now apply trimmed_strip_id.
    - now apply trimmed_ends_clean. }
  unfold remove_fences. destruct Htag as [Htag | ->].
  - rewrite sub_fence_json_tagged by assumption. rewrite Hl.
    rewrite (trimmed_strip_id _ Hinner).
    rewrite sub_fence_open, Hopen. rewrite (trimmed_strip_id _ Hinner).
    exact Hclose.
  - rewrite app_nil_l.
    assert (Hw : trimmed (fence ++ a ++ (c :: u) ++ b ++ fence)).
    { apply (trimmed_wrap 96 ([96; 96] ++ a ++ (c :: u) ++ b ++ [96; 96]) 96);
        try reflexivity.
      change fence with [96; 96; 96]. now flatten_apps. }
    rewrite sub_fence_json_none.
    + rewrite (trimmed_strip_id _ Hw).
      rewrite sub_fence_open.
      replace (starts_with fence (fence ++ a ++ (c :: u) ++ b ++ fence)) with true
        by (symmetry; apply starts_with_prefix; now eexists).
      change (skipn 3 (fence ++ a ++ (c :: u) ++ b ++ fence))
        with (a ++ (c :: u) ++ b ++ fence).
      rewrite Hl. rewrite (trimmed_strip_id _ Hinner). exact Hclose.
    + change fence with [96; 96; 96] at 1. cbn [app].
      destruct a as [|x a]; cbn [app].
      * now right.
      * right. apply is_space_not_j. now inversion Ha.
Qed.

(** ** The JSON decoder *)

Lemma fold_step_fail (s : str) (stack : list frame) :
  fold_left step s (MFail, stack) = (MFail, stack).
Proof. induction s as [|c s IH]; [reflexivity | exact IH]. Qed.

Lemma finish_open (m : mode) (f : frame) (stack : list frame) (v : pyval) :
  finish (m, f :: stack) <> Ok v.
Proof. destruct m; discriminate. Qed.

Ltac bools :=
  repeat match goal with
         | H : _ && _ = true |- _ => apply andb_true_iff in H; destruct H
         | H : _ || _ = true |- _ => apply orb_true_iff in H; destruct H
         | H : (_ <=? _) = true |- _ => apply N.leb_le in H
         | H : (_ <? _) = true |- _ => apply N.ltb_lt in H
         | H : (_ =? _) = true |- _ => apply N.eqb_eq in H
         end.

Lemma inert_eqb (c k : char) :
  inert c -> is_space k = false -> k <> 96 -> (c =? k) = false.
Proof.
  intros [H | ->] Hk Hn.
  - apply N.eqb_neq. intros ->. congruence.
  - apply N.eqb_neq. congruence.
Qed.

Lemma inert_not_digit (c : char) : inert c -> is_digit c = false.
Proof.
  intros [H | ->]; [|reflexivity].
  destruct (is_digit c) eqn:D; [|reflexivity].
  unfold is_digit, is_space in *. bools; lia.
Qed.

Lemma inert_not_alpha (c : char) : inert c -> alpha c = false.
Proof.
  intros [H | ->]; [|reflexivity].
  destruct (alpha c) eqn:D; [|reflexivity].
  unfold alpha, is_space in *. bools; lia.
Qed.

Lemma inert_not_hex (c : char) : inert c -> is_hex c = false.
Proof.
  intros [H | ->]; [|reflexivity].
  destruct (is_hex c) eqn:D; [|reflexivity].
  unfold is_hex, is_digit, is_space in *. bools; lia.
Qed.

Lemma deliver_ok (v : pyval) (stack : list frame) : mode_ok (fst (deliver v stack)).
Proof. destruct stack as [|[items|pairs [k|]] st]; exact I. Qed.

Lemma close_arr_ok (stack : list frame) : mode_ok (fst (close_arr stack)).
Proof. destruct stack as [|[items|pairs k] st]; try exact I. apply deliver_ok. Qed.

Lemma close_obj_ok (stack : list frame) : mode_ok (fst (close_obj stack)).
Proof. destruct stack as [|[items|pairs [k|]] st]; try exact I. apply deliver_ok. Qed.

Lemma step_value_ok (c : char) (stack : list frame) : mode_ok (fst (step_value c stack)).
Proof.
  unfold step_value.
  repeat match goal with
         | |- context [if ?b then _ else _] => destruct b
         end; try exact I; reflexivity.
Qed.

Lemma step_after_ok (st : jstate) (c : char) :
  mode_ok (fst st) -> mode_ok (fst (step_after st c)).
Proof.
  destruct st as [m stack]. intros H. unfold step_after.
  destruct m; try exact I;
    repeat match goal with
           | |- context [if ?b then _ else _] => destruct b
           end;
    try exact I; try exact H; auto using close_arr_ok, close_obj_ok.
Qed.

Lemma step_ok (st : jstate) (c : char) :
  mode_ok (fst st) -> mode_ok (fst (step st c)).
Proof.
  destruct st as [m stack]. intros H.
  destruct m; cbn [step].
  - apply step_value_ok.
  - destruct (is_jws c); [exact I|]. destruct (c =? 93); [apply close_arr_ok|].
    apply step_value_ok.
  - now apply step_after_ok.
  - destruct (is_jws c); [exact I|]. destruct (c =? 34); [exact I|].
    destruct (c =? 125); [apply close_obj_ok | exact I].
  - destruct (is_jws c); [exact I|]. destruct (c =? 34); exact I.
  - destruct (is_jws c); [exact I|]. destruct (c =? 58); exact I.
  - now apply step_after_ok.
  - unfold step_str, end_string. destruct ss as [| |k a].
    + repeat match goal with
             | |- context [if ?b then _ else _] => destruct b
             end; try exact I; try apply deliver_ok.
      destruct stack as [|[|] ?]; exact I.
    + destruct (c =? 117); [exact I|]. destruct (unescape c); exact I.
    + destruct (is_hex c); [|exact I].
      destruct k as [|[|[|[|k]]]]; try exact I;
        destruct pend; repeat match goal with
                              | |- context [if ?b then _ else _] => destruct b
                              end; exact I.
  - unfold step_num.
    destruct ns; cbn [number_value];
      repeat match goal with
             | |- context [if ?b then _ else _] => destruct b
             end; try exact I; try reflexivity;
      apply step_after_ok, deliver_ok.
  - destruct rest as [|x rest']; [exact I|].
    destruct (c =? x); [|exact I].
    destruct rest' as [|y rest'']; [apply deliver_ok|].
    cbn [mode_ok fst forallb] in *. apply andb_true_iff in H. tauto.
  - now apply step_after_ok.
  - exact I.
Qed.

Lemma fold_step_ok (s : str) :
  forall st, mode_ok (fst st) -> mode_ok (fst (fold_left step s st)).
Proof.
  induction s as [|c s IH]; intros st H; [exact H|].
  cbn [fold_left]. apply IH. now apply step_ok.
Qed.

Ltac inert_simpl Hc :=
  repeat match goal with
         | |- context [?c =? ?k] =>
             rewrite (inert_eqb c k Hc) by first [reflexivity | discriminate]
         | |- context [is_digit ?c] => rewrite (inert_not_digit c Hc)
         | |- context [is_hex ?c] => rewrite (inert_not_hex c Hc)
         end; cbn [orb andb].

Lemma step_value_inert (c : char) (stack : list frame) :
  inert c ->
  step_value c stack = if is_jws c then (MValue, stack) else (MFail, stack).
Proof. intros Hc. unfold step_value. inert_simpl Hc. reflexivity. Qed.

Lemma step_after_inert (st : jstate) (c : char) :
  inert c ->
  step_after st c = if is_jws c then
                      match fst st with
                      | MArrNext | MObjNext | MDone _ => st
                      | _ => (MFail, snd st)
                      end
                    else (MFail, snd st).
Proof.
  intros Hc. destruct st as [m stack]. unfold step_after.
  destruct m; inert_simpl Hc; cbn [fst snd]; destruct (is_jws c); reflexivity.
Qed.

(** After an inert code point the text is complete only if it was complete
    before, and the code point is JSON whitespace. *)
Lemma step_inert (st : jstate) (c : char) (v : pyval) :
  mode_ok (fst st) -> inert c ->
  finish (step st c) = Ok v ->
  finish st = Ok v /\ is_jws c = true.
Proof.
  intros Hok Hc. destruct st as [m stack]. destruct m; cbn [step].
  - rewrite step_value_inert by assumption. destruct (is_jws c); discriminate.
  - inert_simpl Hc. rewrite step_value_inert by assumption.
    destruct (is_jws c); discriminate.
  - rewrite step_after_inert by assumption. cbn [fst snd].
    destruct (is_jws c); discriminate.
  - inert_simpl Hc. destruct (is_jws c); discriminate.
  - inert_simpl Hc. destruct (is_jws c); discriminate.
  - inert_simpl Hc. destruct (is_jws c); discriminate.
  - rewrite step_after_inert by assumption. cbn [fst snd].
    destruct (is_jws c); discriminate.
  - unfold step_str. destruct ss as [| |k a]; inert_simpl Hc.
    + destruct (c <? 32); discriminate.
    + unfold unescape. inert_simpl Hc. discriminate.
    + discriminate.
  - unfold step_num.
    destruct ns; inert_simpl Hc; cbn [number_value]; try discriminate;
      rewrite step_after_inert by assumption;
      (destruct stack as [|[items|pairs [k|]] stack]; cbn [deliver fst snd];
       destruct (is_jws c); cbn [finish number_value]; try discriminate;
       intros H; split; [exact H | reflexivity]).
  - destruct rest as [|x rest]; [discriminate|].
    cbn [mode_ok fst forallb] in Hok. apply andb_true_iff in Hok as [Hx _].
    assert (E : (c =? x) = false).
    { apply N.eqb_neq. intros ->. rewrite (inert_not_alpha x Hc) in Hx. discriminate. }
    rewrite E. discriminate.
  - rewrite step_after_inert by assumption. cbn [fst snd].
    destruct (is_jws c); [|discriminate]. intros H. split; [exact H | reflexivity].
  - discriminate.
Qed.

(** Whitespace after a complete text does not change what it decodes to;
    whitespace after an incomplete one does not complete it. *)
Lemma finish_after_spaces (ws : str) :
  all_space ws ->
  forall st v, mode_ok (fst st) ->
  finish (fold_left step ws st) = Ok v -> finish st = Ok v.
Proof.
  induction 1 as [|c ws Hc _ IH]; intros st v Hok H; [exact H|].
  cbn [fold_left] in H.
  apply IH in H; [|now apply step_ok].
  now apply (step_inert st c v Hok (or_introl Hc)) in H.
Qed.

Lemma json_run_ok (s : str) : mode_ok (fst (json_run s)).
Proof. apply fold_step_ok. exact I. Qed.

Lemma json_loads_rstrip (s ws : str) (v : pyval) :
  all_space ws -> json_loads (s ++ ws) = Ok v -> json_loads s = Ok v.
Proof.
  unfold json_loads, json_run. rewrite fold_left_app. intros Hws H.
  exact (finish_after_spaces ws Hws _ v (json_run_ok s) H).
Qed.

Lemma json_loads_lstrip (ws s : str) (v : pyval) :
  all_space ws -> json_loads (ws ++ s) = Ok v -> json_loads s = Ok v.
Proof.
  induction 1 as [|c ws Hc _ IH]; intros H; [exact H|].
  apply IH. unfold json_loads, json_run in *. cbn [app fold_left step] in H.
  rewrite step_value_inert in H by now left.
  destruct (is_jws c); [exact H|].
  rewrite fold_step_fail in H. discriminate.
Qed.

(** Trimming a text that decodes does not change what it decodes to. *)
Lemma json_loads_strip (t : str) (v : pyval) :
  json_loads t = Ok v -> json_loads (strip t) = Ok v.
Proof.
  intros H. destruct (strip_split t) as [a [b [Ha [Hb Ht]]]].
  rewrite Ht in H. apply json_loads_lstrip in H; [|assumption].
  now apply json_loads_rstrip in H.
Qed.

(** A text that decodes starts with neither a backtick nor a j, and does
    not end with a backtick. *)
Lemma json_loads_first (c : char) (s : str) (v : pyval) :
  json_loads (c :: s) = Ok v -> c <> 96 /\ ci 106 74 [] c = false.
Proof.
  intros H. unfold json_loads, json_run in H. cbn [fold_left step] in H.
  assert (F : forall k, fst (step_value k []) = MFail -> c <> k).
  { intros k Hk ->. destruct (step_value k []) as [m st]. cbn in Hk. subst.
    rewrite fold_step_fail in H. discriminate. }
  split.
  - apply F. reflexivity.
  - unfold ci. cbn [existsb]. rewrite orb_false_r.
    apply orb_false_iff. split; apply N.eqb_neq; apply F; reflexivity.
Qed.

Lemma json_loads_last (s : str) (v : pyval) :
  json_loads (s ++ [96]) = Ok v -> False.
Proof.
  unfold json_loads, json_run. rewrite fold_left_app. cbn [fold_left]. intros H.
  apply step_inert in H; [|apply json_run_ok | now right].
  destruct H as [_ H]. discriminate.
Qed.

(** *** A text that starts with a brace decodes to an object *)

Lemma bottom_obj_push (f : frame) (stack : list frame) :
  bottom_obj stack = true -> bottom_obj (f :: stack) = true.
Proof. destruct stack; [discriminate | intros H; exact H]. Qed.

Lemma bottom_obj_top (f g : frame) (stack : list frame) :
  match f, g with
  | FObj _ _, FObj _ _ | FArr _, FArr _ => True
  | _, _ => False
  end ->
  bottom_obj (f :: stack) = true -> bottom_obj (g :: stack) = true.
Proof. destruct stack; [|intros _ H; exact H]. destruct f, g; cbn; tauto. Qed.

Lemma in_object_stack (m : mode) (stack : list frame) :
  bottom_obj stack = true -> in_object (m, stack).
Proof. intros H. right. left. exact H. Qed.

Lemma deliver_in_object (v : pyval) (stack : list frame) :
  bottom_obj stack = true -> in_object (deliver v stack).
Proof.
  destruct stack as [|[items|pairs [k|]] st]; cbn [deliver]; intros H.
  - discriminate.
  - apply in_object_stack. revert H. now apply bottom_obj_top.
  - apply in_object_stack. revert H. now apply bottom_obj_top.
  - now left.
Qed.

Lemma close_arr_in_object (stack : list frame) :
  bottom_obj stack = true -> in_object (close_arr stack).
Proof.
  destruct stack as [|[items|pairs k] st]; cbn [close_arr]; intros H;
    try (now left).
  destruct st as [|g st]; [discriminate|]. now apply deliver_in_object.
Qed.

Lemma close_obj_in_object (stack : list frame) :
  bottom_obj stack = true -> in_object (close_obj stack).
Proof.
  destruct stack as [|[items|pairs [k|]] st]; cbn [close_obj]; intros H;
    try (now left).
  destruct st as [|g st].
  - right. right. split; [reflexivity | now eexists].
  - now apply deliver_in_object.
Qed.

Lemma step_value_in_object (c : char) (stack : list frame) :
  bottom_obj stack = true -> in_object (step_value c stack).
Proof.
  intros H. unfold step_value.
  repeat match goal with
         | |- context [if ?b then _ else _] => destruct b
         end;
    try (now left); apply in_object_stack;
    try exact H; now apply bottom_obj_push.
Qed.

Lemma step_after_in_object (st : jstate) (c : char) :
  in_object st -> in_object (step_after st c).
Proof.
  destruct st as [m stack]. intros [H | [H | [H [d Hd]]]]; cbn [fst snd] in *.
  - subst. now left.
  - unfold step_after. destruct m; try (now left);
      repeat match goal with
             | |- context [if ?b then _ else _] => destruct b
             end;
      try (now left); try (now apply in_object_stack);
      auto using close_arr_in_object, close_obj_in_object.
  - subst. unfold step_after. destruct (is_jws c); [|now left].
    right. right. split; [reflexivity | now eexists].
Qed.

Lemma step_in_object (st : jstate) (c : char) :
  in_object st -> in_object (step st c).
Proof.
  intros H. pose proof (step_after_in_object st c H) as Hafter.
  destruct st as [m stack]. destruct H as [H | [H | [H [d Hd]]]]; cbn [fst snd] in *.
  - subst. now left.
  - destruct m; cbn [step]; try exact Hafter.
    + now apply step_value_in_object.
    + destruct (is_jws c); [now apply in_object_stack|].
      destruct (c =? 93); [now apply close_arr_in_object|].
      now apply step_value_in_object.
    + destruct (is_jws c); [now apply in_object_stack|].
      destruct (c =? 34); [now apply in_object_stack|].
      destruct (c =? 125); [now apply close_obj_in_object | now left].
    + destruct (is_jws c); [now apply in_object_stack|].
      destruct (c =? 34); [now apply in_object_stack | now left].
    + destruct (is_jws c); [now apply in_object_stack|].
      destruct (c =? 58); [now apply in_object_stack | now left].
    + unfold step_str, end_string. destruct ss as [| |k a].
      * repeat match goal with
               | |- context [if ?b then _ else _] => destruct b
               end;
          try (now left); try (now apply in_object_stack);
          try (now apply deliver_in_object).
        destruct stack as [|[items|pairs k] st]; try (now left).
        apply in_object_stack. revert H. now apply bottom_obj_top.
      * destruct (c =? 117); [now apply in_object_stack|].
        destruct (unescape c); [now apply in_object_stack | now left].
      * destruct (is_hex c); [|now left].
        destruct k as [|[|[|[|k]]]]; try (now apply in_object_stack);
          destruct pend;
          repeat match goal with
                 | |- context [if ?b then _ else _] => destruct b
                 end; now apply in_object_stack.
    + unfold step_num.
      destruct ns; cbn [number_value];
        repeat match goal with
               | |- context [if ?b then _ else _] => destruct b
               end;
        try (now left); try (now apply in_object_stack);
        apply step_after_in_object; now apply deliver_in_object.
    + destruct rest as [|x rest']; [now left|].
      destruct (c =? x); [|now left].
      destruct rest'; [now apply deliver_in_object | now apply in_object_stack].
  - subst. exact Hafter.
Qed.

Lemma fold_step_in_object (s : str) :
  forall st, in_object st -> in_object (fold_left step s st).
Proof.
  induction s as [|c s IH]; intros st H; [exact H|].
  cbn [fold_left]. apply IH. now apply step_in_object.
Qed.

Lemma json_loads_brace (s : str) (v : pyval) :
  json_loads (123 :: s) = Ok v -> exists d, v = PDict d.
Proof.
  unfold json_loads, json_run. cbn [fold_left].
  change (step (MValue, []) 123) with (MObjFirst, [FObj [] None]).
  pose proof (fold_step_in_object s (MObjFirst, [FObj [] None])
                (in_object_stack MObjFirst [FObj [] None] eq_refl)) as H.
  destruct (fold_left step s (MObjFirst, [FObj [] None])) as [m stack].
  destruct H as [H | [H | [H [d Hd]]]]; cbn [fst snd] in *; subst.
  - discriminate.
  - destruct stack as [|f stack]; [discriminate|]. intros E.
    now apply finish_open in E.
  - cbn. intros E. inversion E. now exists d.
Qed.

(** *** The brace span *)

Lemma search_from_match (r : regex) (s : str) :
  forall (b : bool) (i n : nat),
  search_from r b s = Some (i, n) ->
  exists b', match_here r b' (skipn i s) = Some n.
Proof.
  induction s as [|c s IH]; intros b i n; cbn [search_from].
  - destruct (match_here r b []) as [k|] eqn:E; [|discriminate].
    intros H. inversion H; subst. now exists b.
  - destruct (match_here r b (c :: s)) as [k|] eqn:E.
    + intros H. inversion H; subst. now exists b.
    + destruct (search_from r false s) as [[j k]|] eqn:F; [|discriminate].
      intros H. inversion H; subst. exact (IH false j n F).
Qed.

Lemma re_search_braces (t m : str) :
  re_search re_braces t = Some m -> exists s, m = 123 :: s.
Proof.
  unfold re_search. destruct (search_from re_braces true t) as [[i n]|] eqn:E;
    [|discriminate].
  intros H. inversion H; subst. clear H.
  destruct (search_from_match _ _ _ _ _ E) as [b' Hm].
  unfold re_braces in Hm. destruct (skipn i t) as [|c u]; [discriminate|].
  rewrite match_here_one in Hm. unfold is_chr in Hm.
  destruct (123 =? c) eqn:Ec; [|discriminate].
  apply N.eqb_eq in Ec. subst c.
  destruct (match_here _ false u) as [k|]; [|discriminate].
  inversion Hm; subst. cbn [firstn]. now eexists.
Qed.

(** ** The response normalizer *)

Lemma strip_text (s : str) : py_strip (py_or (PStr s) (PStr [])) = Ok (strip s).
Proof. destruct s; reflexivity. Qed.

Lemma safe_json_unfold (s : str) :
  _safe_json_from_text (PStr s) =
  let t := remove_fences (strip s) in
  try_except (json_loads t) (fun _ =>
    match re_search re_braces t with
    | Some m => try_except (json_loads m) (fun _ => Ok (raw_of t))
    | None => Ok (raw_of t)
    end).
Proof. unfold _safe_json_from_text. now rewrite strip_text. Qed.

(** C2, as the code has it.  On every string the normalizer returns, and
    never raises: its result is what the text without its fences decodes
    to (any JSON value, with the keys it has), or else the object its brace
    span decodes to, or else the fallback object holding the text without
    its fences. *)
Theorem safe_json_total (s : str) :
  exists v, _safe_json_from_text (PStr s) = Ok v /\
    (json_loads (remove_fences (strip s)) = Ok v \/
     (exists m d, re_search re_braces (remove_fences (strip s)) = Some m /\
                  json_loads m = Ok v /\ v = PDict d) \/
     v = raw_of (remove_fences (strip s))).
Proof.
  rewrite safe_json_unfold. cbv zeta.
  destruct (json_loads (remove_fences (strip s))) as [v|e] eqn:E1.
  - exists v. split; [reflexivity | now left].
  - cbn [try_except].
    destruct (re_search re_braces (remove_fences (strip s))) as [m|] eqn:E2.
    + destruct (json_loads m) as [v|e'] eqn:E3.
      * exists v. split; [reflexivity|]. right. left.
        destruct (re_search_braces _ _ E2) as [u ->].
        destruct (json_loads_brace _ _ E3) as [d ->].
        now exists (123 :: u), d.
      * eexists. split; [reflexivity | now right; right].
    + eexists. split; [reflexivity | now right; right].
Qed.

Lemma strip_lstrip (s : str) : strip (lstrip s) = strip s.
Proof. unfold strip. now rewrite lstrip_idem. Qed.

(** The tagged pattern deletes the opening marker, its tag and the
    whitespace after them, and nothing else. *)
Lemma sub_fence_json (t : str) :
  re_sub_empty re_fence_json t = if opens_tagged t then lstrip (skipn 7 t) else t.
Proof.
  unfold opens_tagged.
  destruct (starts_with fence t) eqn:Hs; cbn [andb].
  - apply starts_with_prefix in Hs. destruct Hs as [r ->].
    change (skipn 3 (fence ++ r)) with r.
    destruct (json_tag (firstn 4 r)) eqn:Ht.
    + destruct r as [|a [|b [|c [|d r]]]]; try discriminate Ht.
      change (fence ++ a :: b :: c :: d :: r) with (fence ++ [a; b; c; d] ++ r).
      now rewrite (sub_fence_json_tagged [a; b; c; d] r Ht).
    + unfold re_fence_json. rewrite re_sub_bol. change fence with [96; 96; 96].
      cbn [app]. rewrite !match_here_one. unfold is_chr, backtick.
      rewrite !N.eqb_refl.
      destruct r as [|a [|b [|c [|d r]]]];
        rewrite ?match_here_one, ?match_here_one_nil;
        repeat match goal with
               | |- context [if ?p ?x then _ else _] => destruct (p x) eqn:?
               end;
        rewrite ?match_here_one, ?match_here_one_nil; try reflexivity.
      cbn [firstn json_tag] in Ht.
      repeat match goal with H : ci _ _ _ _ = true |- _ => rewrite H in Ht; clear H end.
      discriminate Ht.
  - apply sub_fence_json_none.
    destruct t as [|c1 [|c2 [|c3 [|c4 t]]]]; auto.
Qed.

Lemma rstrip_idem (s : str) : rstrip (rstrip s) = rstrip s.
Proof. unfold rstrip. now rewrite rev_involutive, lstrip_idem. Qed.

Lemma ends_clean_rstrip (s : str) : ends_clean (rstrip s).
Proof.
  intros pre c H.
  assert (E : lstrip (rev (rstrip s)) = rev (rstrip s)).
  { unfold rstrip. rewrite rev_involutive. apply lstrip_idem. }
  rewrite H, rev_app_distr in E. cbn [rev app] in E.
  exact (lstrip_nonspace _ _ _ E).
Qed.

(** On a trimmed text the closing pattern deletes the closing marker and
    the whitespace before it, and nothing else. *)
Lemma strip_sub_close (t : str) :
  trimmed t ->
  strip (re_sub_empty re_fence_close t) =
  strip (if ends_with fence t then firstn (List.length t - 3) t else t).
Proof.
  intros Ht. destruct (ends_with fence t) eqn:He.
  - apply ends_with_suffix in He. destruct He as [pre ->].
    assert (L : (List.length (pre ++ fence) - 3)%nat = List.length pre)
      by (rewrite length_app; cbn; lia).
    rewrite L, firstn_app, Nat.sub_diag, firstn_all. cbn [firstn]. rewrite app_nil_r.
    destruct (rstrip_split pre) as [ws [Hws Hp]].
    unfold re_sub_empty.
    rewrite Hp at 1. rewrite <- app_assoc.
    rewrite (sub_close_fence (rstrip pre) ws (ends_clean_rstrip pre) Hws).
    assert (Hl : lstrip pre = pre).
    { destruct pre as [|c pre]; [reflexivity|].
      apply lstrip_head. exact (trimmed_first _ c (pre ++ fence) Ht eq_refl). }
    unfold strip. rewrite Hl.
    destruct pre as [|c pre]; [reflexivity|].
    pose proof (trimmed_first _ c (pre ++ fence) Ht eq_refl) as Hc.
    rewrite (rstrip_cons c pre Hc).
    rewrite (lstrip_head c _ Hc). rewrite <- (rstrip_cons c pre Hc).
    apply rstrip_idem.
  - unfold re_sub_empty. rewrite sub_close_none; [reflexivity| |].
    + intros pre H. assert (X : ends_with fence t = true)
        by (apply ends_with_suffix; now exists pre). congruence.
    + intros pre H. rewrite app_assoc in H.
      pose proof (trimmed_last t 10 _ Ht H) as Hsp. discriminate.
Qed.

(** The three substitutions of the source remove the fence markers, and
    only them. *)
Lemma remove_fences_unfenced (t : str) : remove_fences t = unfenced t.
Proof.
  unfold remove_fences, unfenced.
  rewrite sub_fence_json.
  assert (E1 : strip (if opens_tagged t then lstrip (skipn 7 t) else t) =
               strip (if opens_tagged t then skipn 7 t else t))
    by (destruct (opens_tagged t); [apply strip_lstrip | reflexivity]).
  rewrite E1. set (t1 := strip (if opens_tagged t then skipn 7 t else t)).
  rewrite sub_fence_open.
  assert (E2 : strip (if starts_with fence t1 then lstrip (skipn 3 t1) else t1) =
               strip (if starts_with fence t1 then skipn 3 t1 else t1))
    by (destruct (starts_with fence t1); [apply strip_lstrip | reflexivity]).
  rewrite E2. set (t2 := strip (if starts_with fence t1 then skipn 3 t1 else t1)).
  apply strip_sub_close. apply trimmed_strip.
Qed.

(** A fenced block around a trimmed text that starts with neither a
    backtick nor a j: without its markers it is the text. *)
Lemma unfenced_block (tag a b : str) (c : char) (u : str) :
  json_tag tag = true \/ tag = [] ->
  all_space a -> all_space b ->
  trimmed (c :: u) -> c <> 96 -> ci 106 74 [] c = false ->
  unfenced (fenced tag a (c :: u) b) = c :: u.
Proof.
  intros. rewrite <- remove_fences_unfenced. unfold fenced.
  now apply remove_fences_fenced.
Qed.

(** A trimmed text that neither starts nor ends with the marker has none
    to lose. *)
Lemma unfenced_plain (u : str) :
  trimmed u -> starts_with fence u = false -> ends_with fence u = false ->
  unfenced u = u.
Proof. intros. rewrite <- remove_fences_unfenced. now apply remove_fences_plain. Qed.

(** C4, as the code has it.  When both decoding attempts fail, the
    normalizer returns the fallback object whose [raw] value is the input
    trimmed and without its fence markers: the opening marker, with its tag
    [json] if it has one, and the closing marker are dropped, and the text
    is trimmed after each.  For a fenced block that is the text inside the
    block; for an input that, trimmed, neither starts nor ends with three
    backticks it is the trimmed input itself. *)
Theorem safe_json_fallback (s : str) :
  attempts_fail (unfenced (strip s)) ->
  _safe_json_from_text (PStr s) = Ok (raw_of (unfenced (strip s))) /\
  (forall (tag a b : str) (c : char) (u : str),
      strip s = fenced tag a (c :: u) b ->
      json_tag tag = true \/ tag = [] ->
      all_space a -> all_space b ->
      trimmed (c :: u) -> c <> 96 -> ci 106 74 [] c = false ->
      _safe_json_from_text (PStr s) = Ok (raw_of (c :: u))) /\
  (starts_with fence (strip s) = false -> ends_with fence (strip s) = false ->
   _safe_json_from_text (PStr s) = Ok (raw_of (strip s))).
Proof.
  intros H.
  assert (E : _safe_json_from_text (PStr s) = Ok (raw_of (unfenced (strip s)))).
  { rewrite <- remove_fences_unfenced in H |- *. destruct H as [H1 H2].
    rewrite safe_json_unfold. cbv zeta.
    destruct (json_loads (remove_fences (strip s))) as [v|e] eqn:E1;
      [exfalso; exact (H1 v eq_refl)|].
    cbn [try_except].
    destruct (re_search re_braces (remove_fences (strip s))) as [m|] eqn:E2;
      [|reflexivity].
    destruct (json_loads m) as [v|e'] eqn:E3; [|reflexivity].
    exfalso. exact (H2 m v eq_refl E3). }
  split; [exact E|]. split.
  - intros tag a b c u Hs Htag Ha Hb Ht Hc Hj.
    rewrite E, Hs. now rewrite unfenced_block.
  - intros Hs He. rewrite E.
    now rewrite (unfenced_plain (strip s) (trimmed_strip s) Hs He).
Qed.

(** Whitespace around a trimmed text is what [strip] removes. *)
Lemma strip_padded (o1 o2 : str) (c : char) (u : str) :
  all_space o1 -> all_space o2 -> trimmed (c :: u) ->
  strip (o1 ++ (c :: u) ++ o2) = c :: u.
Proof.
  intros H1 H2 Ht. unfold strip.
  rewrite lstrip_spaces by assumption.
  pose proof (trimmed_first (c :: u) c u Ht eq_refl) as Hc.
  cbn [app]. rewrite lstrip_head by assumption.
  change (c :: u ++ o2) with ((c :: u) ++ o2).
  rewrite rstrip_spaces by assumption. now apply trimmed_rstrip.
Qed.

(** C7.  For a text [t] that decodes as JSON, and so for every clean JSON
    object text, the normalizer gives the same result on [t] inside a
    fenced block, tagged [json] in any case or not tagged, as on [t]
    itself: the value [t] decodes to.  Whitespace may stand between the
    fences and the text ([a], [b]) and around the block ([o1], [o2]). *)
Theorem safe_json_fenced (t tag a b o1 o2 : str) (v : pyval) :
  json_loads t = Ok v ->
  json_tag tag = true \/ tag = [] ->
  all_space a -> all_space b -> all_space o1 -> all_space o2 ->
  _safe_json_from_text (PStr (o1 ++ fenced tag a t b ++ o2)) =
  _safe_json_from_text (PStr t) /\
  _safe_json_from_text (PStr t) = Ok v.
Proof.
  intros Hv Htag Ha Hb Ho1 Ho2.
  pose proof (json_loads_strip t v Hv) as Hu.
  pose proof (trimmed_strip t) as Htr.
  destruct (strip_split t) as [wa [wb [Hwa [Hwb Ht]]]].
  destruct (strip t) as [|c u] eqn:Es; [discriminate|].
  destruct (json_loads_first c u v Hu) as [Hc Hj].
  assert (Direct : _safe_json_from_text (PStr t) = Ok v).
  { rewrite safe_json_unfold, Es. cbv zeta.
    rewrite remove_fences_plain; try assumption.
    - now rewrite Hu.
    - change fence with [96; 96; 96]. cbn [starts_with].
      apply N.eqb_neq in Hc. rewrite N.eqb_sym in Hc. now rewrite Hc.
    - destruct (ends_with fence (c :: u)) eqn:E; [|reflexivity].
      apply ends_with_suffix in E as [pre E]. exfalso.
      apply (json_loads_last (pre ++ [96; 96]) v).
      rewrite <- app_assoc. change ([96; 96] ++ [96]) with fence.
      now rewrite <- E. }
  split; [|exact Direct]. rewrite Direct.
  assert (W : fenced tag a t b = fence ++ tag ++ (a ++ wa) ++ (c :: u) ++ (wb ++ b) ++ fence).
  { unfold fenced. rewrite Ht. now rewrite <- !app_assoc. }
  assert (Hw : trimmed (fenced tag a t b)).
  { apply (trimmed_wrap 96 ([96; 96] ++ tag ++ a ++ t ++ b ++ [96; 96]) 96);
      try reflexivity.
    unfold fenced. change fence with [96; 96; 96]. now flatten_apps. }
  assert (Hs : strip (o1 ++ fenced tag a t b ++ o2) = fenced tag a t b).
  { assert (E : fenced tag a t b = 96 :: ([96; 96] ++ tag ++ a ++ t ++ b ++ fence))
      by reflexivity.
    rewrite E in Hw |- *. now apply strip_padded. }
  rewrite safe_json_unfold, Hs. cbv zeta.
  rewrite W, remove_fences_fenced; try assumption.
  - now rewrite Hu.
  - now apply all_space_app.
  - now apply all_space_app.
Qed.

Example safe_json_array :
  _safe_json_from_text (PStr (lit "[1, 2]")) = Ok (PList [PInt 1; PInt 2]).
Proof. reflexivity. Qed.

(** C2, as the claim states it, fails: an object with a key of its own is
    returned as it is, and that key is outside the vocabulary.  (A text
    that is not an object, as in [safe_json_array], is not even returned as
    a mapping.) *)
Lemma normalizer_keeps_foreign_keys :
  ~ (forall (s : str) (v : pyval),
       _safe_json_from_text (PStr s) = Ok v -> vocabulary_or_raw v).
Proof.
  intros H.
  destruct (H foreign_json (PDict [(lit "subject", PStr (lit "cat"))]) eq_refl)
    as [d [Hd Hcases]].
  inversion Hd; subst d. destruct Hcases as [Hk | [r Hr]].
  - specialize (Hk (lit "subject") _ (or_introl eq_refl)).
    repeat (destruct Hk as [E | Hk]; [vm_compute in E; discriminate E|]).
    destruct Hk.
  - discriminate Hr.
Qed.

Lemma prose_attempts_fail (t : str) :
  json_loads t = Raise json_error ->
  re_search re_braces t = None ->
  attempts_fail t.
Proof.
  intros H1 H2. split.
  - intros v. rewrite H1. discriminate.
  - intros m v. rewrite H2. discriminate.
Qed.

(** C4 at an answer in a fenced block and at an answer in plain prose. *)
Lemma safe_json_fallback_witness :
  _safe_json_from_text (PStr fenced_prose) = Ok (raw_of (lit "a cat on a sofa")) /\
  _safe_json_from_text (PStr (lit "  a cat on a sofa ")) =
  Ok (raw_of (lit "a cat on a sofa")).
Proof.
  split.
  - apply (proj1 (proj2 (safe_json_fallback fenced_prose
                           (prose_attempts_fail (lit "a cat on a sofa") eq_refl eq_refl)))
             (lit "json") nl nl 97 (lit " cat on a sofa")).
    + reflexivity.
    + left. reflexivity.
    + repeat constructor.
    + repeat constructor.
    + split; reflexivity.
    + discriminate.
    + reflexivity.
  - exact (proj2 (proj2 (safe_json_fallback (lit "  a cat on a sofa ")
                           (prose_attempts_fail (lit "a cat on a sofa") eq_refl eq_refl)))
             eq_refl eq_refl).
Defined.

(** C4, as the claim states it, fails: prose in a fenced block is returned
    without its fences, not as the trimmed input. *)
Lemma fallback_drops_fences :
  ~ (forall s : str,
       attempts_fail (remove_fences (strip s)) ->
       _safe_json_from_text (PStr s) = Ok (raw_of (strip s))).
Proof.
  intros H. specialize (H fenced_prose).
  assert (E : _safe_json_from_text (PStr fenced_prose) =
              Ok (raw_of (lit "a cat on a sofa"))) by reflexivity.
  rewrite E in H.
  assert (D : Ok (raw_of (lit "a cat on a sofa")) = Ok (raw_of (strip fenced_prose)) -> False)
    by (vm_compute; discriminate).
  apply D, H.
  exact (prose_attempts_fail (lit "a cat on a sofa") eq_refl eq_refl).
Qed.

(** C7 at an object in a block tagged [JSON], with a final newline. *)
Lemma safe_json_fenced_witness :
  _safe_json_from_text (PStr ([] ++ fenced (lit "JSON") nl clean_json nl ++ nl)) =
  _safe_json_from_text (PStr clean_json) /\
  _safe_json_from_text (PStr clean_json) =
  Ok (PDict [(lit "primary_subject", PStr (lit "cat"));
             (lit "color_palette", PStr (lit "brown"))]).
Proof.
  apply (safe_json_fenced clean_json (lit "JSON") nl nl [] nl).
  - reflexivity.
  - left. reflexivity.
  - repeat constructor.
  - repeat constructor.
  - constructor.
  - repeat constructor.
Defined.

(** ** The image-payload adapter *)

Lemma data_url_like_test (s : str) :
  char_in comma s && str_in (lit "base64") (firstn 60 s) = true <-> data_url_like s.
Proof.
  unfold data_url_like. now rewrite andb_true_iff, char_in_In, str_in_occurs.
Qed.

(** C10.  On a string [s], [_to_b64_payload] returns what follows the first
    comma of [s] exactly when [s] has a comma and ["base64"] occurs within
    its first 60 characters, and [s] itself in every other case.  The
    function is total: nothing in it can raise on a string. *)
Theorem to_b64_payload_spec (w : World) (s : str) :
  (data_url_like s /\
   exists a b, s = a ++ comma :: b /\ ~ In comma a /\ _to_b64_payload w (PStr s) = b)
  \/
  (~ data_url_like s /\ _to_b64_payload w (PStr s) = s).
Proof.
  unfold _to_b64_payload. cbn [py_str].
  destruct (char_in comma s && str_in (lit "base64") (firstn 60 s)) eqn:E.
  - left. apply data_url_like_test in E. split; [assumption|].
    destruct E as [Hc _].
    destruct (split1_last_first comma s Hc) as [a [b [Hs [Hn Hb]]]].
    exists a, b. repeat split; try assumption.
    unfold split_once_last. apply char_in_In in Hc. now rewrite Hc.
  - right. split; [|reflexivity].
    intros H. apply data_url_like_test in H. congruence.
Qed.

(** ** The stage runner: input check *)

Lemma pipe_few_images (w : World) (valves : Valves) (body : pyval)
    (u : str) (images : pyval) (n : nat) :
  _extract_user_instruction_and_images body = Ok (u, images) ->
  py_len images = Ok n ->
  (n < 2)%nat ->
  run_pipe w valves body = ([Yield insufficient_input], Ok tt).
Proof.
  intros Hx Hlen Hn.
  unfold run_pipe, pipe, bind, lift. rewrite Hx, Hlen.
  apply Nat.ltb_lt in Hn. now rewrite Hn.
Qed.

(** C8.  When the extractor finds no image or one image in the latest turn,
    a run yields the one message asking for two images and returns: the
    trace holds nothing else, so neither the vision service, nor the
    generation service, nor storage was called. *)
Theorem pipe_insufficient_input (w : World) (valves : Valves) (body : pyval)
    (u : str) (images : pyval) (n : nat) :
  _extract_user_instruction_and_images body = Ok (u, images) ->
  py_len images = Ok n ->
  n = 0%nat \/ n = 1%nat ->
  run_pipe w valves body = ([Yield insufficient_input], Ok tt).
Proof.
  intros Hx Hlen Hn.
  apply (pipe_few_images w valves body u images n Hx Hlen).
  destruct Hn; subst; lia.
Qed.

(** C9, as the code has it.  When the latest message has an [images] entry
    whose value is falsy ([None], an empty list) and the text of the message
    can be gathered (the [# Text] block returns [ui], and [ui.strip()]
    returns), the extractor returns an empty list of images whatever the
    content list holds, and the run ends with the request for two images. *)
Theorem empty_images_field_is_final (w : World) (valves : Valves)
    (b m : pydict) (msgs content x ui : pyval) (u : str) :
  dict_get (lit "messages") b = Some msgs ->
  truthy msgs = true ->
  py_last msgs = Ok (PDict m) ->
  py_get (PDict m) "content" (PStr []) = Ok content ->
  dict_get (lit "images") m = Some x ->
  truthy x = false ->
  instruction_of content = Ok ui ->
  py_strip ui = Ok u ->
  _extract_user_instruction_and_images (PDict b) = Ok (u, PList []) /\
  run_pipe w valves (PDict b) = ([Yield insufficient_input], Ok tt).
Proof.
  intros Hm Ht Hl Hc Hi Hx Hui Hu.
  assert (E : _extract_user_instruction_and_images (PDict b) = Ok (u, PList [])).
  { unfold _extract_user_instruction_and_images.
    cbn [py_get rbind]. rewrite Hm, Ht. cbn [negb].
    rewrite Hl. cbn [rbind]. rewrite Hc. cbn [rbind]. rewrite Hui. cbn [rbind].
    unfold images_of. cbn [py_contains py_getitem rbind]. unfold dict_mem.
    rewrite Hi. cbn [rbind]. unfold py_or. rewrite Hx. cbn [rbind].
    rewrite Hu. reflexivity. }
  split; [exact E|].
  apply (pipe_few_images w valves (PDict b) u (PList []) 0%nat E); [reflexivity | lia].
Qed.

(** C8 at a request with one image, with no collaborator in reach. *)
Lemma pipe_insufficient_input_witness :
  run_pipe offline_world default_valves body_one_image =
  ([Yield insufficient_input], Ok tt).
Proof.
  apply (pipe_insufficient_input offline_world default_valves body_one_image
           (lit "morph") (PList [PStr (lit "AAAA")]) 1%nat).
  - reflexivity.
  - reflexivity.
  - right. reflexivity.
Defined.

(** C9 at a request with two image items and an empty [images] field. *)
Lemma empty_images_field_is_final_witness :
  _extract_user_instruction_and_images body_empty_images_field = Ok ([], PList []) /\
  run_pipe offline_world default_valves body_empty_images_field =
  ([Yield insufficient_input], Ok tt).
Proof.
  eapply (empty_images_field_is_final offline_world default_valves);
    try reflexivity.
Defined.

(** C9, as the claim states it, fails: an empty [images] field and two
    image items do not suffice for the request for two images.  The text of
    the message is gathered before the images are looked at, and a text item
    whose text is [None] makes [user_instruction += item.get("text", "")]
    raise [TypeError]: the run ends with that exception and has yielded
    nothing. *)
Lemma empty_images_field_text_may_raise :
  run_pipe offline_world default_valves body_empty_images_null_text =
    ([], Raise (mk_exn TypeError (dq "can only concatenate str (not 'NoneType') to str"))) /\
  ~ (forall (w : World) (valves : Valves) (b m : pydict) (msgs content x : pyval),
        dict_get (lit "messages") b = Some msgs ->
        truthy msgs = true ->
        py_last msgs = Ok (PDict m) ->
        py_get (PDict m) "content" (PStr []) = Ok content ->
        dict_get (lit "images") m = Some x ->
        truthy x = false ->
        run_pipe w valves (PDict b) = ([Yield insufficient_input], Ok tt)).
Proof.
  assert (E : run_pipe offline_world default_valves body_empty_images_null_text =
              ([], Raise (mk_exn TypeError
                            (dq "can only concatenate str (not 'NoneType') to str"))))
    by (vm_compute; reflexivity).
  split; [exact E|].
  intros H.
  unfold body_empty_images_null_text, user_message in E.
  erewrite H in E; try reflexivity.
  discriminate E.
Qed.

(** ** The stage runner: what the top-level handler covers *)

(** Once the extractor has returned and the images have been counted, a run
    never raises: every exception of the four phases is caught by the
    handler of [pipe]. *)
Lemma pipe_guarded (w : World) (valves : Valves) (body : pyval)
    (u : str) (images : pyval) (n : nat) :
  _extract_user_instruction_and_images body = Ok (u, images) ->
  py_len images = Ok n ->
  exists tr, run_pipe w valves body = (tr, Ok tt).
Proof.
  intros Hx Hlen. unfold run_pipe, pipe, bind, lift. rewrite Hx, Hlen.
  destruct (n <? 2)%nat.
  - eexists. reflexivity.
  - unfold try_catch. destruct (stages w valves u images []) as [tr [[]|e]].
    + eexists. reflexivity.
    + eexists. reflexivity.
Qed.

(** C1 (the code departs from the claim).  The extractor runs before the
    [try] of [pipe]: on a request whose image item has no [image_url] entry
    it raises [KeyError], and the run ends with that exception, having
    yielded nothing, in every world. *)
Theorem pipe_extraction_error_escapes (w : World) (valves : Valves) :
  run_pipe w valves body_image_item_without_url = ([], Raise (key_error "image_url")).
Proof. reflexivity. Qed.

(** ** The storing stage *)

(** When the loop over the candidates completes, it has added one link per
    candidate that carries a payload or a URL, and none for the others. *)
Lemma store_all_links (w : World) (valves : Valves) (ts : str) (items : list pyval) :
  forall (idx : nat) (out : list pyval) (tr tr' : trace) (links : list pyval),
  store_all w valves ts idx items out tr = (tr', Ok links) ->
  exists kept, links = out ++ kept /\ List.length kept = List.length (usable items).
Proof.
  induction items as [|item rest IH]; intros idx out tr tr' links H.
  - cbn in H. inversion H; subst. exists []. now rewrite app_nil_r.
  - cbn [store_all] in H. unfold bind at 1 in H. unfold lift at 1 in H.
    unfold usable. cbn [filter]. unfold carries_nothing at 1.
    destruct (py_get item "b64_json" PNone) as [b|e] eqn:Eb; [|discriminate].
    destruct (truthy b) eqn:Tb; cbn [negb] in H |- *.
    + (* an inline payload: decoded and stored *)
      unfold bind at 1 in H. unfold lift at 1 in H.
      destruct (match b with PStr s => Ok (re_sub_empty re_blank s) | _ => _ end)
        as [cleaned|e]; [|discriminate].
      unfold bind at 1 in H. unfold lift at 1 in H.
      destruct (b64decode w cleaned) as [data|e]; [|discriminate].
      unfold bind at 1 in H.
      destruct (_store_image_bytes w valves data _ tr) as [tr1 [url|e]]; [|discriminate].
      destruct (IH _ _ _ _ _ H) as [kept [Hl Hn]].
      exists (PStr url :: kept). split.
      * now rewrite Hl, <- app_assoc.
      * destruct (py_get item "url" PNone); cbn [negb andb List.length];
          f_equal; exact Hn.
    + (* no payload: the URL, if any *)
      unfold bind at 1 in H. unfold lift at 1 in H.
      destruct (py_get item "url" PNone) as [u|e] eqn:Eu; [|discriminate].
      destruct (IH _ _ _ _ _ H) as [kept [Hl Hn]].
      destruct (truthy u) eqn:Tu; cbn [negb andb].
      * exists (u :: kept). split; [now rewrite Hl, <- app_assoc|].
        cbn [List.length]. f_equal. exact Hn.
      * exists kept. split; assumption.
Qed.

Lemma pipe_reaches_storing (w : World) (valves : Valves) (body : pyval)
    (u : str) (images : pyval) (n : nat) (tr1 : trace)
    (prompt : str) (gen_resp data_list : pyval) (items : list pyval) :
  _extract_user_instruction_and_images body = Ok (u, images) ->
  py_len images = Ok n ->
  (2 <= n)%nat ->
  prepare w valves u images [] = (tr1, Ok (prompt, gen_resp, data_list)) ->
  truthy data_list = true ->
  py_iter data_list = Ok items ->
  run_pipe w valves body =
  let tr := tr1 ++ [Yield saving] in
  match store_all w valves (strftime_now w tr) 1 items [] tr with
  | (tr2, Raise e) => (tr2 ++ [Yield (pipeline_error e)], Ok tt)
  | (tr2, Ok []) => (tr2 ++ [Yield storage_failure], Ok tt)
  | (tr2, Ok links) => (tr2 ++ [Yield (gallery w valves prompt links)], Ok tt)
  end.
Proof.
  intros Hx Hlen Hn Hp Ht Hi.
  unfold run_pipe, pipe, bind, lift. rewrite Hx, Hlen.
  assert (E : (n <? 2)%nat = false) by (apply Nat.ltb_ge; lia). rewrite E.
  unfold try_catch, stages. unfold bind at 1. rewrite Hp, Ht. cbn [negb].
  unfold storing, bind, yield, emit, now, lift. cbn [app]. rewrite Hi.
  destruct (store_all w valves _ 1 items [] (tr1 ++ [Yield saving])) as [tr2 [[|l ls]|e]];
    reflexivity.
Qed.

(** C3, as the claim states it, fails: with two candidates of which the
    first is decoded and stored and the second has a payload that does not
    decode, the run stores the first file and then ends with the message of
    the top-level handler; no gallery is yielded. *)
Lemma partial_storage_failure_aborts :
  stored (fst (run_pipe (studio_world (candidates [inline "QUJD"; inline "QUJ"]))
                 default_valves body_two_images)) =
    [lit "/app/static/morphs/morph_20260206_101500_000000_01.png"] /\
  yielded (fst (run_pipe (studio_world (candidates [inline "QUJD"; inline "QUJ"]))
                  default_valves body_two_images)) =
    [lit "STAGED: Analyzing image 1..."; lit "STAGED: Analyzing image 2...";
     lit "STAGED: Generating candidates..."; saving;
     nl ++ lit "Pipeline error: Incorrect padding"].
Proof. vm_compute. split; reflexivity. Qed.

(** ** The trait compactor *)

Lemma fallback_form_test (d : pydict) :
  fallback_form d <->
  exists r, dict_get raw_key d = Some r /\ Nat.eqb (List.length d) 1 = true.
Proof.
  split.
  - intros [r ->]. exists r. split; reflexivity.
  - intros [r [Hg Hl]]. destruct d as [|[k v] [|? ?]]; cbn [dict_get List.length Nat.eqb] in Hg, Hl; try discriminate.
    destruct (str_eqb raw_key k) eqn:E; [|discriminate].
    apply str_eqb_eq in E. subst. now exists v.
Qed.

(** Outside the fallback form the result is the ordered line, or the
    serialization when the line has no segment. *)
Lemma compact_not_fallback (w : World) (d : pydict) :
  ~ fallback_form d ->
  _traits_to_compact_line w (PDict d) =
  match flat_map (trait_part w d) keys_order with
  | [] => PStr (json_dumps w false (PDict d))
  | parts => PStr (join (lit "; ") parts)
  end.
Proof.
  intros Hnf. unfold _traits_to_compact_line.
  destruct (dict_get raw_key d) as [r|] eqn:Er; [|reflexivity].
  destruct (Nat.eqb (List.length d) 1) eqn:El; [|reflexivity].
  exfalso. apply Hnf. apply fallback_form_test. now exists r.
Qed.

Lemma trait_parts_segments (w : World) (d : pydict) (m : traitset) (keys : list str) :
  (forall k, In k keys -> dict_get k d = option_map PStr (m k)) ->
  flat_map (trait_part w d) keys = segments_of m keys.
Proof.
  induction keys as [|k keys IH]; intros H; [reflexivity|].
  cbn [flat_map segments_of]. fold (segments_of m keys).
  rewrite IH by (intros k' Hk'; apply H; now right).
  f_equal. unfold trait_part. rewrite (H k) by now left.
  destruct (m k) as [[|c v]|]; reflexivity.
Qed.

Lemma segments_of_nonempty (m : traitset) (keys : list str) (k : str) (c : char) (v : str) :
  In k keys -> m k = Some (c :: v) -> segments_of m keys <> [].
Proof.
  induction keys as [|k' keys IH]; intros Hin Hm; [destruct Hin|].
  cbn [segments_of flat_map]. destruct Hin as [-> | Hin].
  - rewrite Hm. discriminate.
  - fold (segments_of m keys). intros E. apply app_eq_nil in E as [_ E].
    now apply (IH Hin Hm).
Qed.

(** C5, as the code has it.  For a TraitSet that is not in fallback form
    and has at least one vocabulary key with a non-empty value, the
    compactor returns the segments [key: value] of the vocabulary keys that
    are present with a non-empty value, underscores of the key rendered as
    spaces, in the order of the vocabulary, joined with ["; "].  The line is
    a function of the mapping alone: the order of the dictionary's entries
    does not enter. *)
Theorem compact_line_canonical (w : World) (d : pydict) (m : traitset)
    (k : str) (c : char) (v : str) :
  represents d m ->
  ~ fallback_form d ->
  In k keys_order ->
  m k = Some (c :: v) ->
  _traits_to_compact_line w (PDict d) = PStr (canonical_line m).
Proof.
  intros Hr Hnf Hk Hm.
  rewrite compact_not_fallback by assumption.
  rewrite (trait_parts_segments w d m keys_order Hr).
  unfold canonical_line.
  pose proof (segments_of_nonempty m keys_order k c v Hk Hm) as Hne.
  destruct (segments_of m keys_order); [congruence | reflexivity].
Qed.

Lemma trait_parts_none (w : World) (d : pydict) (keys : list str) :
  (forall k v, In k keys -> dict_get k d = Some v -> truthy v = false) ->
  flat_map (trait_part w d) keys = [].
Proof.
  induction keys as [|k keys IH]; intros H; [reflexivity|].
  cbn [flat_map]. rewrite IH by (intros k' v' Hk'; apply H; now right).
  rewrite app_nil_r. unfold trait_part.
  destruct (dict_get k d) as [v|] eqn:E; [|reflexivity].
  now rewrite (H k v (or_introl eq_refl) E).
Qed.

(** C6, as the code has it.  For a mapping that is not in fallback form and
    has no vocabulary key with a non-empty value, the compactor returns
    [json.dumps] of the whole mapping: its members, rendered as
    ["key": value], in the order in which the dictionary holds them. *)
Theorem compact_serializes_in_insertion_order (w : World) (d : pydict) :
  ~ fallback_form d ->
  no_traits d ->
  _traits_to_compact_line w (PDict d) =
  PStr (lit "{" ++
        join (lit ", ")
          (map (fun kv => json_string false (fst kv) ++ lit ": " ++
                          json_dumps w false (snd kv)) d) ++
        lit "}").
Proof.
  intros Hnf Hnt.
  rewrite compact_not_fallback by assumption.
  now rewrite (trait_parts_none w d keys_order Hnt).
Qed.

(** C5 at traits entered out of order, one of them empty. *)
Lemma compact_line_canonical_witness :
  _traits_to_compact_line offline_world (PDict scrambled_traits) =
  PStr (lit "primary subject: cat; style: photo").
Proof.
  apply (compact_line_canonical offline_world scrambled_traits scrambled_traitset
           (lit "style") 112 (lit "hoto")).
  - intros k Hk. each_key Hk.
  - intros [r Hr]. discriminate Hr.
  - unfold keys_order. simpl. tauto.
  - reflexivity.
Defined.

(** C5, as the claim states it, fails on the empty mapping: no vocabulary
    key is present, the line of segments is empty, and the compactor
    returns the serialization [{}]. *)
Lemma compact_empty_mapping_is_serialized :
  ~ (forall (w : World) (d : pydict) (m : traitset),
       represents d m -> ~ fallback_form d ->
       _traits_to_compact_line w (PDict d) = PStr (canonical_line m)).
Proof.
  intros H.
  specialize (H offline_world [] (fun _ => None)).
  assert (E : _traits_to_compact_line offline_world (PDict []) = PStr (lit "{}"))
    by reflexivity.
  rewrite E in H.
  assert (D : PStr (lit "{}") = PStr (canonical_line (fun _ => None)) -> False)
    by (vm_compute; discriminate).
  apply D, H.
  - intros k _. reflexivity.
  - intros [r Hr]. discriminate Hr.
Qed.

(** C6 at an answer under keys outside the vocabulary. *)
Lemma compact_serializes_in_insertion_order_witness :
  _traits_to_compact_line offline_world (PDict foreign_traits) =
  PStr (dq "{'subject': 'cat', 'colors': 'brown'}").
Proof.
  apply (compact_serializes_in_insertion_order offline_world foreign_traits).
  - intros [r Hr]. discriminate Hr.
  - intros k v Hk. each_key Hk.
Defined.

(** C6, as the claim states it, fails: two mappings with the same keys and
    values, entered in different orders, are serialized differently. *)
Lemma compact_serialization_depends_on_order :
  ~ (forall (w : World) (d1 d2 : pydict),
       ~ fallback_form d1 -> ~ fallback_form d2 ->
       no_traits d1 -> no_traits d2 ->
       same_items d1 d2 ->
       _traits_to_compact_line w (PDict d1) = _traits_to_compact_line w (PDict d2)).
Proof.
  intros H.
  specialize (H offline_world foreign_traits foreign_traits_swapped).
  assert (D : _traits_to_compact_line offline_world (PDict foreign_traits) =
              _traits_to_compact_line offline_world (PDict foreign_traits_swapped) -> False)
    by (vm_compute; discriminate).
  apply D, H.
  - intros [r Hr]. discriminate Hr.
  - intros [r Hr]. discriminate Hr.
  - intros k v Hk. each_key Hk.
  - intros k v Hk. each_key Hk.
  - intros k. unfold foreign_traits, foreign_traits_swapped. cbn [dict_get].
    destruct (str_eqb k (lit "subject")) eqn:E1;
      destruct (str_eqb k (lit "colors")) eqn:E2; try reflexivity.
    apply str_eqb_eq in E1, E2. subst. discriminate E2.
Qed.

(** * Further properties *)

(** ** Generator bodies *)

Lemma bind_inv {A B} (m : M A) (k : A -> M B) (tr tr' : trace) (r : result B) :
  bind m k tr = (tr', r) ->
  (exists e, m tr = (tr', Raise e) /\ r = Raise e) \/
  (exists a tr1, m tr = (tr1, Ok a) /\ k a tr1 = (tr', r)).
Proof.
  unfold bind. destruct (m tr) as [tr1 [a|e]]; intros H.
  - right. now exists a, tr1.
  - left. inversion H; subst. now exists e.
Qed.

Lemma bind_ok {A B} (m : M A) (k : A -> M B) (tr tr' : trace) (b : B) :
  bind m k tr = (tr', Ok b) ->
  exists a tr1, m tr = (tr1, Ok a) /\ k a tr1 = (tr', Ok b).
Proof.
  intros H. apply bind_inv in H as [[e [_ H]] | H]; [discriminate | exact H].
Qed.

Lemma lift_ok {A} (r : result A) (tr tr' : trace) (a : A) :
  lift r tr = (tr', Ok a) -> r = Ok a /\ tr' = tr.
Proof. unfold lift. intros H. inversion H; subst. now split. Qed.

Lemma stored_app (a b : trace) : stored (a ++ b) = stored a ++ stored b.
Proof.
  induction a as [|e a IH]; [reflexivity|].
  destruct e; cbn [app stored]; rewrite IH; reflexivity.
Qed.

Lemma quiet_ret {A} (a : A) : quiet (ret a).
Proof. intros tr tr' r H. inversion H; subst. reflexivity. Qed.

Lemma quiet_lift {A} (x : result A) : quiet (lift x).
Proof. intros tr tr' r H. inversion H; subst. reflexivity. Qed.

Lemma quiet_yield (m : str) : quiet (yield m).
Proof.
  intros tr tr' r H. inversion H; subst. rewrite stored_app. cbn. apply app_nil_r.
Qed.

Lemma quiet_post {A} (url : str) (p : pyval) (t : N) (o : trace -> result A) :
  quiet (call (HttpPost url p t) o).
Proof.
  intros tr tr' r H. inversion H; subst. rewrite stored_app. cbn. apply app_nil_r.
Qed.

Lemma quiet_bind {A B} (m : M A) (k : A -> M B) :
  quiet m -> (forall a, quiet (k a)) -> quiet (bind m k).
Proof.
  intros Hm Hk tr tr' r H. apply bind_inv in H as [[e [H _]] | [a [tr1 [H1 H2]]]].
  - exact (Hm _ _ _ H).
  - rewrite (Hk a _ _ _ H2). exact (Hm _ _ _ H1).
Qed.

Ltac quiet_steps :=
  repeat first
    [ apply quiet_ret | apply quiet_lift | apply quiet_yield | apply quiet_post
    | apply quiet_bind; [| intros ?] ].

Lemma quiet_analyze (w : World) (valves : Valves) (i : nat) (img : pyval) :
  quiet (analyze w valves i img).
Proof. unfold analyze. quiet_steps. Qed.

Lemma quiet_analyze_all (w : World) (valves : Valves) (imgs : list pyval) :
  forall i traits, quiet (analyze_all w valves i imgs traits).
Proof.
  induction imgs as [|img imgs IH]; intros i traits; cbn [analyze_all].
  - apply quiet_ret.
  - apply quiet_bind; [apply quiet_analyze | intros t; apply IH].
Qed.

Lemma quiet_prepare (w : World) (valves : Valves) (u : str) (images : pyval) :
  quiet (prepare w valves u images).
Proof.
  unfold prepare.
  repeat first
    [ apply quiet_analyze_all | apply quiet_ret | apply quiet_lift | apply quiet_yield
    | apply quiet_post | apply quiet_bind; [| intros ?] ].
Qed.

Lemma bind_lift_ok {A B} (a : A) (k : A -> M B) (tr : trace) :
  bind (lift (Ok a)) k tr = k a tr.
Proof. reflexivity. Qed.

Lemma bind_raise {A B} (m : M A) (k : A -> M B) (tr tr' : trace) (e : exn) :
  m tr = (tr', Raise e) -> bind m k tr = (tr', Raise e).
Proof. intros H. unfold bind. now rewrite H. Qed.

(** ** The stage runner: the order of its calls *)

Lemma image_ref_ok (img : pyval) :
  match img with
  | PDict _ => py_get img "url" (PStr [])
  | _ => Ok img
  end = Ok (image_ref img).
Proof. destruct img; reflexivity. Qed.

(** One pass of phase 1, up to the answer of the vision service. *)
Lemma analyze_unfold (w : World) (valves : Valves) (i : nat) (img : pyval) (tr : trace) :
  analyze w valves i img tr =
  let tr1 := tr ++ [Yield (analyzing (i + 1)); vision_request w valves img] in
  match http_post w tr1 with
  | Raise e => (tr1, Raise e)
  | Ok r =>
      (tr1,
       let? resp := resp_json r in
       let? message := py_get resp "message" PNone in
       let? text := py_get (py_or message (PDict [])) "content" (PStr []) in
       _safe_json_from_text text)
  end.
Proof.
  unfold analyze, bind, yield, emit, call, lift. rewrite image_ref_ok.
  rewrite <- app_assoc. cbn [app]. unfold vision_request, analyzing.
  cbv zeta.
  destruct (http_post w _) as [r|e]; [|reflexivity].
  destruct (resp_json r) as [resp|e]; [|reflexivity]. cbn [rbind].
  destruct (py_get resp "message" PNone) as [message|e]; [|reflexivity]. cbn [rbind].
  destruct (py_get (py_or message (PDict [])) "content" (PStr [])) as [text|e];
    reflexivity.
Qed.

Lemma analyze_trace (w : World) (valves : Valves) (i : nat) (img : pyval)
    (tr tr' : trace) (r : result pyval) :
  analyze w valves i img tr = (tr', r) ->
  tr' = tr ++ [Yield (analyzing (i + 1)); vision_request w valves img].
Proof.
  rewrite analyze_unfold. cbv zeta.
  destruct (http_post w _); intros H; inversion H; reflexivity.
Qed.

(** X1.  A run that gets as far as the answer of the generation service has
    made exactly three calls, one after the other: the vision service for
    the first image, the vision service for the second image, and the
    generation service with the prompt built from the two answers.  Images
    after the second are not sent anywhere. *)
Theorem prepare_calls (w : World) (valves : Valves) (u : str)
    (a b : pyval) (rest : list pyval) (tr1 : trace)
    (prompt : str) (gen_resp data_list : pyval) :
  prepare w valves u (PList (a :: b :: rest)) [] = (tr1, Ok (prompt, gen_resp, data_list)) ->
  tr1 = [Yield (analyzing 1); vision_request w valves a;
         Yield (analyzing 2); vision_request w valves b;
         Yield generating; generation_request valves prompt].
Proof.
  unfold prepare. cbn [py_first_two firstn py_iter lift].
  intros H. apply bind_ok in H as [x [t0 [Hx H]]]. inversion Hx; subst x t0; clear Hx.
  apply bind_ok in H as [x [t0 [Hx H]]]. inversion Hx; subst x t0; clear Hx.
  apply bind_ok in H as [traits [t2 [Ha H]]].
  cbn [analyze_all] in Ha.
  apply bind_ok in Ha as [ta [ta1 [Ha1 Ha]]].
  apply bind_ok in Ha as [tb [tb1 [Hb1 Ha]]].
  inversion Ha; subst traits t2; clear Ha.
  apply analyze_trace in Ha1. apply analyze_trace in Hb1. subst ta1 tb1.
  cbn [app py_nth nth_error] in H.
  apply bind_ok in H as [x [t0 [Hx H]]]. inversion Hx; subst x t0; clear Hx.
  apply bind_ok in H as [x [t0 [Hx H]]]. inversion Hx; subst x t0; clear Hx.
  apply bind_ok in H as [[] [t0 [Hx H]]]. inversion Hx; subst t0; clear Hx.
  apply bind_ok in H as [r [t0 [Hx H]]].
  unfold call in Hx. inversion Hx as [[Ht Hr]]. clear Hx.
  apply bind_ok in H as [[] [t3 [Hx H]]]. apply lift_ok in Hx as [_ ->].
  apply bind_ok in H as [gr [t3 [Hx H]]]. apply lift_ok in Hx as [_ ->].
  apply bind_ok in H as [d [t3 [Hx H]]]. apply lift_ok in Hx as [_ ->].
  inversion H; subst. reflexivity.
Qed.

Lemma prepare_calls_witness :
  exists prompt,
    fst (prepare (studio_world (candidates [])) default_valves (lit "make it fluffy")
           (PList [PStr (lit "data:image/png;base64,AAAA"); PStr (lit "BBBB"); PStr (lit "CCCC")])
           []) =
    [Yield (analyzing 1);
     vision_request (studio_world (candidates [])) default_valves
       (PStr (lit "data:image/png;base64,AAAA"));
     Yield (analyzing 2);
     vision_request (studio_world (candidates [])) default_valves (PStr (lit "BBBB"));
     Yield generating; generation_request default_valves prompt].
Proof.
  eassert (Hp : prepare (studio_world (candidates [])) default_valves (lit "make it fluffy")
                  (PList [PStr (lit "data:image/png;base64,AAAA"); PStr (lit "BBBB");
                          PStr (lit "CCCC")]) [] = (_, Ok (_, _, _)))
    by (vm_compute; reflexivity).
  pose proof (prepare_calls _ _ _ _ _ _ _ _ _ _ Hp) as H.
  eexists. rewrite Hp. exact H.
Defined.

(** Phases 1 to 3 write nothing. *)
Lemma prepare_stores_nothing (w : World) (valves : Valves) (u : str) (images : pyval)
    (tr : trace) (r : result (str * pyval * pyval)) :
  prepare w valves u images [] = (tr, r) -> stored tr = [].
Proof. intros H. exact (quiet_prepare w valves u images [] tr r H). Qed.

(** X2.  When the generation service answers without candidates ([data]
    missing, empty or otherwise falsy), the run ends with the one message
    that quotes the first 1200 characters of its answer, and nothing has
    been written to storage. *)
Theorem no_candidates_is_terminal (w : World) (valves : Valves) (body : pyval)
    (u : str) (images : pyval) (n : nat) (tr1 : trace)
    (prompt : str) (gen_resp data_list : pyval) :
  _extract_user_instruction_and_images body = Ok (u, images) ->
  py_len images = Ok n ->
  (2 <= n)%nat ->
  prepare w valves u images [] = (tr1, Ok (prompt, gen_resp, data_list)) ->
  truthy data_list = false ->
  run_pipe w valves body = (tr1 ++ [Yield (no_images_returned w gen_resp)], Ok tt) /\
  stored (fst (run_pipe w valves body)) = [].
Proof.
  intros Hx Hlen Hn Hp Ht.
  assert (E : run_pipe w valves body =
              (tr1 ++ [Yield (no_images_returned w gen_resp)], Ok tt)).
  { unfold run_pipe, pipe, bind, lift. rewrite Hx, Hlen.
    assert (L : (n <? 2)%nat = false) by (apply Nat.ltb_ge; lia). rewrite L.
    unfold try_catch, stages. unfold bind at 1. rewrite Hp, Ht. reflexivity. }
  split; [exact E|]. rewrite E. cbn [fst]. rewrite stored_app.
  now rewrite (prepare_stores_nothing _ _ _ _ _ _ Hp).
Qed.

Lemma no_candidates_is_terminal_witness :
  stored (fst (run_pipe (studio_world (candidates [])) default_valves body_two_images)) = [].
Proof.
  eassert (Hp : prepare (studio_world (candidates [])) default_valves (lit "make it fluffy")
                  (PList [PStr (lit "data:image/png;base64,AAAA"); PStr (lit "BBBB")]) [] =
                (_, Ok (_, _, _))) by (vm_compute; reflexivity).
  exact (proj2 (no_candidates_is_terminal (studio_world (candidates [])) default_valves
                  body_two_images _ _ 2%nat _ _ _ _ eq_refl eq_refl (le_n 2) Hp eq_refl)).
Defined.

(** X3.  When the first call to the vision service fails, the run makes no
    other call and ends with the text of the failure. *)
Theorem vision_failure_is_terminal (w : World) (valves : Valves) (body : pyval)
    (u : str) (a b : pyval) (rest : list pyval) (e : exn) :
  _extract_user_instruction_and_images body = Ok (u, PList (a :: b :: rest)) ->
  http_post w [Yield (analyzing 1); vision_request w valves a] = Raise e ->
  run_pipe w valves body =
  ([Yield (analyzing 1); vision_request w valves a; Yield (pipeline_error e)], Ok tt).
Proof.
  intros Hx He.
  assert (P : stages w valves u (PList (a :: b :: rest)) [] =
              ([Yield (analyzing 1); vision_request w valves a], Raise e)).
  { unfold stages. apply bind_raise. unfold prepare.
    cbn [py_first_two firstn]. rewrite bind_lift_ok.
    cbn [py_iter]. rewrite bind_lift_ok.
    apply bind_raise. cbn [analyze_all]. apply bind_raise.
    rewrite analyze_unfold. cbv zeta. cbn [app Nat.add]. now rewrite He. }
  unfold run_pipe, pipe, bind, lift. rewrite Hx.
  cbn [py_len List.length Nat.ltb Nat.leb]. unfold try_catch. rewrite P. reflexivity.
Qed.

Lemma vision_failure_is_terminal_witness :
  run_pipe offline_world default_valves body_two_images =
  ([Yield (analyzing 1);
    vision_request offline_world default_valves (PStr (lit "data:image/png;base64,AAAA"));
    Yield (pipeline_error connection_refused)], Ok tt).
Proof.
  exact (vision_failure_is_terminal offline_world default_valves body_two_images
           (lit "make it fluffy") (PStr (lit "data:image/png;base64,AAAA"))
           (PStr (lit "BBBB")) [] connection_refused eq_refl eq_refl).
Defined.

(** X4.  Images after the second do not change a run: two requests that
    differ only in them give the same messages and the same calls. *)
Theorem extra_images_are_ignored (w : World) (valves : Valves) (body body' : pyval)
    (u : str) (a b : pyval) (rest : list pyval) :
  _extract_user_instruction_and_images body = Ok (u, PList (a :: b :: rest)) ->
  _extract_user_instruction_and_images body' = Ok (u, PList [a; b]) ->
  run_pipe w valves body = run_pipe w valves body'.
Proof.
  intros H H'. unfold run_pipe, pipe, bind at 1 3, lift at 1 3. rewrite H, H'.
  reflexivity.
Qed.

Lemma extra_images_are_ignored_witness :
  run_pipe offline_world default_valves body_three_images =
  run_pipe offline_world default_valves body_two_images.
Proof.
  exact (extra_images_are_ignored offline_world default_valves
           body_three_images body_two_images (lit "make it fluffy")
           (PStr (lit "data:image/png;base64,AAAA")) (PStr (lit "BBBB"))
           [PStr (lit "CCCC")] eq_refl eq_refl).
Defined.

(** X5.  A request without messages (no [messages] entry, or an empty or
    otherwise falsy one) is answered with the request for two images, and
    nothing else happens. *)
Theorem no_messages_is_insufficient (w : World) (valves : Valves) (b : pydict) :
  match dict_get (lit "messages") b with
  | Some m => truthy m = false
  | None => True
  end ->
  run_pipe w valves (PDict b) = ([Yield insufficient_input], Ok tt).
Proof.
  intros H.
  apply (pipe_few_images w valves (PDict b) [] (PList []) 0%nat); try reflexivity; [|lia].
  unfold _extract_user_instruction_and_images. cbn [py_get rbind].
  destruct (dict_get (lit "messages") b) as [m|]; [now rewrite H | reflexivity].
Qed.

Lemma no_messages_is_insufficient_witness :
  run_pipe offline_world default_valves (PDict [(lit "messages", PList [])]) =
  ([Yield insufficient_input], Ok tt).
Proof.
  exact (no_messages_is_insufficient offline_world default_valves
           [(lit "messages", PList [])] eq_refl).
Defined.

(** ** The stage runner: every run that returns ends with a message *)

Lemma yield_run (m : str) (tr tr' : trace) (r : result unit) :
  yield m tr = (tr', r) -> tr' = tr ++ [Yield m] /\ r = Ok tt.
Proof. intros H. inversion H. now split. Qed.

Lemma stages_end_with_message (w : World) (valves : Valves) (u : str) (images : pyval)
    (tr0 tr : trace) :
  stages w valves u images tr0 = (tr, Ok tt) ->
  exists tr' m, tr = tr' ++ [Yield m].
Proof.
  unfold stages. intros H.
  apply bind_ok in H as [[[prompt gr] dl] [tr1 [_ H]]].
  destruct (negb (truthy dl)).
  - apply yield_run in H as [-> _]. now eexists _, _.
  - unfold storing in H.
    apply bind_ok in H as [[] [t1 [_ H]]].
    apply bind_ok in H as [ts [t2 [_ H]]].
    apply bind_ok in H as [items [t3 [_ H]]].
    apply bind_ok in H as [links [t4 [_ H]]].
    destruct links; apply yield_run in H as [-> _]; now eexists _, _.
Qed.

(** X6.  Once the extractor has returned and the images have been counted,
    a run never raises, and the last thing it does is to yield a message:
    the request for two images, an error, or the gallery. *)
Theorem pipe_ends_with_message (w : World) (valves : Valves) (body : pyval)
    (u : str) (images : pyval) (n : nat) :
  _extract_user_instruction_and_images body = Ok (u, images) ->
  py_len images = Ok n ->
  exists tr m, run_pipe w valves body = (tr ++ [Yield m], Ok tt).
Proof.
  intros Hx Hlen. unfold run_pipe, pipe, bind, lift. rewrite Hx, Hlen.
  destruct (n <? 2)%nat.
  - exists [], insufficient_input. reflexivity.
  - unfold try_catch.
    destruct (stages w valves u images []) as [tr [[]|e]] eqn:E.
    + destruct (stages_end_with_message _ _ _ _ _ _ E) as [tr' [m ->]].
      now exists tr', m.
    + now exists tr, (pipeline_error e).
Qed.

Lemma pipe_ends_with_message_witness :
  exists tr m,
    run_pipe (studio_world (candidates [inline "QUJD"])) default_valves body_two_images =
    (tr ++ [Yield m], Ok tt).
Proof.
  exact (pipe_ends_with_message (studio_world (candidates [inline "QUJD"])) default_valves
           body_two_images (lit "make it fluffy")
           (PList [PStr (lit "data:image/png;base64,AAAA"); PStr (lit "BBBB")]) 2%nat
           eq_refl eq_refl).
Defined.

(** ** The storing stage: candidates without a payload *)

Lemma store_all_direct (w : World) (valves : Valves) (ts : str) (items : list pyval) :
  Forall (fun item => no_payload item = true) items ->
  forall idx out tr,
  store_all w valves ts idx items out tr = (tr, Ok (out ++ direct_links items)).
Proof.
  induction 1 as [|item items Hi _ IH]; intros idx out tr.
  - cbn. now rewrite app_nil_r.
  - cbn [store_all direct_links flat_map]. unfold no_payload in Hi.
    unfold bind at 1, lift at 1.
    destruct item; try discriminate. cbn [py_get] in *.
    apply negb_true_iff in Hi. rewrite Hi. cbn [negb].
    unfold bind at 1, lift at 1. rewrite IH. fold (direct_links items).
    match goal with
    | |- context [if truthy ?x then _ else _] => destruct (truthy x)
    end; [now rewrite <- app_assoc | reflexivity].
Qed.

(** X7.  When no candidate carries an inline payload, the storing stage
    decodes nothing and writes nothing: the links of the gallery are the
    URLs that the candidates carry, as they are and in their order, and
    when no candidate carries a URL either the run ends with the
    storage-failure message. *)
Theorem url_only_candidates (w : World) (valves : Valves) (body : pyval)
    (u : str) (images : pyval) (n : nat) (tr1 : trace)
    (prompt : str) (gen_resp data_list : pyval) (items : list pyval) :
  _extract_user_instruction_and_images body = Ok (u, images) ->
  py_len images = Ok n ->
  (2 <= n)%nat ->
  prepare w valves u images [] = (tr1, Ok (prompt, gen_resp, data_list)) ->
  truthy data_list = true ->
  py_iter data_list = Ok items ->
  Forall (fun item => no_payload item = true) items ->
  run_pipe w valves body =
  (tr1 ++ [Yield saving;
           Yield match direct_links items with
                 | [] => storage_failure
                 | links => gallery w valves prompt links
                 end], Ok tt).
Proof.
  intros Hx Hlen Hn Hp Ht Hi Hall.
  rewrite (pipe_reaches_storing w valves _ _ _ _ _ _ _ _ _ Hx Hlen Hn Hp Ht Hi).
  cbv zeta. rewrite (store_all_direct w valves _ items Hall). cbn [app].
  destruct (direct_links items); now rewrite <- app_assoc.
Qed.

Lemma url_only_candidates_witness :
  exists tr1 prompt,
    run_pipe (studio_world (candidates [remote "https://cdn.example/1.png"; PDict []]))
      default_valves body_two_images =
    (tr1 ++ [Yield saving;
             Yield (gallery (studio_world (candidates [remote "https://cdn.example/1.png"; PDict []]))
                      default_valves prompt [PStr (lit "https://cdn.example/1.png")])],
     Ok tt).
Proof.
  set (w := studio_world (candidates [remote "https://cdn.example/1.png"; PDict []])).
  eassert (Hp : prepare w default_valves (lit "make it fluffy")
                  (PList [PStr (lit "data:image/png;base64,AAAA"); PStr (lit "BBBB")]) [] =
                (_, Ok (_, _, _))) by (vm_compute; reflexivity).
  pose proof (url_only_candidates w default_valves body_two_images _ _ 2%nat _ _ _ _
                [remote "https://cdn.example/1.png"; PDict []]
                eq_refl eq_refl (le_n 2) Hp eq_refl eq_refl
                ltac:(repeat constructor)) as H.
  eexists _, _. exact H.
Defined.

(** ** [_store_image_bytes] *)

(** X8.  With S3 storage selected, whatever goes wrong (the import, the
    client, the upload, the signing) reaches the caller as a
    [RuntimeError]. *)
Theorem s3_failures_are_runtime_errors (w : World) (valves : Valves)
    (data : bytes) (filename : str) (tr tr' : trace) (e : exn) :
  use_s3 valves = true ->
  _store_image_bytes w valves data filename tr = (tr', Raise e) ->
  exn_cls e = RuntimeError.
Proof.
  intros Hs. unfold _store_image_bytes. rewrite Hs. unfold try_catch.
  destruct (bind _ _ tr) as [t [url|e0]]; [discriminate|].
  destruct (exn_cls e0); unfold lift; intros H; inversion H; reflexivity.
Qed.

Lemma s3_failures_are_runtime_errors_witness :
  exists tr e,
    _store_image_bytes offline_world s3_valves [Byte.x41] (lit "morph_x_01.png") [] =
    (tr, Raise e) /\
    exn_cls e = RuntimeError.
Proof.
  eassert (H : _store_image_bytes offline_world s3_valves [Byte.x41] (lit "morph_x_01.png") [] =
               (_, Raise _)) by (vm_compute; reflexivity).
  eexists _, _. split; [exact H|].
  exact (s3_failures_are_runtime_errors offline_world s3_valves _ _ _ _ _ eq_refl H).
Defined.

(** X9.  A store touches one backend only: with S3 selected it makes no
    directory and writes no file, and without it it makes no call to S3. *)
Theorem store_uses_one_backend (w : World) (valves : Valves)
    (data : bytes) (filename : str) (tr tr' : trace) (r : result str) :
  _store_image_bytes w valves data filename tr = (tr', r) ->
  exists ext, tr' = tr ++ ext /\
              forallb (backend_event (use_s3 valves)) ext = true.
Proof.
  unfold _store_image_bytes, try_catch, bind, lift, call, ret.
  destruct (use_s3 valves);
    repeat match goal with
           | |- context [match import_boto3 w with _ => _ end] =>
               destruct (import_boto3 w)
           | |- context [match s3_client w ?t with _ => _ end] =>
               destruct (s3_client w t)
           | |- context [match s3_put_object w ?t with _ => _ end] =>
               destruct (s3_put_object w t)
           | |- context [match s3_presigned_url w ?t with _ => _ end] =>
               destruct (s3_presigned_url w t)
           | |- context [match os_makedirs w ?t with _ => _ end] =>
               destruct (os_makedirs w t)
           | |- context [match write_file w ?t with _ => _ end] =>
               destruct (write_file w t)
           | |- context [if truthy ?x then _ else _] => destruct (truthy x)
           | |- context [match exn_cls ?e with _ => _ end] => destruct (exn_cls e)
           end;
    intros H; inversion H;
    first [ exists []; rewrite app_nil_r; split; reflexivity
          | eexists; rewrite <- ?app_assoc; split; reflexivity ].
Qed.

Lemma store_uses_one_backend_witness :
  exists ext,
    [Makedirs (lit "/app/static/morphs");
     WriteFile (lit "/app/static/morphs/morph_x_01.png") [Byte.x41]] = [] ++ ext /\
    forallb (backend_event false) ext = true.
Proof.
  exact (store_uses_one_backend (studio_world (candidates [])) default_valves [Byte.x41]
           (lit "morph_x_01.png") [] _ _ eq_refl).
Defined.

(** ** [_store_image_bytes]: what a successful store has done *)

Lemma morphs_dir_shape (w : World) : exists root, morphs_dir w = root ++ lit "morphs".
Proof.
  unfold morphs_dir, path_join.
  change (starts_with (lit "/") (lit "morphs")) with false. cbv iota.
  destruct (rev (env_or w "PIPELINES_STATIC_DIR" "/app/static")) as [|c r].
  - now exists [].
  - destruct (c =? 47).
    + now eexists.
    + eexists. now rewrite app_assoc.
Qed.

Lemma path_in_morphs_dir (w : World) (filename : str) :
  starts_with (lit "/") filename = false ->
  path_join (morphs_dir w) filename = morphs_dir w ++ lit "/" ++ filename.
Proof.
  intros H. unfold path_join at 1. rewrite H.
  destruct (morphs_dir_shape w) as [root ->].
  rewrite rev_app_distr. reflexivity.
Qed.

(** X10.  Without S3, a store that returns has made the directory
    [<static dir>/morphs], has written the bytes it was given to the file of
    the given name in that directory, and returns the URL
    [<static server>/morphs/<name>]: the URL names the file under the same
    relative path.  (The name does not start with a slash, as none of the
    pipeline's does.) *)
Theorem local_store_success (w : World) (valves : Valves)
    (data : bytes) (filename : str) (tr tr' : trace) (url : str) :
  use_s3 valves = false ->
  starts_with (lit "/") filename = false ->
  _store_image_bytes w valves data filename tr = (tr', Ok url) ->
  tr' = tr ++ [Makedirs (morphs_dir w);
               WriteFile (morphs_dir w ++ lit "/" ++ filename) data] /\
  url = env_or w "STATIC_SERVER_URL" "http://localhost:9099" ++ lit "/morphs/" ++ filename /\
  ends_with (lit "morphs") (morphs_dir w) = true.
Proof.
  intros Hs Hf. unfold _store_image_bytes. rewrite Hs.
  fold (morphs_dir w). rewrite (path_in_morphs_dir w filename Hf).
  unfold bind, call, ret.
  destruct (os_makedirs w _); [|discriminate].
  destruct (write_file w _); [|discriminate].
  intros H. inversion H. rewrite <- app_assoc. repeat split.
  apply ends_with_suffix. apply morphs_dir_shape.
Qed.

Lemma local_store_success_witness :
  [Makedirs (lit "/app/static/morphs");
   WriteFile (lit "/app/static/morphs/morph_x_01.png") [Byte.x41]] =
  [] ++ [Makedirs (morphs_dir (studio_world (candidates [])));
         WriteFile (morphs_dir (studio_world (candidates [])) ++ lit "/" ++ lit "morph_x_01.png")
           [Byte.x41]] /\
  lit "http://localhost:9099/morphs/morph_x_01.png" =
  env_or (studio_world (candidates [])) "STATIC_SERVER_URL" "http://localhost:9099" ++
  lit "/morphs/" ++ lit "morph_x_01.png" /\
  ends_with (lit "morphs") (morphs_dir (studio_world (candidates []))) = true.
Proof.
  exact (local_store_success (studio_world (candidates [])) default_valves [Byte.x41]
           (lit "morph_x_01.png") [] _ _ eq_refl eq_refl eq_refl).
Defined.

(** X11.  With S3, a store that returns has created a client for an endpoint
    that starts with [http], has put the bytes it was given under the given
    name in the configured bucket, and returns either
    [<public URL>/<name>], when a public URL is configured, without asking
    for a signature, or else the URL that the signing call gave. *)
Theorem s3_store_success (w : World) (valves : Valves)
    (data : bytes) (filename : str) (tr tr' : trace) (url : str) :
  use_s3 valves = true ->
  _store_image_bytes w valves data filename tr = (tr', Ok url) ->
  starts_with (lit "http") (s3_endpoint_url valves) = true /\
  ((s3_public_url valves <> [] /\
    tr' = tr ++ [S3Client (s3_endpoint_url valves);
                 S3PutObject (s3_bucket valves) filename data] /\
    url = s3_public_url valves ++ lit "/" ++ filename)
   \/
   (s3_public_url valves = [] /\
    tr' = tr ++ [S3Client (s3_endpoint_url valves);
                 S3PutObject (s3_bucket valves) filename data;
                 S3Presign (s3_bucket valves) filename] /\
    s3_presigned_url w tr' = Ok url)).
Proof.
  intros Hs. unfold _store_image_bytes. rewrite Hs.
  fold (s3_endpoint_url valves). intros H. split.
  - unfold s3_endpoint_url.
    destruct (starts_with (lit "http") (s3_endpoint valves)) eqn:E; [exact E | reflexivity].
  - revert H. unfold try_catch, bind, lift, call, ret.
    destruct (import_boto3 w); [|destruct (exn_cls e); discriminate].
    destruct (s3_client w _); [|destruct (exn_cls e); discriminate].
    destruct (s3_put_object w _); [|destruct (exn_cls e); discriminate].
    cbn [truthy]. destruct (s3_public_url valves) as [|c p] eqn:Ep.
    + destruct (s3_presigned_url w _) as [x|e] eqn:Eu;
        [|destruct (exn_cls e); discriminate].
      intros H. inversion H; subst. right. rewrite <- !app_assoc in *. cbn [app] in *.
      repeat split. exact Eu.
    + intros H. inversion H; subst. left. rewrite <- !app_assoc. cbn [app].
      repeat split. discriminate.
Qed.

Lemma s3_store_success_witness :
  starts_with (lit "http") (s3_endpoint_url s3_valves) = true /\
  ((s3_public_url s3_valves <> [] /\
    [S3Client (lit "http://minio:9000");
     S3PutObject (lit "morphs") (lit "morph_x_01.png") [Byte.x41]] =
    [] ++ [S3Client (s3_endpoint_url s3_valves);
           S3PutObject (s3_bucket s3_valves) (lit "morph_x_01.png") [Byte.x41]] /\
    lit "https://cdn.example/morphs/morph_x_01.png" =
    s3_public_url s3_valves ++ lit "/" ++ lit "morph_x_01.png")
   \/
   (s3_public_url s3_valves = [] /\
    [S3Client (lit "http://minio:9000");
     S3PutObject (lit "morphs") (lit "morph_x_01.png") [Byte.x41]] =
    [] ++ [S3Client (s3_endpoint_url s3_valves);
           S3PutObject (s3_bucket s3_valves) (lit "morph_x_01.png") [Byte.x41];
           S3Presign (s3_bucket s3_valves) (lit "morph_x_01.png")] /\
    s3_presigned_url s3_world
      [S3Client (lit "http://minio:9000");
       S3PutObject (lit "morphs") (lit "morph_x_01.png") [Byte.x41]] =
    Ok (lit "https://cdn.example/morphs/morph_x_01.png"))).
Proof.
  exact (s3_store_success s3_world s3_valves [Byte.x41] (lit "morph_x_01.png") [] _ _
           eq_refl eq_refl).
Defined.

(** ** The names of the stored candidates *)

Lemma digits_of_pos_value (fuel : nat) :
  forall n acc, n < 2 ^ N.of_nat fuel ->
  digits_value 0 (digits_of_pos fuel n acc) = digits_value n acc.
Proof.
  induction fuel as [|f IH]; intros n acc Hn.
  - cbn in Hn. assert (n = 0) by lia. now subst.
  - cbn [digits_of_pos]. destruct (n <? 10) eqn:E.
    + apply N.ltb_lt in E. unfold digits_value. cbn [fold_left].
      f_equal. rewrite N.mod_small by assumption. lia.
    + rewrite IH.
      * unfold digits_value. cbn [fold_left]. f_equal.
        rewrite (N.add_comm 48), N.add_sub. symmetry. apply N.div_mod. discriminate.
      * rewrite Nat2N.inj_succ, N.pow_succ_r' in Hn.
        apply N.Div0.div_lt_upper_bound. lia.
Qed.

Lemma dec_of_N_value (n : N) : digits_value 0 (dec_of_N n) = n.
Proof.
  unfold dec_of_N. rewrite digits_of_pos_value; [reflexivity|].
  rewrite Nat2N.inj_succ, N2Nat.id.
  destruct n as [|p]; [reflexivity|].
  apply N.log2_spec. lia.
Qed.

Lemma dec_of_nat_value (i : nat) : digits_value 0 (dec_of_nat i) = N.of_nat i.
Proof.
  unfold dec_of_nat, dec_of_Z. destruct i as [|i]; [reflexivity|].
  cbn [Z.of_nat]. rewrite dec_of_N_value. cbn [N.of_nat]. reflexivity.
Qed.

Lemma pad2_value (i : nat) : digits_value 0 (pad2 i) = N.of_nat i.
Proof.
  unfold pad2. destruct (i <? 10)%nat; [|apply dec_of_nat_value].
  change (lit "0" ++ dec_of_nat i) with (48 :: dec_of_nat i).
  unfold digits_value. cbn [fold_left]. apply dec_of_nat_value.
Qed.

Lemma candidate_filename_inj (ts : str) (i j : nat) :
  candidate_filename ts i = candidate_filename ts j -> i = j.
Proof.
  unfold candidate_filename. intros H.
  do 3 apply app_inv_head in H. apply app_inv_tail in H.
  apply Nat2N.inj. now rewrite <- !pad2_value, H.
Qed.

Lemma store_target_inj (w : World) (valves : Valves) (ts : str) (i j : nat) :
  store_target w valves (candidate_filename ts i) =
  store_target w valves (candidate_filename ts j) -> i = j.
Proof.
  unfold store_target. destruct (use_s3 valves).
  - apply candidate_filename_inj.
  - rewrite !path_in_morphs_dir by reflexivity. intros H.
    do 2 apply app_inv_head in H. now apply candidate_filename_inj in H.
Qed.

(** One store writes under at most one name, that of its file. *)
Lemma store_writes_target (w : World) (valves : Valves)
    (data : bytes) (filename : str) (tr tr' : trace) (r : result str) :
  _store_image_bytes w valves data filename tr = (tr', r) ->
  exists ext, tr' = tr ++ ext /\
              (stored ext = [] \/ stored ext = [store_target w valves filename]).
Proof.
  unfold _store_image_bytes, store_target, try_catch, bind, lift, call, ret.
  fold (morphs_dir w).
  destruct (use_s3 valves);
    repeat match goal with
           | |- context [match import_boto3 w with _ => _ end] =>
               destruct (import_boto3 w)
           | |- context [match s3_client w ?t with _ => _ end] =>
               destruct (s3_client w t)
           | |- context [match s3_put_object w ?t with _ => _ end] =>
               destruct (s3_put_object w t)
           | |- context [match s3_presigned_url w ?t with _ => _ end] =>
               destruct (s3_presigned_url w t)
           | |- context [match os_makedirs w ?t with _ => _ end] =>
               destruct (os_makedirs w t)
           | |- context [match write_file w ?t with _ => _ end] =>
               destruct (write_file w t)
           | |- context [if truthy ?x then _ else _] => destruct (truthy x)
           | |- context [match exn_cls ?e with _ => _ end] => destruct (exn_cls e)
           end;
    intros H; inversion H;
    first [ exists []; rewrite app_nil_r; split; [reflexivity | now left]
          | eexists; rewrite <- ?app_assoc; split;
            [reflexivity | first [now left | now right]] ].
Qed.

Lemma store_all_targets (w : World) (valves : Valves) (ts : str) (items : list pyval) :
  forall (idx : nat) (out : list pyval) (tr tr' : trace) (r : result (list pyval)),
  store_all w valves ts idx items out tr = (tr', r) ->
  exists ext, tr' = tr ++ ext /\
              NoDup (stored ext) /\
              Forall (fun p => exists i, (idx <= i)%nat /\
                                         p = store_target w valves (candidate_filename ts i))
                     (stored ext).
Proof.
  induction items as [|item items IH]; intros idx out tr tr' r H.
  - inversion H. exists []. rewrite app_nil_r. repeat split; constructor.
  - cbn [store_all] in H.
    assert (Later : forall out1 t1,
              store_all w valves ts (S idx) items out1 t1 = (tr', r) ->
              exists ext, tr' = t1 ++ ext /\ NoDup (stored ext) /\
                Forall (fun p => exists i, (idx <= i)%nat /\
                          p = store_target w valves (candidate_filename ts i))
                       (stored ext)).
    { intros out1 t1 H1. destruct (IH _ _ _ _ _ H1) as [ext [E [N F]]].
      exists ext. repeat split; try assumption.
      eapply Forall_impl; [|exact F]. intros p [i [Hi Hp]]. exists i. split; [lia | exact Hp]. }
    assert (Stop : forall e, (tr, @Raise (list pyval) e) = (tr', r) ->
              exists ext, tr' = tr ++ ext /\ NoDup (stored ext) /\
                Forall (fun p => exists i, (idx <= i)%nat /\
                          p = store_target w valves (candidate_filename ts i))
                       (stored ext)).
    { intros e E. inversion E. exists []. rewrite app_nil_r. repeat split; constructor. }
    apply bind_inv in H as [[e [H ->]] | [b64 [t0 [Hb H]]]].
    { inversion H; subst. now apply (Stop e). }
    apply lift_ok in Hb as [_ ->].
    destruct (negb (truthy b64)).
    + apply bind_inv in H as [[e [H ->]] | [url [t0 [Hu H]]]].
      { inversion H; subst. now apply (Stop e). }
      apply lift_ok in Hu as [_ ->]. now apply (Later _ _ H).
    + apply bind_inv in H as [[e [H ->]] | [cleaned [t0 [Hc H]]]].
      { inversion H; subst. now apply (Stop e). }
      apply lift_ok in Hc as [_ ->].
      apply bind_inv in H as [[e [H ->]] | [data [t0 [Hd H]]]].
      { inversion H; subst. now apply (Stop e). }
      apply lift_ok in Hd as [_ ->].
      fold (candidate_filename ts idx) in H.
      apply bind_inv in H as [[e [H ->]] | [url [t1 [Hs H]]]].
      * destruct (store_writes_target _ _ _ _ _ _ _ H) as [ext [E S]].
        exists ext. split; [exact E|].
        destruct S as [-> | ->]; split; repeat constructor; auto.
        exists idx. split; [lia | reflexivity].
      * destruct (store_writes_target _ _ _ _ _ _ _ Hs) as [ext1 [E1 S1]].
        destruct (IH _ _ _ _ _ H) as [ext2 [E2 [N2 F2]]].
        exists (ext1 ++ ext2). split; [subst; now rewrite app_assoc|].
        rewrite stored_app.
        assert (F2' : Forall (fun p => exists i, (idx <= i)%nat /\
                          p = store_target w valves (candidate_filename ts i))
                        (stored ext2)).
        { eapply Forall_impl; [|exact F2]. intros p [i [Hi Hp]].
          exists i. split; [lia | exact Hp]. }
        destruct S1 as [-> | ->]; cbn [app]; [now split|].
        split.
        -- constructor; [|exact N2]. intros Hin.
           rewrite Forall_forall in F2. destruct (F2 _ Hin) as [i [Hi Hp]].
           apply store_target_inj in Hp. lia.
        -- constructor; [|exact F2']. exists idx. split; [lia | reflexivity].
Qed.

(** X12.  Within one run of the storing loop no two candidates are written
    under the same name: the paths of the files written (or the keys of the
    objects put) are pairwise different, whatever the candidates and
    whatever fails on the way. *)
Theorem candidates_never_share_a_name (w : World) (valves : Valves) (ts : str)
    (items : list pyval) (idx : nat) (out : list pyval) (tr tr' : trace)
    (r : result (list pyval)) :
  store_all w valves ts idx items out tr = (tr', r) ->
  exists ext, tr' = tr ++ ext /\ NoDup (stored ext).
Proof.
  intros H. destruct (store_all_targets _ _ _ _ _ _ _ _ _ H) as [ext [E [N _]]].
  now exists ext.
Qed.

Lemma candidates_never_share_a_name_witness :
  exists ext,
    fst (store_all s3_world default_valves (lit "T") 1
           [inline "QUJD"; remote "u"; inline "QUJD"] [] []) = [] ++ ext /\
    NoDup (stored ext).
Proof.
  eassert (H : store_all s3_world default_valves (lit "T") 1
                 [inline "QUJD"; remote "u"; inline "QUJD"] [] [] = (_, _))
    by (vm_compute; reflexivity).
  rewrite H. exact (candidates_never_share_a_name _ _ _ _ _ _ _ _ _ H).
Defined.

(** ** The extractor *)

Lemma collect_images_spec (items : list pyval) :
  forall acc l, collect_images items acc = Ok l -> l = acc ++ content_images items.
Proof.
  induction items as [|item items IH]; intros acc l H.
  - inversion H. unfold content_images. cbn. now rewrite app_nil_r.
  - cbn [collect_images] in H.
    assert (Step : content_images (item :: items) =
                   (if is_image_item item then [PDict [(lit "url", item_url item)]] else [])
                   ++ content_images items).
    { unfold content_images. cbn [filter]. now destruct (is_image_item item). }
    rewrite Step. unfold is_image_item, item_url.
    destruct (py_get item "type" PNone) as [ty|e]; [|discriminate]. cbn [rbind] in H.
    destruct (py_eq_str ty "image_url").
    + destruct (py_getitem item "image_url") as [iu|e]; [|discriminate]. cbn [rbind] in H.
      destruct (py_getitem iu "url") as [x|e]; [|discriminate]. cbn [rbind] in H.
      apply IH in H. rewrite H, <- app_assoc. reflexivity.
    + now apply IH in H.
Qed.

(** The extractor on a body whose latest message is [m] with content
    [content]. *)
Lemma extract_unfold (b m : pydict) (msgs content : pyval) :
  dict_get (lit "messages") b = Some msgs ->
  truthy msgs = true ->
  py_last msgs = Ok (PDict m) ->
  py_get (PDict m) "content" (PStr []) = Ok content ->
  _extract_user_instruction_and_images (PDict b) =
  (let? user_instruction := instruction_of content in
   let? images := images_of (PDict m) content in
   let? u := py_strip user_instruction in
   Ok (u, images)).
Proof.
  intros Hm Ht Hl Hc. unfold _extract_user_instruction_and_images.
  cbn [py_get rbind]. rewrite Hm, Ht. cbn [negb]. rewrite Hl. cbn [rbind].
  now rewrite Hc.
Qed.

(** X13.  When the latest message has no [images] entry and its content is a
    list, the images the extractor returns are exactly the image items of
    that list, in their order, each as a mapping with the single key [url]
    holding the item's [image_url.url]; items of other types contribute
    nothing. *)
Theorem images_from_content_list (b m : pydict) (msgs : pyval) (items : list pyval)
    (u : str) (images : pyval) :
  dict_get (lit "messages") b = Some msgs ->
  truthy msgs = true ->
  py_last msgs = Ok (PDict m) ->
  dict_get (lit "content") m = Some (PList items) ->
  dict_get (lit "images") m = None ->
  _extract_user_instruction_and_images (PDict b) = Ok (u, images) ->
  images = PList (content_images items).
Proof.
  intros Hm Ht Hl Hc Hi H.
  rewrite (extract_unfold b m msgs (PList items) Hm Ht Hl) in H
    by (cbn [py_get]; now rewrite Hc).
  destruct (instruction_of (PList items)) as [ui|e]; [|discriminate]. cbn [rbind] in H.
  unfold images_of in H. cbn [py_contains rbind] in H. unfold dict_mem in H.
  rewrite Hi in H.
  destruct (collect_images items []) as [l|e] eqn:E; [|discriminate]. cbn [rbind] in H.
  apply collect_images_spec in E. cbn [app] in E. subst l.
  destruct (py_strip ui); [|discriminate]. now inversion H.
Qed.

Lemma images_from_content_list_witness :
  PList [PDict [(lit "url", PStr (lit "data:image/png;base64,AAAA"))];
         PDict [(lit "url", PStr (lit "https://cdn.example/b.png"))]] =
  PList (content_images
           [image_url_item "data:image/png;base64,AAAA";
            PDict [(lit "type", PStr (lit "text")); (lit "text", PStr (lit " blend them "))];
            image_url_item "https://cdn.example/b.png"]).
Proof.
  eapply (images_from_content_list body_content_list); reflexivity.
Defined.

(** X14.  Whatever the request, the instruction that the extractor returns
    has no whitespace at either end. *)
Theorem extracted_instruction_is_trimmed (body : pyval) (u : str) (images : pyval) :
  _extract_user_instruction_and_images body = Ok (u, images) -> trimmed u.
Proof.
  unfold _extract_user_instruction_and_images. intros H.
  destruct (py_get body "messages" (PList [])) as [msgs|e]; [|discriminate].
  cbn [rbind] in H. destruct (negb (truthy msgs)).
  - inversion H. split; reflexivity.
  - destruct (py_last msgs) as [lm|e]; [|discriminate]. cbn [rbind] in H.
    destruct (py_get lm "content" (PStr [])) as [c|e]; [|discriminate]. cbn [rbind] in H.
    destruct (instruction_of c) as [ui|e]; [|discriminate]. cbn [rbind] in H.
    destruct (images_of lm c) as [im|e]; [|discriminate]. cbn [rbind] in H.
    destruct ui; try discriminate. cbn [py_strip rbind] in H.
    inversion H. apply trimmed_strip.
Qed.

Lemma extracted_instruction_is_trimmed_witness : trimmed (lit "make it fluffy").
Proof.
  exact (extracted_instruction_is_trimmed body_two_images _ _ eq_refl).
Defined.

(** ** The image-payload adapter on data URLs *)

Lemma split1_last_at (pre post : str) :
  ~ In comma pre -> split1_last comma (pre ++ comma :: post) = post.
Proof.
  induction pre as [|c pre IH]; intros H.
  - cbn [app split1_last]. now rewrite N.eqb_refl.
  - cbn [app split1_last]. destruct (c =? comma) eqn:E.
    + apply N.eqb_eq in E. subst. exfalso. apply H. now left.
    + apply IH. intros Hin. apply H. now right.
Qed.

(** X15.  A data URL [data:<type>;base64,<payload>] whose media type has no
    comma and at most 48 characters is reduced to its payload, whatever
    the payload. *)
Theorem data_url_payload (w : World) (mime payload : str) :
  ~ In comma mime ->
  (List.length mime <= 48)%nat ->
  _to_b64_payload w (PStr (lit "data:" ++ mime ++ lit ";base64," ++ payload)) = payload.
Proof.
  intros Hc Hl. unfold _to_b64_payload. cbn [py_str].
  set (head := lit "data:" ++ mime ++ lit ";base64").
  assert (Es : lit "data:" ++ mime ++ lit ";base64," ++ payload = head ++ comma :: payload).
  { unfold head. rewrite <- !app_assoc. reflexivity. }
  rewrite Es.
  assert (Hh : ~ In comma head).
  { unfold head. intros H. apply in_app_or in H as [H | H].
    - vm_compute in H. intuition discriminate.
    - apply in_app_or in H as [H | H]; [contradiction|].
      vm_compute in H. intuition discriminate. }
  assert (T1 : char_in comma (head ++ comma :: payload) = true).
  { apply char_in_In. apply in_or_app. right. now left. }
  assert (T2 : str_in (lit "base64") (firstn 60 (head ++ comma :: payload)) = true).
  { apply str_in_occurs.
    assert (L : (List.length head <= 60)%nat).
    { unfold head. rewrite !length_app. cbn. lia. }
    rewrite firstn_app.
    rewrite firstn_all2 by assumption.
    exists (lit "data:" ++ mime ++ lit ";"), (firstn (60 - List.length head) (comma :: payload)).
    unfold head. rewrite <- !app_assoc. reflexivity. }
  rewrite T1, T2. cbn [andb]. unfold split_once_last. rewrite T1.
  now apply split1_last_at.
Qed.

Lemma data_url_payload_witness :
  _to_b64_payload offline_world
    (PStr (lit "data:" ++ lit "image/png" ++ lit ";base64," ++ lit "AAAA,BB")) =
  lit "AAAA,BB".
Proof.
  apply (data_url_payload offline_world (lit "image/png") (lit "AAAA,BB")).
  - vm_compute. intuition discriminate.
  - vm_compute. lia.
Defined.

(** X16.  What the adapter returns is always an end of its input: it may drop
    a prefix, and changes nothing else. *)
Theorem payload_is_suffix (w : World) (s : str) :
  exists pre, s = pre ++ _to_b64_payload w (PStr s).
Proof.
  unfold _to_b64_payload. cbn [py_str].
  destruct (char_in comma s && str_in (lit "base64") (firstn 60 s)) eqn:E.
  - apply andb_true_iff in E as [E _]. unfold split_once_last. rewrite E.
    apply char_in_In in E.
    destruct (split1_last_first comma s E) as [a [b [Hs [_ Hb]]]].
    exists (a ++ [comma]). rewrite Hb, Hs at 1. now rewrite <- app_assoc.
  - now exists [].
Qed.

(** ** The brace span, further *)

Lemma many_any_none (post : str) :
  ~ In 125 post ->
  forall b, many_then (fun _ => true) (match_here re_close_brace) b post = None.
Proof.
  induction post as [|c post IH]; intros H b; [reflexivity|].
  cbn [many_then]. rewrite IH by (intros Hin; apply H; now right).
  unfold re_close_brace. rewrite match_here_one. unfold is_chr.
  destruct (125 =? c) eqn:E; [|reflexivity].
  apply N.eqb_eq in E. subst. exfalso. apply H. now left.
Qed.

Lemma many_any_last (x post : str) :
  ~ In 125 post ->
  forall b, many_then (fun _ => true) (match_here re_close_brace) b (x ++ 125 :: post)
            = Some (List.length x + 1)%nat.
Proof.
  intros H. induction x as [|c x IH]; intros b.
  - cbn [app many_then]. rewrite many_any_none by assumption. reflexivity.
  - cbn [app many_then]. now rewrite IH.
Qed.

Lemma braces_match (mid post : str) (b : bool) :
  ~ In 125 post ->
  match_here re_braces b (123 :: mid ++ 125 :: post) = Some (S (List.length mid + 1)).
Proof.
  intros H. unfold re_braces. rewrite match_here_one. unfold is_chr. cbn [N.eqb Pos.eqb].
  fold re_close_brace. rewrite match_here_many, many_any_last by assumption. reflexivity.
Qed.

Lemma braces_search (pre mid post : str) :
  ~ In 123 pre -> ~ In 125 post ->
  forall b, search_from re_braces b (pre ++ 123 :: mid ++ 125 :: post) =
            Some (List.length pre, S (List.length mid + 1)).
Proof.
  intros Hpre Hpost. induction pre as [|c pre IH]; intros b.
  - cbn [app search_from]. destruct (mid ++ 125 :: post) eqn:E.
    + destruct mid; discriminate.
    + rewrite <- E. cbn [search_from]. now rewrite braces_match.
  - cbn [app search_from List.length].
    assert (E : match_here re_braces b (c :: pre ++ 123 :: mid ++ 125 :: post) = None).
    { unfold re_braces. rewrite match_here_one. unfold is_chr.
      destruct (123 =? c) eqn:E; [|reflexivity].
      apply N.eqb_eq in E. subst. exfalso. apply Hpre. now left. }
    rewrite E, IH; [reflexivity|]. intros Hin. apply Hpre. now right.
Qed.

(** The span of [\{.*\}] starts at the first opening brace and ends at the
    last closing one. *)
Lemma re_search_braces_span (pre mid post : str) :
  ~ In 123 pre -> ~ In 125 post ->
  re_search re_braces (pre ++ 123 :: mid ++ 125 :: post) = Some (123 :: mid ++ [125]).
Proof.
  intros Hpre Hpost. unfold re_search. rewrite braces_search by assumption.
  rewrite skipn_app, skipn_all, Nat.sub_diag. cbn [app skipn firstn]. do 2 f_equal.
  replace (mid ++ 125 :: post) with ((mid ++ [125]) ++ post)
    by (now rewrite <- app_assoc).
  rewrite firstn_app.
  replace (List.length mid + 1 - List.length (mid ++ [125%N]))%nat with 0%nat
    by (rewrite length_app; cbn; lia).
  rewrite firstn_all2 by (rewrite length_app; cbn; lia).
  cbn [firstn]. now rewrite app_nil_r.
Qed.

(** ** The response normalizer, further *)

(** X17.  An object in the middle of prose is found: when the text (trimmed,
    without its fences) does not decode as a whole, has no opening brace
    before the object and no closing brace after it, and the object
    decodes, the normalizer returns what the object decodes to. *)
Theorem prose_around_object (s pre mid post : str) (v : pyval) :
  remove_fences (strip s) = pre ++ 123 :: mid ++ 125 :: post ->
  ~ In 123 pre -> ~ In 125 post ->
  (forall v', json_loads (remove_fences (strip s)) <> Ok v') ->
  json_loads (123 :: mid ++ [125]) = Ok v ->
  _safe_json_from_text (PStr s) = Ok v.
Proof.
  intros Ht Hpre Hpost Hfail Hv. rewrite safe_json_unfold. cbv zeta.
  destruct (json_loads (remove_fences (strip s))) as [v'|e] eqn:E;
    [exfalso; exact (Hfail v' eq_refl)|].
  cbn [try_except]. rewrite Ht, re_search_braces_span by assumption.
  now rewrite Hv.
Qed.

Lemma prose_around_object_witness :
  _safe_json_from_text (PStr prose_with_object) =
  Ok (PDict [(lit "style", PStr (lit "photo"))]).
Proof.
  apply (prose_around_object prose_with_object (lit "Sure! ") (dq "'style': 'photo'")
           (lit " Hope this helps.")).
  - reflexivity.
  - vm_compute. intuition discriminate.
  - vm_compute. intuition discriminate.
  - intros v'. vm_compute. discriminate.
  - reflexivity.
Defined.

Lemma lstrip_all_space (s : str) : all_space s -> lstrip s = [].
Proof.
  intros H. rewrite <- (app_nil_r s). now rewrite lstrip_spaces.
Qed.

(** X18.  A text that is missing ([None], or any other falsy value), empty
    or made of whitespace only gives the fallback object with an empty
    [raw]. *)
Theorem blank_text_is_empty_raw (text : pyval) :
  truthy text = false \/ (exists s, text = PStr s /\ all_space s) ->
  _safe_json_from_text text = Ok (raw_of []).
Proof.
  intros [H | [s [-> H]]].
  - unfold _safe_json_from_text, py_or. rewrite H. reflexivity.
  - rewrite safe_json_unfold. unfold strip. rewrite (lstrip_all_space s H).
    reflexivity.
Qed.

Lemma blank_text_is_empty_raw_witness : _safe_json_from_text PNone = Ok (raw_of []).
Proof.
  exact (blank_text_is_empty_raw PNone (or_introl eq_refl)).
Defined.

(** A text that decodes is returned decoded. *)
Lemma safe_json_direct (t : str) (v : pyval) :
  json_loads t = Ok v -> _safe_json_from_text (PStr t) = Ok v.
Proof.
  intros Hv. pose proof (json_loads_strip t v Hv) as Hu.
  pose proof (trimmed_strip t) as Htr.
  destruct (strip t) as [|c u] eqn:Es; [discriminate|].
  destruct (json_loads_first c u v Hu) as [Hc _].
  rewrite safe_json_unfold, Es. cbv zeta.
  rewrite remove_fences_plain; try assumption.
  - now rewrite Hu.
  - change fence with [96; 96; 96]. cbn [starts_with].
    apply N.eqb_neq in Hc. rewrite N.eqb_sym in Hc. now rewrite Hc.
  - destruct (ends_with fence (c :: u)) eqn:E; [|reflexivity].
    apply ends_with_suffix in E as [pre E]. exfalso.
    apply (json_loads_last (pre ++ [96; 96]) v).
    rewrite <- app_assoc. change ([96; 96] ++ [96]) with fence.
    now rewrite <- E.
Qed.

(** ** The normalizer and the compactor together *)

(** X19.  An answer of the vision model that cannot be decoded goes into the
    prompt as it is: normalized and then compacted, it is the answer
    trimmed and without its fences. *)
Theorem unparseable_answer_reaches_prompt (w : World) (s : str) :
  attempts_fail (remove_fences (strip s)) ->
  exists traits,
    _safe_json_from_text (PStr s) = Ok traits /\
    _traits_to_compact_line w traits = PStr (remove_fences (strip s)).
Proof.
  intros [H1 H2]. exists (raw_of (remove_fences (strip s))). split; [|reflexivity].
  rewrite safe_json_unfold. cbv zeta.
  destruct (json_loads (remove_fences (strip s))) as [v|e] eqn:E1;
    [exfalso; exact (H1 v eq_refl)|].
  cbn [try_except].
  destruct (re_search re_braces (remove_fences (strip s))) as [m|] eqn:E2;
    [|reflexivity].
  destruct (json_loads m) as [v|e'] eqn:E3; [|reflexivity].
  exfalso. exact (H2 m v eq_refl E3).
Qed.

Lemma unparseable_answer_reaches_prompt_witness :
  exists traits,
    _safe_json_from_text (PStr fenced_prose) = Ok traits /\
    _traits_to_compact_line offline_world traits = PStr (lit "a cat on a sofa").
Proof.
  exact (unparseable_answer_reaches_prompt offline_world fenced_prose
           (prose_attempts_fail (lit "a cat on a sofa") eq_refl eq_refl)).
Defined.

(** X20.  An answer that is the JSON text of a TraitSet goes into the prompt
    as its canonical line: normalized and then compacted, it is the line of
    the segments of the vocabulary keys that have a non-empty value. *)
Theorem clean_answer_reaches_prompt (w : World) (t : str) (d : pydict) (m : traitset)
    (k : str) (c : char) (v : str) :
  json_loads t = Ok (PDict d) ->
  represents d m ->
  ~ fallback_form d ->
  In k keys_order ->
  m k = Some (c :: v) ->
  exists traits,
    _safe_json_from_text (PStr t) = Ok traits /\
    _traits_to_compact_line w traits = PStr (canonical_line m).
Proof.
  intros Ht Hr Hnf Hk Hm. exists (PDict d). split; [now apply safe_json_direct|].
  rewrite compact_not_fallback by assumption.
  rewrite (trait_parts_segments w d m keys_order Hr).
  pose proof (segments_of_nonempty m keys_order k c v Hk Hm) as Hne.
  unfold canonical_line. destruct (segments_of m keys_order); [congruence | reflexivity].
Qed.

Lemma clean_answer_reaches_prompt_witness :
  exists traits,
    _safe_json_from_text (PStr (dq "{'style': 'photo', 'lighting': '', 'primary_subject': 'cat'}"))
    = Ok traits /\
    _traits_to_compact_line offline_world traits =
    PStr (lit "primary subject: cat; style: photo").
Proof.
  apply (clean_answer_reaches_prompt offline_world _ scrambled_traits scrambled_traitset
           (lit "style") 112 (lit "hoto")).
  - reflexivity.
  - intros k Hk. each_key Hk.
  - intros [r Hr]. discriminate Hr.
  - unfold keys_order. simpl. tauto.
  - reflexivity.
Defined.

(** ** The trait compactor, further *)

Lemma trait_parts_same (w : World) (d1 d2 : pydict) (keys : list str) :
  same_items d1 d2 ->
  flat_map (trait_part w d1) keys = flat_map (trait_part w d2) keys.
Proof.
  intros H. apply flat_map_ext. intros k. unfold trait_part. now rewrite (H k).
Qed.

Lemma trait_parts_some (w : World) (d : pydict) (keys : list str) (k : str) (v : pyval) :
  In k keys -> dict_get k d = Some v -> truthy v = true ->
  flat_map (trait_part w d) keys <> [].
Proof.
  induction keys as [|k' keys IH]; intros Hin Hg Ht; [destruct Hin|].
  cbn [flat_map]. intros E. apply app_eq_nil in E as [E1 E2].
  destruct Hin as [-> | Hin].
  - unfold trait_part in E1. rewrite Hg, Ht in E1. discriminate.
  - now apply (IH Hin Hg Ht).
Qed.

(** X21.  Two mappings with the same keys and values, neither in fallback
    form, with at least one vocabulary key whose value is truthy, give the
    same line whatever the order of their entries and whatever the types
    of their values. *)
Theorem compact_ignores_entry_order (w : World) (d1 d2 : pydict) (k : str) (v : pyval) :
  same_items d1 d2 ->
  ~ fallback_form d1 -> ~ fallback_form d2 ->
  In k keys_order -> dict_get k d1 = Some v -> truthy v = true ->
  _traits_to_compact_line w (PDict d1) = _traits_to_compact_line w (PDict d2).
Proof.
  intros Hs H1 H2 Hk Hg Ht.
  rewrite !compact_not_fallback by assumption.
  rewrite <- (trait_parts_same w d1 d2 keys_order Hs).
  pose proof (trait_parts_some w d1 keys_order k v Hk Hg Ht) as Hne.
  destruct (flat_map (trait_part w d1) keys_order); [congruence | reflexivity].
Qed.

Lemma compact_ignores_entry_order_witness :
  _traits_to_compact_line offline_world (PDict numbered_traits) =
  _traits_to_compact_line offline_world (PDict numbered_traits_swapped).
Proof.
  apply (compact_ignores_entry_order offline_world numbered_traits numbered_traits_swapped
           (lit "style") (PInt 7)).
  - intros k. unfold numbered_traits, numbered_traits_swapped. cbn [dict_get].
    destruct (str_eqb k (lit "style")) eqn:E1;
      destruct (str_eqb k (lit "lighting")) eqn:E2; try reflexivity.
    apply str_eqb_eq in E1, E2. subst. discriminate E2.
  - intros [r Hr]. discriminate Hr.
  - intros [r Hr]. discriminate Hr.
  - unfold keys_order. simpl. tauto.
  - reflexivity.
  - reflexivity.
Defined.

(** ** The subject classifier *)

Lemma lower_app (a b : str) : lower (a ++ b) = lower a ++ lower b.
Proof. unfold lower. apply flat_map_app. Qed.

Lemma str_in_inside (kw a s b : str) :
  str_in kw s = true -> str_in kw (a ++ s ++ b) = true.
Proof.
  rewrite !str_in_occurs. intros [pre [post ->]].
  exists (a ++ pre), (post ++ b). now rewrite <- !app_assoc.
Qed.

Lemma any_in_inside (words : list string) (a s b : str) :
  any_in words s = true -> any_in words (a ++ s ++ b) = true.
Proof.
  unfold any_in. rewrite !existsb_exists. intros [wd [Hin H]].
  exists wd. split; [exact Hin | now apply str_in_inside].
Qed.

(** X22.  A person stays a person: when an instruction is classified as
    ["a person"], so is every instruction that contains it, whatever is
    written before and after it. *)
Theorem person_wins (s a b : str) :
  _detect_subject_type s = lit "a person" ->
  _detect_subject_type (a ++ s ++ b) = lit "a person".
Proof.
  unfold _detect_subject_type. rewrite !lower_app.
  destruct (any_in _ (lower s)) eqn:E.
  - intros _. now rewrite (any_in_inside _ (lower a) (lower s) (lower b) E).
  - repeat match goal with
           | |- context [if any_in ?ws (lower s) then _ else _] =>
               destruct (any_in ws (lower s))
           end; intros H; vm_compute in H; discriminate.
Qed.

Lemma person_wins_witness :
  _detect_subject_type (lit "my " ++ lit "kid" ++ lit " and the dog") = lit "a person".
Proof.
  exact (person_wins (lit "kid") (lit "my ") (lit " and the dog") eq_refl).
Defined.

(** ** The storing stage: failing steps *)

(** The loop over a list in two parts: the second part starts where the
    first ended, unless the first raised. *)
Lemma store_all_app (w : World) (valves : Valves) (ts : str) (pre rest : list pyval) :
  forall (idx : nat) (out : list pyval) (tr : trace),
  store_all w valves ts idx (pre ++ rest) out tr =
  match store_all w valves ts idx pre out tr with
  | (tr_a, Ok links) => store_all w valves ts (idx + List.length pre) rest links tr_a
  | (tr_a, Raise e) => (tr_a, Raise e)
  end.
Proof.
  induction pre as [|item pre IH]; intros idx out tr.
  - cbn [app store_all ret List.length]. now rewrite Nat.add_0_r.
  - cbn [app store_all List.length]. unfold bind, lift.
    replace (idx + S (List.length pre))%nat with (S idx + List.length pre)%nat by lia.
    destruct (py_get item "b64_json" PNone) as [b|e]; [|reflexivity].
    destruct (negb (truthy b)).
    + destruct (py_get item "url" PNone) as [u|e]; [|reflexivity].
      apply IH.
    + destruct (match b with PStr s => Ok (re_sub_empty re_blank s) | _ => _ end)
        as [cleaned|e]; [|reflexivity].
      destruct (b64decode w cleaned) as [data|e]; [|reflexivity].
      destruct (_store_image_bytes w valves data _ tr) as [tr1 [url|e]]; [|reflexivity].
      apply IH.
Qed.

(** A candidate with a payload: its text is decoded, the bytes are stored
    under the candidate's name, and the loop goes on only when both steps
    returned. *)
Lemma store_all_payload (w : World) (valves : Valves) (ts : str) (idx : nat)
    (item : pyval) (rest out : list pyval) (tr : trace) (s : str) :
  py_get item "b64_json" PNone = Ok (PStr s) -> s <> [] ->
  store_all w valves ts idx (item :: rest) out tr =
  match b64decode w (re_sub_empty re_blank s) with
  | Raise e => (tr, Raise e)
  | Ok data =>
      match _store_image_bytes w valves data (candidate_filename ts idx) tr with
      | (tr', Raise e) => (tr', Raise e)
      | (tr', Ok url) => store_all w valves ts (S idx) rest (out ++ [PStr url]) tr'
      end
  end.
Proof.
  intros Hb Hs. cbn [store_all]. unfold bind, lift. rewrite Hb.
  destruct s as [|c s]; [contradiction|]. cbn [truthy negb].
  destruct (b64decode w _) as [data|e]; reflexivity.
Qed.

(** A store that returns has written once, under the name of its file. *)
Lemma store_ok_writes_once (w : World) (valves : Valves)
    (data : bytes) (filename : str) (tr tr' : trace) (url : str) :
  _store_image_bytes w valves data filename tr = (tr', Ok url) ->
  exists ext, tr' = tr ++ ext /\ stored ext = [store_target w valves filename].
Proof.
  unfold _store_image_bytes, store_target, try_catch, bind, lift, call, ret.
  fold (morphs_dir w).
  destruct (use_s3 valves);
    repeat match goal with
           | |- context [match import_boto3 w with _ => _ end] =>
               destruct (import_boto3 w)
           | |- context [match s3_client w ?t with _ => _ end] =>
               destruct (s3_client w t)
           | |- context [match s3_put_object w ?t with _ => _ end] =>
               destruct (s3_put_object w t)
           | |- context [match s3_presigned_url w ?t with _ => _ end] =>
               destruct (s3_presigned_url w t)
           | |- context [match os_makedirs w ?t with _ => _ end] =>
               destruct (os_makedirs w t)
           | |- context [match write_file w ?t with _ => _ end] =>
               destruct (write_file w t)
           | |- context [if truthy ?x then _ else _] => destruct (truthy x)
           | |- context [match exn_cls ?e with _ => _ end] => destruct (exn_cls e)
           end;
    intros H; inversion H;
    eexists; rewrite <- ?app_assoc; split; reflexivity.
Qed.

(** When no decode step and no persist step can raise, the loop completes:
    it has stored every candidate that carries a payload, once and under
    its own name, and has one link per candidate that carries a payload or
    a URL. *)
Lemma store_all_clean (w : World) (valves : Valves) (ts : str) (items : list pyval) :
  Forall (fun item => decodable w item = true) items ->
  (forall data filename tr, exists tr' url,
      _store_image_bytes w valves data filename tr = (tr', Ok url)) ->
  forall (idx : nat) (out : list pyval) (tr : trace),
  exists ext kept,
    store_all w valves ts idx items out tr = (tr ++ ext, Ok (out ++ kept)) /\
    stored ext = payload_targets w valves ts idx items /\
    Forall2 link_of (usable items) kept.
Proof.
  intros Hd Hstore. induction Hd as [|item items Hi _ IH]; intros idx out tr.
  - exists [], []. cbn. rewrite !app_nil_r. repeat split. constructor.
  - destruct item as [| | | | | |d]; try discriminate Hi.
    cbn [decodable] in Hi.
    cbn [store_all payload_targets]. unfold usable. cbn [filter].
    unfold carries_nothing, no_payload, link_of. unfold no_payload.
    unfold bind at 1, lift at 1. cbn [py_get].
    destruct (dict_get (lit "b64_json") d) as [b|] eqn:Eb.
    + destruct (truthy b) eqn:Tb; cbn [negb orb andb] in Hi |- *.
      * destruct b as [| | | |s| |]; try discriminate Hi.
        unfold bind at 1, lift at 1. unfold bind at 1, lift at 1.
        destruct (b64decode w (re_sub_empty re_blank s)) as [data|e]; [|discriminate Hi].
        unfold bind at 1. fold (candidate_filename ts idx).
        destruct (Hstore data (candidate_filename ts idx) tr) as [tr' [url E]].
        rewrite E.
        destruct (store_ok_writes_once _ _ _ _ _ _ _ E) as [e1 [-> Hw]].
        destruct (IH (S idx) (out ++ [PStr url]) (tr ++ e1)) as [ext [kept [Hrun [Hst Hl]]]].
        exists (e1 ++ ext), (PStr url :: kept). repeat split.
        -- rewrite Hrun. now rewrite <- !app_assoc.
        -- rewrite stored_app, Hw, Hst. reflexivity.
        -- constructor; [|exact Hl]. cbn [py_get]. rewrite Eb, Tb. cbn [negb].
           now exists url.
      * unfold bind at 1, lift at 1.
        set (u := match dict_get (lit "url") d with Some x => x | None => PNone end).
        destruct (IH (S idx) (if truthy u then out ++ [u] else out) tr)
          as [ext [kept [Hrun [Hst Hl]]]].
        destruct (truthy u) eqn:Tu; cbn [negb andb app].
        -- exists ext, (u :: kept). repeat split.
           ++ rewrite Hrun. now rewrite <- app_assoc.
           ++ exact Hst.
           ++ constructor; [|exact Hl]. cbn [py_get]. rewrite Eb, Tb. reflexivity.
        -- exists ext, kept. repeat split; assumption.
    + cbn [truthy negb andb].
      unfold bind at 1, lift at 1.
      set (u := match dict_get (lit "url") d with Some x => x | None => PNone end).
      destruct (IH (S idx) (if truthy u then out ++ [u] else out) tr)
        as [ext [kept [Hrun [Hst Hl]]]].
      destruct (truthy u) eqn:Tu; cbn [negb andb app].
      -- exists ext, (u :: kept). repeat split.
         ++ rewrite Hrun. now rewrite <- app_assoc.
         ++ exact Hst.
         ++ constructor; [|exact Hl]. cbn [py_get]. rewrite Eb. reflexivity.
      -- exists ext, kept. repeat split; assumption.
Qed.

(** One candidate either ends the loop with an exception or hands over to
    the rest of the list. *)
Lemma store_all_cons_cases (w : World) (valves : Valves) (ts : str) (idx : nat)
    (item : pyval) (rest out : list pyval) (tr : trace) :
  (exists tr' e, store_all w valves ts idx (item :: rest) out tr = (tr', Raise e)) \/
  (exists tr' out',
      store_all w valves ts idx (item :: rest) out tr =
      store_all w valves ts (S idx) rest out' tr').
Proof.
  cbn [store_all]. unfold bind, lift.
  destruct (py_get item "b64_json" PNone) as [b|e]; [|left; eexists _, _; reflexivity].
  destruct (negb (truthy b)).
  - destruct (py_get item "url" PNone) as [u|e]; [|left; eexists _, _; reflexivity].
    right. eexists _, _. reflexivity.
  - destruct (match b with PStr s => Ok (re_sub_empty re_blank s) | _ => _ end)
      as [cleaned|e]; [|left; eexists _, _; reflexivity].
    destruct (b64decode w cleaned) as [data|e]; [|left; eexists _, _; reflexivity].
    destruct (_store_image_bytes w valves data _ tr) as [tr1 [url|e]];
      [|left; eexists _, _; reflexivity].
    right. eexists _, _. reflexivity.
Qed.

(** A payload that does not decode ends the loop with an exception,
    wherever its candidate stands in the list. *)
Lemma store_all_undecodable (w : World) (valves : Valves) (ts : str)
    (item : pyval) (s : str) (e : exn) (items : list pyval) :
  In item items ->
  py_get item "b64_json" PNone = Ok (PStr s) -> s <> [] ->
  b64decode w (re_sub_empty re_blank s) = Raise e ->
  forall (idx : nat) (out : list pyval) (tr : trace),
  exists tr' e', store_all w valves ts idx items out tr = (tr', Raise e').
Proof.
  intros Hin Hb Hs Hd. induction items as [|x items IH]; intros idx out tr.
  - destruct Hin.
  - destruct Hin as [-> | Hin].
    + rewrite (store_all_payload _ _ _ _ _ _ _ _ _ Hb Hs), Hd. eexists _, _. reflexivity.
    + destruct (store_all_cons_cases w valves ts idx x items out tr)
        as [[tr' [e' H]] | [tr' [out' H]]]; rewrite H.
      * eexists _, _. reflexivity.
      * apply (IH Hin).
Qed.

(** C3, as the code has it.  Once the generation service has answered with
    candidates, the storing loop has no handler of its own.

    A failing step aborts: when the candidates before some candidate have
    been processed and that candidate carries a payload whose decoding
    raises, or whose decoded bytes [_store_image_bytes] fails to persist,
    the run ends there with the message of the top-level handler: nothing
    comes after the failing step but that message, whatever was stored
    before and whatever candidates follow.  So a payload that does not
    decode, wherever its candidate stands in the list, makes the run end
    with the handler's message and not with the gallery.

    Without a failing step the run completes: when every candidate is a
    mapping whose payload, if any, is a string that decodes, and persisting
    does not raise, every candidate that carries a payload has been stored
    once under its own name, a candidate that carries neither a payload nor
    a URL is skipped, and the run ends with the gallery of one link per
    candidate that carries a payload or a URL (for the latter that URL), or
    with the storage-failure message when there is no such candidate. *)
Theorem storing_skips_but_does_not_catch (w : World) (valves : Valves) (body : pyval)
    (u : str) (images : pyval) (n : nat) (tr1 : trace)
    (prompt : str) (gen_resp data_list : pyval) (items : list pyval) :
  _extract_user_instruction_and_images body = Ok (u, images) ->
  py_len images = Ok n ->
  (2 <= n)%nat ->
  prepare w valves u images [] = (tr1, Ok (prompt, gen_resp, data_list)) ->
  truthy data_list = true ->
  py_iter data_list = Ok items ->
  (forall (pre : list pyval) (item : pyval) (post : list pyval) (s : str)
          (tr_a : trace) (links : list pyval) (e : exn),
      items = pre ++ item :: post ->
      store_all w valves (strftime_now w (tr1 ++ [Yield saving])) 1 pre []
        (tr1 ++ [Yield saving]) = (tr_a, Ok links) ->
      py_get item "b64_json" PNone = Ok (PStr s) ->
      s <> [] ->
      (b64decode w (re_sub_empty re_blank s) = Raise e ->
       run_pipe w valves body = (tr_a ++ [Yield (pipeline_error e)], Ok tt)) /\
      (forall (data : bytes) (tr_b : trace),
          b64decode w (re_sub_empty re_blank s) = Ok data ->
          _store_image_bytes w valves data
            (candidate_filename (strftime_now w (tr1 ++ [Yield saving]))
               (S (List.length pre))) tr_a = (tr_b, Raise e) ->
          run_pipe w valves body = (tr_b ++ [Yield (pipeline_error e)], Ok tt)))
  /\
  (forall (item : pyval) (s : str) (e : exn),
      In item items ->
      py_get item "b64_json" PNone = Ok (PStr s) ->
      s <> [] ->
      b64decode w (re_sub_empty re_blank s) = Raise e ->
      exists (tr : trace) (e' : exn),
        run_pipe w valves body = (tr ++ [Yield (pipeline_error e')], Ok tt))
  /\
  (Forall (fun item => decodable w item = true) items ->
   (forall data filename tr, exists tr' url,
       _store_image_bytes w valves data filename tr = (tr', Ok url)) ->
   exists (ext : trace) (links : list pyval),
     run_pipe w valves body =
     (tr1 ++ [Yield saving] ++ ext ++
      [Yield match links with
             | [] => storage_failure
             | _ => gallery w valves prompt links
             end], Ok tt) /\
     stored ext =
     payload_targets w valves (strftime_now w (tr1 ++ [Yield saving])) 1 items /\
     Forall2 link_of (usable items) links).
Proof.
  intros Hx Hlen Hn Hp Ht Hi.
  pose proof (pipe_reaches_storing w valves _ _ _ _ _ _ _ _ _ Hx Hlen Hn Hp Ht Hi) as Hrun.
  cbv zeta in Hrun. split; [|split].
  - intros pre item post s tr_a links e -> Hpre Hb Hs.
    rewrite store_all_app, Hpre in Hrun.
    rewrite (store_all_payload _ _ _ _ _ _ _ _ _ Hb Hs) in Hrun.
    cbn [Nat.add] in Hrun. split.
    + intros Hd. rewrite Hd in Hrun. exact Hrun.
    + intros data tr_b Hd Hst. rewrite Hd, Hst in Hrun. exact Hrun.
  - intros item s e Hin Hb Hs Hd.
    destruct (store_all_undecodable w valves (strftime_now w (tr1 ++ [Yield saving]))
                item s e items Hin Hb Hs Hd 1%nat [] (tr1 ++ [Yield saving]))
      as [tr [e' H]].
    rewrite H in Hrun. now exists tr, e'.
  - intros Hd Hstore.
    destruct (store_all_clean w valves (strftime_now w (tr1 ++ [Yield saving])) items
                Hd Hstore 1%nat [] (tr1 ++ [Yield saving])) as [ext [kept [Hs [Hst Hl]]]].
    cbn [app] in Hs. rewrite Hs in Hrun.
    exists ext, kept. repeat split; try assumption.
    rewrite Hrun. rewrite <- !app_assoc. destruct kept; reflexivity.
Qed.

(** C3 at two runs.  With a payload that decodes and one that does not, the
    first candidate is stored and the run ends with the handler's message.
    With a payload, an empty entry and a URL, the empty entry is skipped
    and the gallery lists two links. *)
Lemma storing_skips_but_does_not_catch_witness :
  (exists tr_a : trace,
      stored tr_a = [lit "/app/static/morphs/morph_20260206_101500_000000_01.png"] /\
      run_pipe (studio_world (candidates [inline "QUJD"; inline "QUJ"]))
        default_valves body_two_images =
      (tr_a ++ [Yield (nl ++ lit "Pipeline error: Incorrect padding")], Ok tt)) /\
  (exists (tr : trace) (prompt : str) (l1 : str),
      stored tr = [lit "/app/static/morphs/morph_20260206_101500_000000_01.png"] /\
      run_pipe (studio_world (candidates [inline "QUJD"; PDict [];
                                          remote "https://cdn.example/2.png"]))
        default_valves body_two_images =
      (tr ++ [Yield (gallery (studio_world (candidates [inline "QUJD"; PDict [];
                                                       remote "https://cdn.example/2.png"]))
                       default_valves prompt
                       [PStr l1; PStr (lit "https://cdn.example/2.png")])], Ok tt)).
Proof.
  split.
  - set (w := studio_world (candidates [inline "QUJD"; inline "QUJ"])).
    eassert (Hp : prepare w default_valves (lit "make it fluffy")
                    (PList [PStr (lit "data:image/png;base64,AAAA"); PStr (lit "BBBB")]) [] =
                  (_, Ok (_, _, _))) by (vm_compute; reflexivity).
    pose proof (storing_skips_but_does_not_catch w default_valves body_two_images
                  _ _ 2%nat _ _ _ _ [inline "QUJD"; inline "QUJ"]
                  eq_refl eq_refl (le_n 2) Hp eq_refl eq_refl) as [H _].
    eassert (Hpre : store_all w default_valves (strftime_now w (_ ++ [Yield saving])) 1
                      [inline "QUJD"] [] (_ ++ [Yield saving]) = (_, Ok _))
      by (vm_compute; reflexivity).
    destruct (H [inline "QUJD"] (inline "QUJ") [] (lit "QUJ") _ _
                (mk_exn BinasciiError (lit "Incorrect padding"))
                eq_refl Hpre eq_refl ltac:(discriminate)) as [Hd _].
    eexists. split; [|exact (Hd eq_refl)]. vm_compute. reflexivity.
  - set (w := studio_world (candidates [inline "QUJD"; PDict [];
                                        remote "https://cdn.example/2.png"])).
    eassert (Hp : prepare w default_valves (lit "make it fluffy")
                    (PList [PStr (lit "data:image/png;base64,AAAA"); PStr (lit "BBBB")]) [] =
                  (_, Ok (_, _, _))) by (vm_compute; reflexivity).
    pose proof (storing_skips_but_does_not_catch w default_valves body_two_images
                  _ _ 2%nat _ _ _ _
                  [inline "QUJD"; PDict []; remote "https://cdn.example/2.png"]
                  eq_refl eq_refl (le_n 2) Hp eq_refl eq_refl) as [_ [_ H]].
    destruct H as [ext [links [Hrun [Hst Hl]]]].
    + repeat constructor.
    + intros data filename tr. eexists _, _. vm_compute. reflexivity.
    + change (usable _) with [inline "QUJD"; remote "https://cdn.example/2.png"] in Hl.
      inversion Hl as [|i1 k1 r1 ks1 H1 Hl1]; subst.
      inversion Hl1 as [|i2 k2 r2 ks2 H2 Hl2]; subst.
      inversion Hl2; subst.
      destruct H1 as [l1 ->]. injection H2 as <-.
      eexists _, _, l1. split; cycle 1.
      { rewrite Hrun. rewrite !app_assoc. reflexivity. }
      rewrite !stored_app, Hst. vm_compute. reflexivity.
Defined.
